(** * Symbol layout and collision debug drawing of mapbox-gl-js

    A shallow embedding of [src/symbol/symbol_layout.js] (module
    [SymbolLayout]) and of the collision debug renderer (module
    [CollisionDebug]), with the properties the specification states about
    them.

    Conventions of the embedding.
    - A JavaScript number is a rational [Q].  Every number the modelled code
      computes with is finite, and the scalings it performs (by 24, by 256,
      by 4) are exact on the rationals; rounding, NaN and the infinities of
      IEEE doubles are outside the model.  Where the source tests a number
      for [undefined], the value is a [jsnum = option Q] and [None] stands
      for [undefined] (and for the NaN arithmetic makes of it).
    - The bucket is the one mutable object of the layout pass.  It is a
      record threaded through a state-and-exception monad [M]; a JavaScript
      [TypeError] is the outcome [Throw].
    - Collaborators whose code lives in other files are fields of a type
      class.  What the pass asks of them is recorded, call by call, in a
      log that is part of the state, so that statements can speak about the
      arguments a collaborator received. *)

From Stdlib Require Import QArith Qround ZArith String Bool Lia Lqa.
From stdpp Require Import gmap strings list.

Open Scope Q_scope.

(** ** Numbers *)

Definition jsnum : Type := option Q.

Definition Qltb (a b : Q) : bool := negb (Qle_bool b a).

(** [a * b], [a / b] and [a > b] of JavaScript when an operand may be
    [undefined]: the arithmetic gives NaN, every comparison with NaN is
    false. *)
Definition jsmul (a b : jsnum) : jsnum :=
  match a, b with
  | Some x, Some y => Some (x * y)
  | _, _ => None
  end.

Definition jsdiv (a b : jsnum) : jsnum :=
  match a, b with
  | Some x, Some y => Some (x / y)
  | _, _ => None
  end.

Definition jsgt (a : jsnum) (b : Q) : bool :=
  match a with
  | Some x => Qltb b x
  | None => false
  end.

(** The truthiness of a value that is an object or [undefined] (or
    [false]). *)
Definition truthy {A} (o : option A) : bool :=
  match o with
  | Some _ => true
  | None => false
  end.

(** ** The state-and-exception monad *)

Inductive Outcome (A : Type) : Type :=
| Normal (a : A)
| Throw (e : string).
Arguments Normal {A} a.
Arguments Throw {A} e.

Section Monad.
Context {S : Type}.

Definition M (A : Type) : Type := S -> Outcome A * S.

Definition ret {A} (a : A) : M A := fun s => (Normal a, s).

Definition bind {A B} (m : M A) (k : A -> M B) : M B :=
  fun s =>
    match m s with
    | (Normal a, s') => k a s'
    | (Throw e, s') => (Throw e, s')
    end.

Definition throw {A} (e : string) : M A := fun s => (Throw e, s).

Definition get : M S := fun s => (Normal s, s).

Definition modify (f : S -> S) : M unit := fun s => (Normal tt, f s).

(** [when c m]: the statement [if (c) m]. *)
Definition when (c : bool) (m : M unit) : M unit :=
  if c then m else ret tt.

(** [forEach l body]: the loop [for (const x of l) body(x)]; an exception
    leaves the loop. *)
Fixpoint forEach {A} (l : list A) (body : A -> M unit) : M unit :=
  match l with
  | [] => ret tt
  | x :: l' => bind (body x) (fun _ => forEach l' body)
  end.

(** The state a computation ends in, whatever its outcome. *)
Definition final {A} (m : M A) (s : S) : S := snd (m s).

(** [wp m Q R s]: run from [s], [m] returns some [a] in a state in [Q a],
    or throws in a state in [R]. *)
Definition wp {A} (m : M A) (Q : A -> S -> Prop) (R : S -> Prop) (s : S)
  : Prop :=
  match m s with
  | (Normal a, s') => Q a s'
  | (Throw _, s') => R s'
  end.

End Monad.

Arguments M : clear implicits.

Notation "'let*' x ':=' m 'in' k" := (bind m (fun x => k))
  (at level 10, x name, m at level 100, k at level 200, only parsing).
Notation "m >> k" := (bind m (fun _ => k))
  (at level 100, k at level 200, right associativity, only parsing).

(** * Symbol layout: [src/symbol/symbol_layout.js] *)

Module SymbolLayout.

(** ** Data *)

(** The types of values that come from other files and that the layout pass
    only hands on. *)
Class ExternalTypes : Type := {
  (** [Formatted] of style-spec/expression/definitions/formatted *)
  Formatted : Type;
  (** the glyph and glyph-position dictionaries *)
  GlyphMap : Type;
  GlyphPositions : Type;
  (** [ImagePosition] of render/image_atlas *)
  ImagePosition : Type;
  (** [Shaping] and [PositionedIcon] of symbol/shaping *)
  Shaping : Type;
  PositionedIcon : Type;
  (** a quad of symbol/quads *)
  Quad : Type;
  (** an entry of the [CollisionBoxArray] *)
  Box : Type;
  (** the arrays [bucket.createArrays()] allocates and [bucket.addSymbols]
      and [bucket.addToLineVertexArray] fill: [bucket.text], [bucket.icon],
      [bucket.glyphOffsetArray], [bucket.lineVertexArray] *)
  Arrays : Type
}.

Section Data.
Context {T : ExternalTypes}.

(** [Point] of @mapbox/point-geometry. *)
Record Point : Type := mkPoint { px : Q; py : Q }.

(** [Anchor] of symbol/anchor: a point with an angle and an optional
    segment; [new Anchor(x, y, angle)] leaves [segment] undefined. *)
Record Anchor : Type := mkAnchor {
  anchor_x : Q;
  anchor_y : Q;
  anchor_angle : Q;
  anchor_segment : option Z
}.

Definition newAnchor (x y angle : Q) : Anchor := mkAnchor x y angle None.

(** [feature.text] is a string or a [Formatted]. *)
Inductive TextValue : Type :=
| TString (s : string)
| TFormatted (f : Formatted).

Inductive GeometryType : Type := Unknown | GPoint | LineString | Polygon.

(** [SymbolFeature] of data/bucket/symbol_bucket. *)
Record SymbolFeature : Type := {
  text : option TextValue;
  icon : option string;
  index : Z;
  sourceLayerIndex : Z;
  geometry : list (list Point);
  type : GeometryType
}.

(** [shaping.WritingMode] *)
Inductive WritingMode : Type := horizontal | vertical | horizontalOnly.

Inductive Placement : Type := point | line | line_center.

Inductive Alignment : Type := align_map | align_viewport | align_auto.

Definition Alignment_eqb (a b : Alignment) : bool :=
  match a, b with
  | align_map, align_map | align_viewport, align_viewport
  | align_auto, align_auto => true
  | _, _ => false
  end.

Definition Placement_eqb (a b : Placement) : bool :=
  match a, b with
  | point, point | line, line | line_center, line_center => true
  | _, _ => false
  end.

(** A [PossiblyEvaluatedPropertyValue]: a constant, or an expression of the
    feature. *)
Inductive PropertyValue (A : Type) : Type :=
| constant (a : A)
| source (f : SymbolFeature -> A).
Arguments constant {A} a.
Arguments source {A} f.

Definition evaluate {A} (p : PropertyValue A) (feature : SymbolFeature) : A :=
  match p with
  | constant a => a
  | source f => f feature
  end.

Definition constantOr {A} (p : PropertyValue A) (a : A) : A :=
  match p with
  | constant v => v
  | source _ => a
  end.

(** The possibly-evaluated layout of a symbol layer: [layout.get(name)] is
    the field of that name.  Properties that are not data-driven are plain
    values. *)
Record Layout : Type := {
  text_line_height : Q;
  text_rotation_alignment : Alignment;
  icon_rotation_alignment : Alignment;
  symbol_placement : Placement;
  text_keep_upright : bool;
  symbol_spacing : Q;
  text_padding : Q;
  icon_padding : Q;
  text_max_angle : Q;
  text_font : PropertyValue (list string);
  text_offset : PropertyValue (Q * Q);
  icon_offset : PropertyValue (Q * Q);
  text_letter_spacing : PropertyValue Q;
  text_anchor : PropertyValue string;
  icon_anchor : PropertyValue string;
  text_justify : PropertyValue string;
  text_max_width : PropertyValue Q;
  text_rotate : PropertyValue Q;
  icon_rotate : PropertyValue Q;
  text_size : PropertyValue jsnum;
  icon_size : PropertyValue jsnum
}.

(** A symbol style layer: its layout at the bucket's zoom, and the
    unevaluated ["text-size"] and ["icon-size"], where
    [unevaluated_text_size z] is
    [_unevaluatedLayout._values['text-size'].possiblyEvaluate(new EvaluationParameters(z))]. *)
Record SymbolStyleLayer : Type := {
  layout : Layout;
  unevaluated_text_size : Q -> PropertyValue jsnum;
  unevaluated_icon_size : Q -> PropertyValue jsnum
}.

(** [bucket.textSizeData] and [bucket.iconSizeData]: the function type, with
    the zoom range a composite function has. *)
Inductive SizeData : Type :=
| size_constant
| size_source
| size_camera
| size_composite (min max : Q).

(** The [Sizes] of the source. *)
Record Sizes : Type := {
  layoutTextSize : PropertyValue jsnum;
  layoutIconSize : PropertyValue jsnum;
  textMaxSize : PropertyValue jsnum;
  compositeTextSizes : option (PropertyValue jsnum * PropertyValue jsnum);
  compositeIconSizes : option (PropertyValue jsnum * PropertyValue jsnum)
}.

(** [StyleImage]: the two fields the pass reads. *)
Record StyleImage : Type := { sdf : bool; image_pixelRatio : Q }.

Record ShapedTextOrientations : Type := {
  shaped_horizontal : option Shaping;
  shaped_vertical : option Shaping
}.

(** The symbol instance [addSymbol] returns. *)
Record SymbolInstance : Type := {
  key : Z;
  textBoxStartIndex : Z;
  textBoxEndIndex : Z;
  iconBoxStartIndex : Z;
  iconBoxEndIndex : Z;
  anchor : Anchor;
  featureIndex : Z;
  numGlyphVertices : Z;
  numVerticalGlyphVertices : Z;
  numIconVertices : Z;
  placedTextSymbolIndices : list Z;
  crossTileID : Z
}.

(** The result of [bucket.addToLineVertexArray]. *)
Record LineArray : Type := { lineStartIndex : Z; lineLength : Z }.

(** *** Arguments of the collaborators *)

Record ShapeTextArgs : Type := {
  st_text : TextValue;
  st_glyphs : GlyphMap;
  st_fontstack : string;
  st_maxWidth : Q;
  st_lineHeight : Q;
  st_textAnchor : string;
  st_textJustify : string;
  st_spacing : Q;
  st_translate : Q * Q;
  st_verticalHeight : Q;
  st_writingMode : WritingMode
}.

Record GetAnchorsArgs : Type := {
  ga_line : list Point;
  ga_spacing : Q;
  ga_maxAngle : Q;
  ga_shapedText : option Shaping;
  ga_shapedIcon : option PositionedIcon;
  ga_glyphSize : Q;
  ga_boxScale : jsnum;
  ga_overscaling : Q;
  ga_tileExtent : Q
}.

Record GetCenterAnchorArgs : Type := {
  gc_line : list Point;
  gc_maxAngle : Q;
  gc_shapedText : option Shaping;
  gc_shapedIcon : option PositionedIcon;
  gc_glyphSize : Q;
  gc_boxScale : jsnum
}.

Record CollisionFeatureArgs : Type := {
  cf_line : list Point;
  cf_anchor : Anchor;
  cf_featureIndex : Z;
  cf_sourceLayerIndex : Z;
  cf_bucketIndex : Z;
  cf_shaped : Shaping + PositionedIcon;
  cf_boxScale : jsnum;
  cf_padding : Q;
  cf_alignLine : bool;
  cf_overscaling : Q;
  cf_rotate : Q
}.

Inductive SymbolBuffers : Type := buffers_text | buffers_icon.

Record AddSymbolsArgs : Type := {
  as_arrays : SymbolBuffers;
  as_quads : list Quad;
  as_sizeData : option (list jsnum);
  as_lineOffset : Q * Q;
  as_alongLine : bool;
  as_feature : SymbolFeature;
  (** [false] for icons *)
  as_writingMode : option WritingMode;
  as_labelAnchor : Anchor;
  as_lineStartIndex : Z;
  as_lineLength : Z
}.

Record GetGlyphQuadsArgs : Type := {
  gq_anchor : Anchor;
  gq_shaping : Shaping;
  gq_layer : SymbolStyleLayer;
  gq_alongLine : bool;
  gq_feature : SymbolFeature;
  gq_positions : GlyphPositions
}.

Record GetIconQuadsArgs : Type := {
  iq_anchor : Anchor;
  iq_shapedIcon : PositionedIcon;
  iq_layer : SymbolStyleLayer;
  iq_alongLine : bool;
  iq_shapedText : option Shaping;
  iq_feature : SymbolFeature
}.

(** The arguments of one [addSymbol] call that matter to the statements
    below. *)
Record AddSymbolCall : Type := {
  call_anchor : Anchor;
  call_line : list Point;
  call_shapedText : ShapedTextOrientations;
  call_shapedIcon : option PositionedIcon;
  call_feature : SymbolFeature
}.

(** The messages the pass hands to [warnOnce].  The size message is
    prefixed with [bucket.layerIds[0]] and names the property. *)
Inductive SizeProperty : Type := prop_text_size | prop_icon_size.

Inductive Warning : Type :=
| SizeTooLarge (layerId : option string) (property : SizeProperty)
| MixedSdfIcons
| TooManyGlyphs.

(** The log: calls in the order they happen. *)
Inductive Event : Type :=
| EvWarnOnce (w : Warning)
| EvShapeText (a : ShapeTextArgs)
| EvGetAnchors (a : GetAnchorsArgs)
| EvGetCenterAnchor (a : GetCenterAnchorArgs)
| EvAddSymbolAtAnchor (l : list Point) (a : Anchor)
| EvAddSymbol (c : AddSymbolCall)
| EvCollisionFeature (a : CollisionFeatureArgs)
| EvAddSymbols (a : AddSymbolsArgs)
| EvGenerateCollisionDebugBuffers.

(** ** The bucket *)

(** The fields of [SymbolBucket] the pass reads or writes.
    [collisionBoxArray] is the tile's shared store; [addSymbol] receives it
    a second time as an argument, as the same object. *)
Record SymbolBucket : Type := {
  overscaling : Q;
  zoom : Q;
  pixelRatio : Q;
  bucket_index : Z;
  layerIds : list string;
  layers_0 : SymbolStyleLayer;
  features : list SymbolFeature;
  textSizeData : SizeData;
  iconSizeData : SizeData;
  symbolInstances : list SymbolInstance;
  tilePixelRatio : Q;
  compareText : gmap string (list Anchor);
  iconsNeedLinear : bool;
  sdfIcons : option bool;
  collisionBoxArray : list Box;
  arrays : Arrays
}.

Definition set_symbolInstances (v : list SymbolInstance) (b : SymbolBucket)
  : SymbolBucket :=
  {| overscaling := overscaling b; zoom := zoom b; pixelRatio := pixelRatio b;
     bucket_index := bucket_index b; layerIds := layerIds b;
     layers_0 := layers_0 b; features := features b;
     textSizeData := textSizeData b; iconSizeData := iconSizeData b;
     symbolInstances := v;
     tilePixelRatio := tilePixelRatio b; compareText := compareText b;
     iconsNeedLinear := iconsNeedLinear b; sdfIcons := sdfIcons b;
     collisionBoxArray := collisionBoxArray b; arrays := arrays b |}.

Definition set_tilePixelRatio (v : Q) (b : SymbolBucket) : SymbolBucket :=
  {| overscaling := overscaling b; zoom := zoom b; pixelRatio := pixelRatio b;
     bucket_index := bucket_index b; layerIds := layerIds b;
     layers_0 := layers_0 b; features := features b;
     textSizeData := textSizeData b; iconSizeData := iconSizeData b;
     symbolInstances := symbolInstances b;
     tilePixelRatio := v; compareText := compareText b;
     iconsNeedLinear := iconsNeedLinear b; sdfIcons := sdfIcons b;
     collisionBoxArray := collisionBoxArray b; arrays := arrays b |}.

Definition set_compareText (v : gmap string (list Anchor)) (b : SymbolBucket)
  : SymbolBucket :=
  {| overscaling := overscaling b; zoom := zoom b; pixelRatio := pixelRatio b;
     bucket_index := bucket_index b; layerIds := layerIds b;
     layers_0 := layers_0 b; features := features b;
     textSizeData := textSizeData b; iconSizeData := iconSizeData b;
     symbolInstances := symbolInstances b;
     tilePixelRatio := tilePixelRatio b; compareText := v;
     iconsNeedLinear := iconsNeedLinear b; sdfIcons := sdfIcons b;
     collisionBoxArray := collisionBoxArray b; arrays := arrays b |}.

Definition set_iconsNeedLinear (v : bool) (b : SymbolBucket) : SymbolBucket :=
  {| overscaling := overscaling b; zoom := zoom b; pixelRatio := pixelRatio b;
     bucket_index := bucket_index b; layerIds := layerIds b;
     layers_0 := layers_0 b; features := features b;
     textSizeData := textSizeData b; iconSizeData := iconSizeData b;
     symbolInstances := symbolInstances b;
     tilePixelRatio := tilePixelRatio b; compareText := compareText b;
     iconsNeedLinear := v; sdfIcons := sdfIcons b;
     collisionBoxArray := collisionBoxArray b; arrays := arrays b |}.

Definition set_sdfIcons (v : option bool) (b : SymbolBucket) : SymbolBucket :=
  {| overscaling := overscaling b; zoom := zoom b; pixelRatio := pixelRatio b;
     bucket_index := bucket_index b; layerIds := layerIds b;
     layers_0 := layers_0 b; features := features b;
     textSizeData := textSizeData b; iconSizeData := iconSizeData b;
     symbolInstances := symbolInstances b;
     tilePixelRatio := tilePixelRatio b; compareText := compareText b;
     iconsNeedLinear := iconsNeedLinear b; sdfIcons := v;
     collisionBoxArray := collisionBoxArray b; arrays := arrays b |}.

Definition set_collisionBoxArray (v : list Box) (b : SymbolBucket)
  : SymbolBucket :=
  {| overscaling := overscaling b; zoom := zoom b; pixelRatio := pixelRatio b;
     bucket_index := bucket_index b; layerIds := layerIds b;
     layers_0 := layers_0 b; features := features b;
     textSizeData := textSizeData b; iconSizeData := iconSizeData b;
     symbolInstances := symbolInstances b;
     tilePixelRatio := tilePixelRatio b; compareText := compareText b;
     iconsNeedLinear := iconsNeedLinear b; sdfIcons := sdfIcons b;
     collisionBoxArray := v; arrays := arrays b |}.

Definition set_arrays (v : Arrays) (b : SymbolBucket) : SymbolBucket :=
  {| overscaling := overscaling b; zoom := zoom b; pixelRatio := pixelRatio b;
     bucket_index := bucket_index b; layerIds := layerIds b;
     layers_0 := layers_0 b; features := features b;
     textSizeData := textSizeData b; iconSizeData := iconSizeData b;
     symbolInstances := symbolInstances b;
     tilePixelRatio := tilePixelRatio b; compareText := compareText b;
     iconsNeedLinear := iconsNeedLinear b; sdfIcons := sdfIcons b;
     collisionBoxArray := collisionBoxArray b; arrays := v |}.

(** The state of the pass: the bucket and the log. *)
Record State : Type := mkState { bucket : SymbolBucket; log : list Event }.

Definition getBucket : M State SymbolBucket :=
  let* s := get in ret (bucket s).

Definition update (f : SymbolBucket -> SymbolBucket) : M State unit :=
  modify (fun s => mkState (f (bucket s)) (log s)).

Definition emit (e : Event) : M State unit :=
  modify (fun s => mkState (bucket s) (log s ++ [e])).

End Data.

Arguments constant {T A} a.
Arguments source {T A} f.

(** ** Collaborators *)

(** The functions and constants of other files.  [collisionFeatureBoxes],
    [createArrays], [addToLineVertexArray], [addSymbols] and
    [generateCollisionDebugBuffers] are the methods of the bucket and the
    constructor of [CollisionFeature], as functions of what they read. *)
Class Externals {T : ExternalTypes} : Type := {
  (** data/extent *)
  EXTENT : Q;
  (** [SymbolBucket.MAX_GLYPHS] *)
  MAX_GLYPHS : Z;
  (** the double [Math.PI] *)
  Math_PI : Q;
  (** [Formatted.prototype.toString] *)
  formatted_toString : Formatted -> string;
  (** the field [text] of a [Shaping] *)
  shaping_text : Shaping -> string;
  allowsVerticalWritingMode : string -> bool;
  allowsLetterSpacing : string -> bool;
  murmur3 : string -> Z;
  (** [Point.prototype.dist] *)
  dist : Anchor -> Anchor -> Q;
  shapeText : ShapeTextArgs -> option Shaping;
  shapeIcon : option ImagePosition -> Q * Q -> string -> PositionedIcon;
  getGlyphQuads : GetGlyphQuadsArgs -> list Quad;
  getIconQuads : GetIconQuadsArgs -> list Quad;
  clipLine : list (list Point) -> Q -> Q -> Q -> Q -> list (list Point);
  getAnchors : GetAnchorsArgs -> list Anchor;
  getCenterAnchor : GetCenterAnchorArgs -> option Anchor;
  classifyRings : list (list Point) -> Q -> list (list (list Point));
  findPoleOfInaccessibility : list (list Point) -> Q -> Point;
  (** the boxes a [new CollisionFeature(...)] appends *)
  collisionFeatureBoxes : CollisionFeatureArgs -> list Box;
  createArrays : Arrays -> Arrays;
  addToLineVertexArray : Arrays -> Anchor -> list Point -> Arrays * LineArray;
  addSymbols : Arrays -> AddSymbolsArgs -> Arrays;
  (** [bucket.text.placedSymbolArray.length] *)
  text_placedSymbolArray_length : Arrays -> Z;
  (** [bucket.glyphOffsetArray.length] *)
  glyphOffsetArray_length : Arrays -> Z;
  generateCollisionDebugBuffers : Arrays -> Arrays
}.

(** Modelled from the spec: [SIZE_PACK_FACTOR] of symbol/symbol_size, which
    is imported but not part of the sources at hand.  The specification
    puts the overflow of the 16-bit bound 65535 at a size of 256 and not
    yet at 255.9; among the integers only the factor 256 does that (see
    [SIZE_PACK_FACTOR_forced]). *)
Definition SIZE_PACK_FACTOR : Q := 256.

Definition MAX_PACKED_SIZE : Q := 65535.

Section Layout.
Context {T : ExternalTypes} {E : Externals}.

Definition warnOnce (w : Warning) : M State unit := emit (EvWarnOnce w).

(** [bucket.addSymbols(...)] *)
Definition bucket_addSymbols (a : AddSymbolsArgs) : M State unit :=
  emit (EvAddSymbols a) >>
  update (fun b => set_arrays (addSymbols (arrays b) a) b).

(** [bucket.addToLineVertexArray(anchor, line)] *)
Definition bucket_addToLineVertexArray (anchor : Anchor) (line : list Point)
  : M State LineArray :=
  let* b := getBucket in
  let r := addToLineVertexArray (arrays b) anchor line in
  update (set_arrays (fst r)) >>
  ret (snd r).

(** Modelled from the spec: the constructor of [CollisionFeature]
    (symbol/collision_feature is not part of the sources at hand).  It
    appends its boxes to the shared collision-box store and keeps the range
    [boxStartIndex, boxEndIndex) they occupy. *)
Record CollisionFeature : Type := {
  boxStartIndex : Z;
  boxEndIndex : Z
}.

Definition newCollisionFeature (a : CollisionFeatureArgs)
  : M State CollisionFeature :=
  emit (EvCollisionFeature a) >>
  let* b := getBucket in
  let start := Z.of_nat (length (collisionBoxArray b)) in
  update (set_collisionBoxArray (collisionBoxArray b ++ collisionFeatureBoxes a)) >>
  let* b' := getBucket in
  ret {| boxStartIndex := start;
         boxEndIndex := Z.of_nat (length (collisionBoxArray b')) |}.

(** [addTextVertices].  The source pushes onto the caller's array
    [placedTextSymbolIndices]; here the extended array is returned next to
    the vertex count.  Reading [sizes.compositeTextSizes[0]] when the field
    was never set is a TypeError. *)
Definition addTextVertices (anchor : Anchor) (shapedText : Shaping)
    (layer : SymbolStyleLayer) (textAlongLine : bool)
    (feature : SymbolFeature) (textOffset : Q * Q) (lineArray : LineArray)
    (writingMode : WritingMode) (placedTextSymbolIndices : list Z)
    (glyphPositionMap : GlyphPositions) (sizes : Sizes)
  : M State (Z * list Z) :=
  let glyphQuads :=
    getGlyphQuads {| gq_anchor := anchor; gq_shaping := shapedText;
                     gq_layer := layer; gq_alongLine := textAlongLine;
                     gq_feature := feature;
                     gq_positions := glyphPositionMap |} in
  let* b := getBucket in
  let sizeData := textSizeData b in
  let* textSizeData :=
    match sizeData with
    | size_source =>
        let d0 := jsmul (Some SIZE_PACK_FACTOR)
                        (evaluate (text_size (layout layer)) feature) in
        when (jsgt d0 MAX_PACKED_SIZE)
             (warnOnce (SizeTooLarge (head (layerIds b)) prop_text_size)) >>
        ret (Some [d0])
    | size_composite _ _ =>
        match compositeTextSizes sizes with
        | None => throw "TypeError"
        | Some (s0, s1) =>
            let d0 := jsmul (Some SIZE_PACK_FACTOR) (evaluate s0 feature) in
            let d1 := jsmul (Some SIZE_PACK_FACTOR) (evaluate s1 feature) in
            when (jsgt d0 MAX_PACKED_SIZE || jsgt d1 MAX_PACKED_SIZE)
                 (warnOnce (SizeTooLarge (head (layerIds b)) prop_text_size)) >>
            ret (Some [d0; d1])
        end
    | _ => ret None
    end in
  bucket_addSymbols
    {| as_arrays := buffers_text; as_quads := glyphQuads;
       as_sizeData := textSizeData; as_lineOffset := textOffset;
       as_alongLine := textAlongLine; as_feature := feature;
       as_writingMode := Some writingMode; as_labelAnchor := anchor;
       as_lineStartIndex := lineStartIndex lineArray;
       as_lineLength := lineLength lineArray |} >>
  let* b' := getBucket in
  ret ((Z.of_nat (length glyphQuads) * 4)%Z,
       placedTextSymbolIndices
         ++ [(text_placedSymbolArray_length (arrays b') - 1)%Z]).

(** [addSymbol]: add a single label and icon placement.  The parameter
    [collisionBoxArray] of the source is [bucket.collisionBoxArray] itself
    and is read from the state. *)
Definition addSymbol (anchor : Anchor) (line : list Point)
    (shapedTextOrientations : ShapedTextOrientations)
    (shapedIcon : option PositionedIcon) (layer : SymbolStyleLayer)
    (featureIndex sourceLayerIndex bucketIndex : Z)
    (textBoxScale : jsnum) (textPadding : Q) (textAlongLine : bool)
    (textOffset : Q * Q)
    (iconBoxScale : jsnum) (iconPadding : Q) (iconAlongLine : bool)
    (iconOffset : Q * Q)
    (feature : SymbolFeature) (glyphPositionMap : GlyphPositions)
    (sizes : Sizes) : M State SymbolInstance :=
  emit (EvAddSymbol {| call_anchor := anchor; call_line := line;
                       call_shapedText := shapedTextOrientations;
                       call_shapedIcon := shapedIcon;
                       call_feature := feature |}) >>
  let* lineArray := bucket_addToLineVertexArray anchor line in
  let key :=
    murmur3 (match shaped_horizontal shapedTextOrientations with
             | Some h => shaping_text h
             | None => ""
             end) in
  (* textCollisionFeature, numGlyphVertices, numVerticalGlyphVertices,
     placedTextSymbolIndices *)
  let* textPart :=
    match shaped_horizontal shapedTextOrientations with
    | Some h =>
        let textRotate := evaluate (text_rotate (layout layer)) feature in
        let* b := getBucket in
        let* textCollisionFeature :=
          newCollisionFeature
            {| cf_line := line; cf_anchor := anchor;
               cf_featureIndex := featureIndex;
               cf_sourceLayerIndex := sourceLayerIndex;
               cf_bucketIndex := bucketIndex; cf_shaped := inl h;
               cf_boxScale := textBoxScale; cf_padding := textPadding;
               cf_alignLine := textAlongLine;
               cf_overscaling := overscaling b;
               cf_rotate := textRotate |} in
        let* r :=
          addTextVertices anchor h layer textAlongLine feature textOffset
            lineArray
            (match shaped_vertical shapedTextOrientations with
             | Some _ => horizontal
             | None => horizontalOnly
             end)
            [] glyphPositionMap sizes in
        match shaped_vertical shapedTextOrientations with
        | Some v =>
            let* rv :=
              addTextVertices anchor v layer textAlongLine feature textOffset
                lineArray vertical (snd r) glyphPositionMap sizes in
            ret (Some textCollisionFeature, fst r, fst rv, snd rv)
        | None => ret (Some textCollisionFeature, fst r, 0%Z, snd r)
        end
    | None => ret (None, 0%Z, 0%Z, [])
    end in
  let '(textCollisionFeature, numGlyphVertices, numVerticalGlyphVertices,
        placedTextSymbolIndices) := textPart in
  let* b := getBucket in
  let textBoxStartIndex :=
    match textCollisionFeature with
    | Some c => boxStartIndex c
    | None => Z.of_nat (length (collisionBoxArray b))
    end in
  let textBoxEndIndex :=
    match textCollisionFeature with
    | Some c => boxEndIndex c
    | None => Z.of_nat (length (collisionBoxArray b))
    end in
  (* iconCollisionFeature, numIconVertices *)
  let* iconPart :=
    match shapedIcon with
    | Some shapedIcon =>
        let iconQuads :=
          getIconQuads
            {| iq_anchor := anchor; iq_shapedIcon := shapedIcon;
               iq_layer := layer; iq_alongLine := iconAlongLine;
               iq_shapedText := shaped_horizontal shapedTextOrientations;
               iq_feature := feature |} in
        let iconRotate := evaluate (icon_rotate (layout layer)) feature in
        let* iconCollisionFeature :=
          newCollisionFeature
            {| cf_line := line; cf_anchor := anchor;
               cf_featureIndex := featureIndex;
               cf_sourceLayerIndex := sourceLayerIndex;
               cf_bucketIndex := bucketIndex; cf_shaped := inr shapedIcon;
               cf_boxScale := iconBoxScale; cf_padding := iconPadding;
               cf_alignLine := false;
               cf_overscaling := overscaling b;
               cf_rotate := iconRotate |} in
        let numIconVertices := (Z.of_nat (length iconQuads) * 4)%Z in
        let sizeData := iconSizeData b in
        let* iconSizeData :=
          match sizeData with
          | size_source =>
              let d0 := jsmul (Some SIZE_PACK_FACTOR)
                              (evaluate (icon_size (layout layer)) feature) in
              when (jsgt d0 MAX_PACKED_SIZE)
                   (warnOnce (SizeTooLarge (head (layerIds b)) prop_icon_size)) >>
              ret (Some [d0])
          | size_composite _ _ =>
              match compositeIconSizes sizes with
              | None => throw "TypeError"
              | Some (s0, s1) =>
                  let d0 := jsmul (Some SIZE_PACK_FACTOR) (evaluate s0 feature) in
                  let d1 := jsmul (Some SIZE_PACK_FACTOR) (evaluate s1 feature) in
                  when (jsgt d0 MAX_PACKED_SIZE || jsgt d1 MAX_PACKED_SIZE)
                       (warnOnce (SizeTooLarge (head (layerIds b)) prop_icon_size)) >>
                  ret (Some [d0; d1])
              end
          | _ => ret None
          end in
        bucket_addSymbols
          {| as_arrays := buffers_icon; as_quads := iconQuads;
             as_sizeData := iconSizeData; as_lineOffset := iconOffset;
             as_alongLine := iconAlongLine; as_feature := feature;
             as_writingMode := None; as_labelAnchor := anchor;
             as_lineStartIndex := lineStartIndex lineArray;
             as_lineLength := lineLength lineArray |} >>
        ret (Some iconCollisionFeature, numIconVertices)
    | None => ret (None, 0%Z)
    end in
  let '(iconCollisionFeature, numIconVertices) := iconPart in
  let* b := getBucket in
  let iconBoxStartIndex :=
    match iconCollisionFeature with
    | Some c => boxStartIndex c
    | None => Z.of_nat (length (collisionBoxArray b))
    end in
  let iconBoxEndIndex :=
    match iconCollisionFeature with
    | Some c => boxEndIndex c
    | None => Z.of_nat (length (collisionBoxArray b))
    end in
  when (MAX_GLYPHS <=? glyphOffsetArray_length (arrays b))%Z
       (warnOnce TooManyGlyphs) >>
  ret {| key := key;
         textBoxStartIndex := textBoxStartIndex;
         textBoxEndIndex := textBoxEndIndex;
         iconBoxStartIndex := iconBoxStartIndex;
         iconBoxEndIndex := iconBoxEndIndex;
         anchor := anchor;
         featureIndex := featureIndex;
         numGlyphVertices := numGlyphVertices;
         numVerticalGlyphVertices := numVerticalGlyphVertices;
         numIconVertices := numIconVertices;
         placedTextSymbolIndices := placedTextSymbolIndices;
         crossTileID := 0 |}.

(** The property names every object inherits from [Object.prototype].
    [bucket.compareText] starts as the literal [{}], so [text in compareText]
    holds for these names although the pass never stores them. *)
Definition Object_prototype_keys : list string :=
  ["constructor"; "hasOwnProperty"; "isPrototypeOf"; "propertyIsEnumerable";
   "toLocaleString"; "toString"; "valueOf"; "__proto__";
   "__defineGetter__"; "__defineSetter__"; "__lookupGetter__";
   "__lookupSetter__"]%string.

Definition inherited (k : string) : bool :=
  bool_decide (k ∈ Object_prototype_keys).

(** [anchorIsTooClose].  An own entry of [compareText] is scanned from its
    last anchor to its first.  For an inherited name the source takes the
    else branch with a function (or the prototype) in the place of the
    array; reading an anchor from it, or calling its missing [push], is a
    TypeError. *)
Definition anchorIsTooClose (text : string) (repeatDistance : Q)
    (anchor : Anchor) : M State bool :=
  let* b := getBucket in
  let compareText := compareText b in
  match compareText !! text with
  | None =>
      if inherited text then throw "TypeError"
      else
        update (set_compareText (<[text := [] ++ [anchor]]> compareText)) >>
        ret false
  | Some otherAnchors =>
      if existsb (fun other => Qltb (dist anchor other) repeatDistance)
                 (rev otherAnchors)
      then ret true
      else
        update (set_compareText
                  (<[text := otherAnchors ++ [anchor]]> compareText)) >>
        ret false
  end.

(** The closure [addSymbolAtAnchor] of [addFeature], with the variables it
    captures as parameters. *)
Definition addSymbolAtAnchor (feature : SymbolFeature)
    (shapedTextOrientations : ShapedTextOrientations)
    (shapedIcon : option PositionedIcon) (glyphPositionMap : GlyphPositions)
    (sizes : Sizes)
    (textBoxScale : jsnum) (textPadding : Q) (textAlongLine : bool)
    (textOffset : Q * Q)
    (iconBoxScale : jsnum) (iconPadding : Q) (iconAlongLine : bool)
    (iconOffset : Q * Q)
    (line : list Point) (anchor : Anchor) : M State unit :=
  emit (EvAddSymbolAtAnchor line anchor) >>
  if Qltb (anchor_x anchor) 0 || Qle_bool EXTENT (anchor_x anchor)
     || Qltb (anchor_y anchor) 0 || Qle_bool EXTENT (anchor_y anchor)
  then ret tt
  else
    let* b := getBucket in
    let* instance :=
      addSymbol anchor line shapedTextOrientations shapedIcon (layers_0 b)
        (index feature) (sourceLayerIndex feature) (bucket_index b)
        textBoxScale textPadding textAlongLine textOffset
        iconBoxScale iconPadding iconAlongLine iconOffset
        feature glyphPositionMap sizes in
    update (fun b => set_symbolInstances (symbolInstances b ++ [instance]) b).

Definition getAnchors_logged (a : GetAnchorsArgs) : M State (list Anchor) :=
  emit (EvGetAnchors a) >> ret (getAnchors a).

Definition getCenterAnchor_logged (a : GetCenterAnchorArgs)
  : M State (option Anchor) :=
  emit (EvGetCenterAnchor a) >> ret (getCenterAnchor a).

(** [shapedTextOrientations.vertical || shapedTextOrientations.horizontal] *)
Definition vertical_or_horizontal (o : ShapedTextOrientations)
  : option Shaping :=
  match shaped_vertical o with
  | Some v => Some v
  | None => shaped_horizontal o
  end.

(** [addFeature]: given a feature and its shaped text and icon data, add a
    symbol instance for each possible placement of the symbol feature. *)
Definition addFeature (feature : SymbolFeature)
    (shapedTextOrientations : ShapedTextOrientations)
    (shapedIcon : option PositionedIcon) (glyphPositionMap : GlyphPositions)
    (sizes : Sizes) : M State unit :=
  let layoutTextSize := evaluate (layoutTextSize sizes) feature in
  let layoutIconSize := evaluate (layoutIconSize sizes) feature in
  let textMaxSize :=
    match evaluate (textMaxSize sizes) feature with
    | None => layoutTextSize
    | Some v => Some v
    end in
  let* b := getBucket in
  let layout := layout (layers_0 b) in
  let textOffset := evaluate (text_offset layout) feature in
  let iconOffset := evaluate (icon_offset layout) feature in
  let glyphSize := 24 in
  let fontScale := jsdiv layoutTextSize (Some glyphSize) in
  let textBoxScale := jsmul (Some (tilePixelRatio b)) fontScale in
  let textMaxBoxScale :=
    jsdiv (jsmul (Some (tilePixelRatio b)) textMaxSize) (Some glyphSize) in
  let iconBoxScale := jsmul (Some (tilePixelRatio b)) layoutIconSize in
  let symbolMinDistance := tilePixelRatio b * symbol_spacing layout in
  let textPadding := text_padding layout * tilePixelRatio b in
  let iconPadding := icon_padding layout * tilePixelRatio b in
  let textMaxAngle := text_max_angle layout / 180 * Math_PI in
  let textAlongLine :=
    Alignment_eqb (text_rotation_alignment layout) align_map
    && negb (Placement_eqb (symbol_placement layout) point) in
  let iconAlongLine :=
    Alignment_eqb (icon_rotation_alignment layout) align_map
    && negb (Placement_eqb (symbol_placement layout) point) in
  let symbolPlacement := symbol_placement layout in
  let textRepeatDistance := symbolMinDistance / 2 in
  let addSymbolAtAnchor :=
    addSymbolAtAnchor feature shapedTextOrientations shapedIcon
      glyphPositionMap sizes
      textBoxScale textPadding textAlongLine textOffset
      iconBoxScale iconPadding iconAlongLine iconOffset in
  match symbolPlacement with
  | line =>
      forEach (clipLine (geometry feature) 0 0 EXTENT EXTENT) (fun line =>
        let* anchors :=
          getAnchors_logged
            {| ga_line := line; ga_spacing := symbolMinDistance;
               ga_maxAngle := textMaxAngle;
               ga_shapedText := vertical_or_horizontal shapedTextOrientations;
               ga_shapedIcon := shapedIcon; ga_glyphSize := glyphSize;
               ga_boxScale := textMaxBoxScale;
               ga_overscaling := overscaling b;
               ga_tileExtent := EXTENT |} in
        forEach anchors (fun anchor =>
          match shaped_horizontal shapedTextOrientations with
          | None => addSymbolAtAnchor line anchor
          | Some shapedText =>
              let* tooClose :=
                anchorIsTooClose (shaping_text shapedText)
                                 textRepeatDistance anchor in
              if tooClose then ret tt else addSymbolAtAnchor line anchor
          end))
  | line_center =>
      (* No clipping, multiple lines per feature are allowed; lines with
         only one point are ignored as in clipLines *)
      forEach (geometry feature) (fun line =>
        if (1 <? length line)%nat then
          let* anchor :=
            getCenterAnchor_logged
              {| gc_line := line; gc_maxAngle := textMaxAngle;
                 gc_shapedText := vertical_or_horizontal shapedTextOrientations;
                 gc_shapedIcon := shapedIcon; gc_glyphSize := glyphSize;
                 gc_boxScale := textMaxBoxScale |} in
          match anchor with
          | Some anchor => addSymbolAtAnchor line anchor
          | None => ret tt
          end
        else ret tt)
  | point =>
      match type feature with
      | Polygon =>
          forEach (classifyRings (geometry feature) 0) (fun polygon =>
            (* 16 here represents 2 pixels *)
            let poi := findPoleOfInaccessibility polygon 16 in
            (* polygon[0]: classifyRings gives every polygon its outer ring *)
            addSymbolAtAnchor (hd [] polygon) (newAnchor (px poi) (py poi) 0))
      | LineString =>
          forEach (geometry feature) (fun line =>
            match line with
            | [] => throw "TypeError"
            | p :: _ => addSymbolAtAnchor line (newAnchor (px p) (py p) 0)
            end)
      | GPoint =>
          forEach (geometry feature) (fun points =>
            forEach points (fun point =>
              addSymbolAtAnchor [point]
                (newAnchor (px point) (py point) 0)))
      | Unknown => ret tt
      end
  end.

Definition oneEm : Q := 24.

(** The sizes [performSymbolLayout] evaluates before its loop. *)
Definition computeSizes (b : SymbolBucket) : Sizes :=
  let layer := layers_0 b in
  {| compositeTextSizes :=
       match textSizeData b with
       | size_composite min max =>
           Some (unevaluated_text_size layer min,
                 unevaluated_text_size layer max)
       | _ => None
       end;
     compositeIconSizes :=
       match iconSizeData b with
       | size_composite min max =>
           Some (unevaluated_icon_size layer min,
                 unevaluated_icon_size layer max)
       | _ => None
       end;
     layoutTextSize := unevaluated_text_size layer (zoom b + 1);
     layoutIconSize := unevaluated_icon_size layer (zoom b + 1);
     textMaxSize := unevaluated_text_size layer 18 |}.

Definition shapeText_logged (a : ShapeTextArgs) : M State (option Shaping) :=
  emit (EvShapeText a) >> ret (shapeText a).

(** [if (text)]: the empty string is falsy, a [Formatted] is an object. *)
Definition truthy_text (t : option TextValue) : option TextValue :=
  match t with
  | Some (TString "") => None
  | _ => t
  end.

(** [if (feature.icon)] *)
Definition truthy_icon (i : option string) : option string :=
  match i with
  | Some "" => None
  | _ => i
  end.

(** The body of the loop of [performSymbolLayout] over [bucket.features].
    [imageMap] and [imagePositions] are the property lookups
    [imageMap[name]] and [imagePositions[name]]. *)
Definition performSymbolLayout_feature (glyphMap : GlyphMap)
    (glyphPositions : GlyphPositions)
    (imageMap : string -> option StyleImage)
    (imagePositions : string -> option ImagePosition)
    (layout : Layout) (sizes : Sizes) (lineHeight : Q)
    (textAlongLine keepUpright : bool)
    (feature : SymbolFeature) : M State unit :=
  let fontstack := String.concat "," (evaluate (text_font layout) feature) in
  let glyphPositionMap := glyphPositions in
  let* shapedTextOrientations :=
    match truthy_text (text feature) with
    | Some text =>
        let unformattedText :=
          match text with
          | TFormatted f => formatted_toString f
          | TString s => s
          end in
        let textOffset :=
          (fst (evaluate (text_offset layout) feature) * oneEm,
           snd (evaluate (text_offset layout) feature) * oneEm) in
        let spacing := evaluate (text_letter_spacing layout) feature * oneEm in
        let spacingIfAllowed :=
          if allowsLetterSpacing unformattedText then spacing else 0 in
        let textAnchor := evaluate (text_anchor layout) feature in
        let textJustify := evaluate (text_justify layout) feature in
        let maxWidth :=
          if Placement_eqb (symbol_placement layout) point
          then evaluate (text_max_width layout) feature * oneEm
          else 0 in
        let args (mode : WritingMode) :=
          {| st_text := text; st_glyphs := glyphMap;
             st_fontstack := fontstack; st_maxWidth := maxWidth;
             st_lineHeight := lineHeight; st_textAnchor := textAnchor;
             st_textJustify := textJustify; st_spacing := spacingIfAllowed;
             st_translate := textOffset; st_verticalHeight := oneEm;
             st_writingMode := mode |} in
        let* h := shapeText_logged (args horizontal) in
        if allowsVerticalWritingMode unformattedText && textAlongLine
           && keepUpright
        then
          let* v := shapeText_logged (args vertical) in
          ret {| shaped_horizontal := h; shaped_vertical := v |}
        else ret {| shaped_horizontal := h; shaped_vertical := None |}
    | None => ret {| shaped_horizontal := None; shaped_vertical := None |}
    end in
  let* shapedIcon :=
    match truthy_icon (icon feature) with
    | Some name =>
        match imageMap name with
        | Some image =>
            let shapedIcon :=
              shapeIcon (imagePositions name)
                        (evaluate (icon_offset layout) feature)
                        (evaluate (icon_anchor layout) feature) in
            let* b := getBucket in
            match sdfIcons b with
            | None => update (set_sdfIcons (Some (sdf image)))
            | Some s =>
                when (negb (Bool.eqb s (sdf image))) (warnOnce MixedSdfIcons)
            end >>
            (if negb (Qeq_bool (image_pixelRatio image) (pixelRatio b))
             then update (set_iconsNeedLinear true)
             else when (negb (Qeq_bool (constantOr (icon_rotate layout) 1) 0))
                       (update (set_iconsNeedLinear true))) >>
            ret (Some shapedIcon)
        | None => ret None
        end
    | None => ret None
    end in
  if truthy (shaped_horizontal shapedTextOrientations)
     || truthy shapedIcon
  then addFeature feature shapedTextOrientations shapedIcon glyphPositionMap
                  sizes
  else ret tt.

(** [performSymbolLayout] *)
Definition performSymbolLayout (glyphMap : GlyphMap)
    (glyphPositions : GlyphPositions)
    (imageMap : string -> option StyleImage)
    (imagePositions : string -> option ImagePosition)
    (showCollisionBoxes : bool) : M State unit :=
  update (fun b => set_arrays (createArrays (arrays b)) b) >>
  update (set_symbolInstances []) >>
  let* b := getBucket in
  let tileSize := 512 * overscaling b in
  update (set_tilePixelRatio (EXTENT / tileSize)) >>
  update (set_compareText ∅) >>
  update (set_iconsNeedLinear false) >>
  let layout := layout (layers_0 b) in
  let sizes := computeSizes b in
  let lineHeight := text_line_height layout * oneEm in
  let textAlongLine :=
    Alignment_eqb (text_rotation_alignment layout) align_map
    && negb (Placement_eqb (symbol_placement layout) point) in
  let keepUpright := text_keep_upright layout in
  forEach (features b)
    (performSymbolLayout_feature glyphMap glyphPositions imageMap
       imagePositions layout sizes lineHeight textAlongLine keepUpright) >>
  when showCollisionBoxes
    (emit EvGenerateCollisionDebugBuffers >>
     update (fun b => set_arrays (generateCollisionDebugBuffers (arrays b)) b)).

(** Running the pass on a bucket, with an empty log. *)
Definition run_performSymbolLayout (glyphMap : GlyphMap)
    (glyphPositions : GlyphPositions)
    (imageMap : string -> option StyleImage)
    (imagePositions : string -> option ImagePosition)
    (showCollisionBoxes : bool) (b : SymbolBucket) : Outcome unit * State :=
  performSymbolLayout glyphMap glyphPositions imageMap imagePositions
    showCollisionBoxes (mkState b []).

End Layout.

End SymbolLayout.

(** ** A small instance to run the model on

    Stand-ins for the collaborators, simple enough to evaluate by hand: a
    shaping is the text itself, every character gives one glyph quad, an
    icon one quad, a collision feature one box; the anchors of a line are
    its vertices; distances are taken along the axes (exact for the
    horizontal lines the examples use). *)

Module Demo.
Import SymbolLayout.

Definition Qabs' (q : Q) : Q := if Qltb q 0 then - q else q.

#[export] Instance demo_types : ExternalTypes := {|
  Formatted := list string;
  GlyphMap := unit;
  GlyphPositions := unit;
  ImagePosition := unit;
  Shaping := string;
  PositionedIcon := unit;
  Quad := unit;
  Box := unit;
  (* placedSymbolArray.length, glyphOffsetArray.length *)
  Arrays := Z * Z
|}.

Definition demo_unformatted (t : TextValue) : string :=
  match t with
  | TString s => s
  | TFormatted f => String.concat "" f
  end.

#[export] Instance demo : @Externals demo_types := {|
  EXTENT := 8192;
  MAX_GLYPHS := 65535;
  Math_PI := 884279719003555 # 281474976710656;
  formatted_toString := fun f => String.concat "" f;
  shaping_text := fun s => s;
  allowsVerticalWritingMode := fun s => String.prefix "V" s;
  allowsLetterSpacing := fun _ => true;
  murmur3 := fun s => Z.of_nat (String.length s);
  dist := fun a b =>
    Qabs' (anchor_x a - anchor_x b) + Qabs' (anchor_y a - anchor_y b);
  shapeText := fun a => Some (demo_unformatted (st_text a));
  shapeIcon := fun _ _ _ => tt;
  getGlyphQuads := fun a =>
    repeat tt (String.length (gq_shaping a));
  getIconQuads := fun _ => [tt];
  clipLine := fun g _ _ _ _ => g;
  getAnchors := fun a =>
    map (fun p => newAnchor (px p) (py p) 0) (ga_line a);
  getCenterAnchor := fun a =>
    match gc_line a with
    | p :: _ => Some (newAnchor (px p) (py p) 0)
    | [] => None
    end;
  classifyRings := fun g _ => [g];
  findPoleOfInaccessibility := fun polygon _ =>
    match polygon with
    | (p :: _) :: _ => p
    | _ => mkPoint 0 0
    end;
  collisionFeatureBoxes := fun _ => [tt];
  createArrays := fun _ => (0, 0)%Z;
  addToLineVertexArray := fun a _ line =>
    (a, {| lineStartIndex := 0; lineLength := Z.of_nat (length line) |});
  addSymbols := fun a args =>
    ((fst a + 1)%Z, (snd a + Z.of_nat (length (as_quads args)))%Z);
  text_placedSymbolArray_length := fun a => fst a;
  glyphOffsetArray_length := fun a => snd a;
  generateCollisionDebugBuffers := fun a => a
|}.

Definition demo_layout (placement : Placement) (size : jsnum) : Layout :=
  {| text_line_height := 12 # 10;
     text_rotation_alignment := align_auto;
     icon_rotation_alignment := align_auto;
     symbol_placement := placement;
     text_keep_upright := true;
     symbol_spacing := 250;
     text_padding := 2;
     icon_padding := 2;
     text_max_angle := 45;
     text_font := constant ["Open Sans Regular"; "Arial Unicode MS Regular"]%string;
     text_offset := constant (0, 0);
     icon_offset := constant (0, 0);
     text_letter_spacing := constant 0;
     text_anchor := constant "center"%string;
     icon_anchor := constant "center"%string;
     text_justify := constant "center"%string;
     text_max_width := constant 10;
     text_rotate := constant 0;
     icon_rotate := constant 0;
     text_size := constant size;
     icon_size := constant (Some 1) |}.

Definition demo_layer (placement : Placement) (size : jsnum)
  : SymbolStyleLayer :=
  {| layout := demo_layout placement size;
     unevaluated_text_size := fun _ => constant size;
     unevaluated_icon_size := fun _ => constant (Some 1) |}.

Definition demo_bucket (placement : Placement) (size : jsnum)
    (sizeData : SizeData) (fs : list SymbolFeature) : SymbolBucket :=
  {| overscaling := 1; zoom := 10; pixelRatio := 1; bucket_index := 0;
     layerIds := ["labels"%string]; layers_0 := demo_layer placement size;
     features := fs; textSizeData := sizeData;
     iconSizeData := size_constant;
     symbolInstances := []; tilePixelRatio := 0; compareText := ∅;
     iconsNeedLinear := false; sdfIcons := None;
     collisionBoxArray := []; arrays := (0, 0)%Z |}.

Definition demo_feature (t : option string) (i : option string)
    (ty : GeometryType) (g : list (list Point)) : SymbolFeature :=
  {| text := option_map TString t; icon := i; index := 7;
     sourceLayerIndex := 0; geometry := g; type := ty |}.

Definition demo_images (name : string) : option StyleImage :=
  if String.eqb name "star" then Some {| sdf := false; image_pixelRatio := 1 |}
  else None.

Definition demo_run (b : SymbolBucket) : Outcome unit * State :=
  run_performSymbolLayout tt tt demo_images (fun _ => Some tt) false b.

(** A state whose bucket has a source text-size function, with a text size
    of 300. *)
Definition demo_source_state : State :=
  mkState (demo_bucket point (Some 300) size_source []) [].

(** A line with three anchors for the label LAKE: the second 5 units from
    the first, the third 3900 units away. *)
Definition demo_lake : SymbolFeature :=
  demo_feature (Some "LAKE"%string) None LineString
    [[mkPoint 100 100; mkPoint 105 100; mkPoint 4000 100]].

Definition demo_line_bucket : SymbolBucket :=
  demo_bucket line (Some 16) size_constant [demo_lake].

(** A label whose text is the name of a property every object inherits. *)
Definition demo_constructor : SymbolFeature :=
  demo_feature (Some "constructor"%string) None LineString
    [[mkPoint 100 100; mkPoint 4000 100]].

(** A point with an icon and no text. *)
Definition demo_star : SymbolFeature :=
  demo_feature None (Some "star"%string) GPoint [[mkPoint 10 10]].

Definition demo_point_bucket : SymbolBucket :=
  demo_bucket point (Some 16) size_constant [demo_star].

Definition demo_unshaped : ShapedTextOrientations :=
  {| shaped_horizontal := None; shaped_vertical := None |}.

End Demo.

(** * Collision debug drawing: the renderer [drawCollisionDebug] *)

Module CollisionDebug.

(** The types of the renderer's collaborators. *)
Class ExternalTypes : Type := {
  (** a 4x4 matrix of gl-matrix *)
  Mat : Type;
  Projection : Type;
  OverscaledTileID : Type;
  Tile : Type;
  SourceCache : Type;
  StyleLayer : Type;
  Transform : Type;
  (** [bucket.textCollisionBox] and [bucket.iconCollisionBox] *)
  CollisionBuffers : Type
}.

Section Data.
Context {T : ExternalTypes}.

(** The fields of a symbol bucket the renderer reads. *)
Record SymbolBucket : Type := {
  textCollisionBox : option CollisionBuffers;
  iconCollisionBox : option CollisionBuffers;
  (** four numbers per circle: x, y, radius, collision state *)
  collisionCircleArray : list Q;
  placementInvProjMatrix : Mat;
  placementViewportMatrix : Mat;
  getProjection : Projection
}.

Record Painter : Type := {
  transform : Transform;
  (** whether [painter.terrain] is set *)
  terrain : bool
}.

Inductive TranslateAnchor : Type := anchor_map | anchor_viewport.

Record TileBatch : Type := {
  circleArray : list Q;
  circleOffset : Q;
  batch_transform : Mat;
  invTransform : Mat;
  projection : Projection
}.

(** [SegmentVector.simpleSegment(vertexOffset, primitiveOffset,
    vertexLength, primitiveLength)] *)
Record Segment : Type := {
  vertexOffset : Q;
  primitiveOffset : Q;
  vertexLength : Q;
  primitiveLength : Q
}.

(** The arguments of one [vertexData.emplace(i, x, y, radius, collision,
    corner)]; a value read past the end of the circle array is
    [undefined]. *)
Record Vertex : Type := {
  vertex_x : jsnum;
  vertex_y : jsnum;
  vertex_radius : jsnum;
  vertex_collision : jsnum;
  vertex_corner : Z
}.

(** A [CollisionCircleLayoutArray]: the length [resize] gave it and the
    [emplace] calls made on it, each with its index, in order. *)
Record CollisionCircleLayoutArray : Type := {
  vertexData_length : Q;
  emplaced : list (Z * Vertex)
}.

(** A [QuadTriangleArray]: the length [resize] gave it and the stores
    [array.uint32[index] = value] made on it, in order. *)
Record QuadTriangleArray : Type := {
  quad_length : Q;
  uint32_stores : list (Z * Z)
}.

Inductive Primitive : Type := LINES | TRIANGLES.

(** What the renderer asks of the GL context and of its programs. *)
Inductive Event : Type :=
| EvGetOrCreateProgram (name : string)
| EvSetupElevationDraw (tile : Tile)
| EvDrawBoxes (mode : Primitive) (posMatrix : Mat) (tile : Tile)
    (projection : Projection) (buffers : CollisionBuffers)
| EvCreateIndexBuffer (array : QuadTriangleArray)
| EvCreateVertexBuffer (array : CollisionCircleLayoutArray)
| EvDrawCircles (mode : Primitive) (transform invTransform : Mat)
    (projection : Projection) (segment : Segment)
| EvDestroyVertexBuffer
| EvDestroyIndexBuffer.

End Data.

Class Externals {T : ExternalTypes} : Type := {
  (** [sourceCache.getTile(coord)] and [tile.getBucket(layer)] *)
  getTile : SourceCache -> OverscaledTileID -> Tile;
  getBucket : Tile -> StyleLayer -> option SymbolBucket;
  getCollisionDebugTileProjectionMatrix :
    OverscaledTileID -> SymbolBucket -> Transform -> Mat;
  (** [painter.translatePosMatrix] *)
  translatePosMatrix :
    Painter -> Mat -> Tile -> Q * Q -> TranslateAnchor -> Mat;
  (** [tr.glCoordMatrix] *)
  glCoordMatrix : Transform -> Mat;
  (** [mat4.mul(out, a, b)], as the matrix it leaves in [out] *)
  mat4_mul : Mat -> Mat -> Mat
}.

Section Draw.
Context {T : ExternalTypes} {E : Externals}.

(** [array.length] of a JavaScript array, as a number. *)
Definition js_length {A} (l : list A) : Q := inject_Z (Z.of_nat (length l)).

(** The number of rounds of [for (let i = 0; i < bound; i++)]. *)
Definition rounds (bound : Q) : nat := Z.to_nat (Qceiling bound).

(** [createQuadTriangles] *)
Definition createQuadTriangles (quadCount : Q) : QuadTriangleArray :=
  let triCount := quadCount * 2 in
  (* Two triangles and 4 vertices per quad. *)
  {| quad_length := triCount;
     uint32_stores :=
       flat_map (fun n : nat =>
                   let i := Z.of_nat n in
                   let idx := (i * 6)%Z in
                   [ ((idx + 0)%Z, (i * 4 + 0)%Z);
                     ((idx + 1)%Z, (i * 4 + 1)%Z);
                     ((idx + 2)%Z, (i * 4 + 2)%Z);
                     ((idx + 3)%Z, (i * 4 + 2)%Z);
                     ((idx + 4)%Z, (i * 4 + 3)%Z);
                     ((idx + 5)%Z, (i * 4 + 0)%Z) ])
                (seq 0 (rounds triCount)) |}.

(** What the loop over [coords] carries from tile to tile. *)
Record Visit : Type := {
  tileBatches : list TileBatch;
  circleCount : Q;
  visit_circleOffset : Q;
  visit_log : list Event
}.

(** One round of the loop over [coords]. *)
Definition visitTile (painter : Painter) (sourceCache : SourceCache)
    (layer : StyleLayer) (translate : Q * Q)
    (translateAnchor : TranslateAnchor) (isText : bool)
    (v : Visit) (coord : OverscaledTileID) : Visit :=
  let tr := transform painter in
  let tile := getTile sourceCache coord in
  match getBucket tile layer with
  | None => v
  | Some bucket =>
      let tileMatrix :=
        getCollisionDebugTileProjectionMatrix coord bucket tr in
      let posMatrix :=
        if negb (Qeq_bool (fst translate) 0) || negb (Qeq_bool (snd translate) 0)
        then translatePosMatrix painter tileMatrix tile translate
                                translateAnchor
        else tileMatrix in
      let buffers :=
        if isText then textCollisionBox bucket else iconCollisionBox bucket in
      (* Get collision circle data of this bucket *)
      let circleArray := collisionCircleArray bucket in
      let v1 :=
        if (0 <? length circleArray)%nat then
          let invTransform :=
            mat4_mul (mat4_mul (placementInvProjMatrix bucket)
                               (glCoordMatrix tr))
                     (placementViewportMatrix bucket) in
          let circleCount' := circleCount v + js_length circleArray / 4 in
          {| tileBatches :=
               tileBatches v
                 ++ [{| circleArray := circleArray;
                        circleOffset := visit_circleOffset v;
                        batch_transform := posMatrix;
                        invTransform := invTransform;
                        projection := getProjection bucket |}];
             circleCount := circleCount';
             visit_circleOffset := circleCount';
             visit_log := visit_log v |}
        else v in
      match buffers with
      | None => v1
      | Some buffers =>
          {| tileBatches := tileBatches v1;
             circleCount := circleCount v1;
             visit_circleOffset := visit_circleOffset v1;
             visit_log :=
               visit_log v1
                 ++ (if terrain painter then [EvSetupElevationDraw tile]
                     else [])
                 ++ [EvDrawBoxes LINES posMatrix tile (getProjection bucket)
                                 buffers] |}
      end
  end.

(** The four [emplace] calls for circle [i] of a batch, from the running
    [vertexOffset]. *)
Definition emplaceCircle (circleArray : list Q)
    (acc : Z * list (Z * Vertex)) (i : nat) : Z * list (Z * Vertex) :=
  let circleIdx := (i * 4)%nat in
  let x := circleArray !! (circleIdx + 0)%nat in
  let y := circleArray !! (circleIdx + 1)%nat in
  let radius := circleArray !! (circleIdx + 2)%nat in
  let collision := circleArray !! (circleIdx + 3)%nat in
  let vertex (corner : Z) :=
    {| vertex_x := x; vertex_y := y; vertex_radius := radius;
       vertex_collision := collision; vertex_corner := corner |} in
  let vertexOffset := fst acc in
  ((vertexOffset + 4)%Z,
   snd acc ++ [ (vertexOffset, vertex 0%Z);
                ((vertexOffset + 1)%Z, vertex 1%Z);
                ((vertexOffset + 2)%Z, vertex 2%Z);
                ((vertexOffset + 3)%Z, vertex 3%Z) ]).

Definition emplaceBatch (acc : Z * list (Z * Vertex)) (batch : TileBatch)
  : Z * list (Z * Vertex) :=
  fold_left (emplaceCircle (circleArray batch))
            (seq 0 (rounds (js_length (circleArray batch) / 4)))
            acc.

(** The draw call of one batch. *)
Definition drawBatch (batch : TileBatch) : Event :=
  EvDrawCircles TRIANGLES (batch_transform batch) (invTransform batch)
    (projection batch)
    {| vertexOffset := 0;
       primitiveOffset := circleOffset batch * 2;
       vertexLength := js_length (circleArray batch);
       primitiveLength := js_length (circleArray batch) / 2 |}.

(** The loop over [coords], from the state [getOrCreateProgram] leaves. *)
Definition visitTiles (painter : Painter) (sourceCache : SourceCache)
    (layer : StyleLayer) (coords : list OverscaledTileID)
    (translate : Q * Q) (translateAnchor : TranslateAnchor) (isText : bool)
  : Visit :=
  fold_left (visitTile painter sourceCache layer translate translateAnchor
                       isText)
            coords
            {| tileBatches := []; circleCount := 0;
               visit_circleOffset := 0;
               visit_log := [EvGetOrCreateProgram "collisionBox"] |}.

(** The vertex data of the circles: resized to four vertices per circle,
    then filled batch by batch. *)
Definition circleVertexData (tileBatches : list TileBatch) (circleCount : Q)
  : CollisionCircleLayoutArray :=
  {| vertexData_length := circleCount * 4;
     emplaced := snd (fold_left emplaceBatch tileBatches (0%Z, [])) |}.

(** [drawCollisionDebug].  The module-level variable [quadTriangles] is
    passed in and handed back; the second component is what the call asked
    of the GL context, in order. *)
Definition drawCollisionDebug (painter : Painter) (sourceCache : SourceCache)
    (layer : StyleLayer) (coords : list OverscaledTileID)
    (translate : Q * Q) (translateAnchor : TranslateAnchor) (isText : bool)
    (quadTriangles : option QuadTriangleArray)
  : option QuadTriangleArray * list Event :=
  let v := visitTiles painter sourceCache layer coords translate
                      translateAnchor isText in
  if negb isText || (length (tileBatches v) =? 0)%nat then
    (quadTriangles, visit_log v)
  else
    (* Render collision circles *)
    let circleCount := circleCount v in
    (* Construct vertex data *)
    let vertexData := circleVertexData (tileBatches v) circleCount in
    let quadTriangles' :=
      match quadTriangles with
      | None => createQuadTriangles circleCount
      | Some q =>
          if Qltb (quad_length q) (circleCount * 2)
          then createQuadTriangles circleCount
          else q
      end in
    (Some quadTriangles',
     visit_log v
       ++ [EvGetOrCreateProgram "collisionCircle";
           EvCreateIndexBuffer quadTriangles';
           EvCreateVertexBuffer vertexData]
       (* Render batches *)
       ++ map drawBatch (tileBatches v)
       ++ [EvDestroyVertexBuffer; EvDestroyIndexBuffer]).

(** Successive frames: each call starts from the [quadTriangles] the one
    before left. *)
Record Frame : Type := {
  frame_painter : Painter;
  frame_sourceCache : SourceCache;
  frame_layer : StyleLayer;
  frame_coords : list OverscaledTileID;
  frame_translate : Q * Q;
  frame_translateAnchor : TranslateAnchor;
  frame_isText : bool
}.

Definition drawFrame (f : Frame) (quadTriangles : option QuadTriangleArray)
  : option QuadTriangleArray * list Event :=
  drawCollisionDebug (frame_painter f) (frame_sourceCache f) (frame_layer f)
    (frame_coords f) (frame_translate f) (frame_translateAnchor f)
    (frame_isText f) quadTriangles.

Definition drawFrames (fs : list Frame)
    (quadTriangles : option QuadTriangleArray) : option QuadTriangleArray :=
  fold_left (fun q f => fst (drawFrame f q)) fs quadTriangles.

End Draw.

End CollisionDebug.


(** ** A small instance to run the renderer on *)

Module DebugDemo.
Import CollisionDebug.

#[export] Instance demo_types : ExternalTypes := {|
  Mat := unit;
  Projection := unit;
  OverscaledTileID := nat;
  Tile := nat;
  SourceCache := unit;
  StyleLayer := unit;
  Transform := unit;
  CollisionBuffers := bool
|}.

(** Tile 0 has two circles and both kinds of boxes, tile 2 has one circle
    and no boxes, and the other tiles have no bucket for the layer. *)
Definition demo_bucket (tile : nat) : option SymbolBucket :=
  match tile with
  | 0%nat =>
      Some {| textCollisionBox := Some true; iconCollisionBox := Some false;
              collisionCircleArray := [10; 20; 5; 0; 30; 40; 5; 1];
              placementInvProjMatrix := tt; placementViewportMatrix := tt;
              getProjection := tt |}
  | 2%nat =>
      Some {| textCollisionBox := None; iconCollisionBox := None;
              collisionCircleArray := [50; 60; 7; 0];
              placementInvProjMatrix := tt; placementViewportMatrix := tt;
              getProjection := tt |}
  | _ => None
  end.

#[export] Instance demo : @Externals demo_types := {|
  getTile := fun _ coord => coord;
  getBucket := fun tile _ => demo_bucket tile;
  getCollisionDebugTileProjectionMatrix := fun _ _ _ => tt;
  translatePosMatrix := fun _ _ _ _ _ => tt;
  glCoordMatrix := fun _ => tt;
  mat4_mul := fun _ _ => tt
|}.

Definition demo_painter : Painter := {| transform := tt; terrain := false |}.

(** A call on the tiles [coords]. *)
Definition demo_draw (coords : list nat) (isText : bool)
    (quadTriangles : option QuadTriangleArray)
  : option QuadTriangleArray * list Event :=
  drawCollisionDebug demo_painter tt tt coords (0, 0) anchor_map isText
    quadTriangles.

Definition demo_frame (coords : list nat) (isText : bool) : Frame :=
  {| frame_painter := demo_painter; frame_sourceCache := tt;
     frame_layer := tt; frame_coords := coords; frame_translate := (0, 0);
     frame_translateAnchor := anchor_map; frame_isText := isText |}.

End DebugDemo.
(** * Vocabulary of the statements about the symbol layout *)

Module LayoutVocabulary.
Import SymbolLayout.

Section Vocabulary.
Context {T : ExternalTypes} {E : Externals}.

(** ** Reading the log *)

(** The anchors offered to [addSymbolAtAnchor], with their lines. *)
Definition candidates (l : list Event) : list (list Point * Anchor) :=
  flat_map (fun e => match e with
                     | EvAddSymbolAtAnchor ln a => [(ln, a)]
                     | _ => []
                     end) l.

(** The calls of [addSymbol]; each builds one symbol instance. *)
Definition addSymbol_calls (l : list Event) : list AddSymbolCall :=
  flat_map (fun e => match e with
                     | EvAddSymbol c => [c]
                     | _ => []
                     end) l.

(** The horizontal text string a symbol instance is built for. *)
Definition call_text (c : AddSymbolCall) : option string :=
  option_map shaping_text (shaped_horizontal (call_shapedText c)).

(** The writing modes [shapeText] was called with. *)
Definition shape_modes (l : list Event) : list WritingMode :=
  flat_map (fun e => match e with
                     | EvShapeText a => [st_writingMode a]
                     | _ => []
                     end) l.

(** The arguments the [CollisionFeature] constructor received. *)
Definition collisionFeatures (l : list Event) : list CollisionFeatureArgs :=
  flat_map (fun e => match e with
                     | EvCollisionFeature a => [a]
                     | _ => []
                     end) l.

(** The box scales [getAnchors] and [getCenterAnchor] received. *)
Definition anchor_boxScales (l : list Event) : list jsnum :=
  flat_map (fun e => match e with
                     | EvGetAnchors a => [ga_boxScale a]
                     | EvGetCenterAnchor a => [gc_boxScale a]
                     | _ => []
                     end) l.

(** The warnings of [warnOnce]. *)
Definition warnings (l : list Event) : list Warning :=
  flat_map (fun e => match e with
                     | EvWarnOnce w => [w]
                     | _ => []
                     end) l.

(** ** Conditions *)

(** [anchor.x] and [anchor.y] both lie in [0, EXTENT). *)
Definition inside_tile (a : Anchor) : bool :=
  negb (Qltb (anchor_x a) 0 || Qle_bool EXTENT (anchor_x a)
        || Qltb (anchor_y a) 0 || Qle_bool EXTENT (anchor_y a)).

(** A composite size function comes with its two evaluators. *)
Definition composite_ready (sd : SizeData)
    (cs : option (PropertyValue jsnum * PropertyValue jsnum)) : bool :=
  match sd, cs with
  | size_composite _ _, None => false
  | _, _ => true
  end.

Definition sizes_cover (b : SymbolBucket) (sizes : Sizes) : bool :=
  composite_ready (textSizeData b) (compositeTextSizes sizes)
  && composite_ready (iconSizeData b) (compositeIconSizes sizes).

(** The unformatted text of [performSymbolLayout]. *)
Definition unformatted (t : TextValue) : string :=
  match t with
  | TFormatted f => formatted_toString f
  | TString s => s
  end.

(** Whether the layout makes the text follow the line. *)
Definition textAlongLine_of (layout : Layout) : bool :=
  Alignment_eqb (text_rotation_alignment layout) align_map
  && negb (Placement_eqb (symbol_placement layout) point).

(** ** Quantities fixed for a pass over a bucket *)

Definition tilePixelRatio_of (b : SymbolBucket) : Q :=
  EXTENT / (512 * overscaling b).

(** The text size meant to be the same at all zoom levels: the size at
    zoom 18 or, where that is undefined, the size at the bucket's zoom plus
    one. *)
Definition textMaxSize_of (b : SymbolBucket) (f : SymbolFeature) : jsnum :=
  match evaluate (unevaluated_text_size (layers_0 b) 18) f with
  | Some v => Some v
  | None => evaluate (unevaluated_text_size (layers_0 b) (zoom b + 1)) f
  end.

Definition textMaxBoxScale_of (b : SymbolBucket) (f : SymbolFeature) : jsnum :=
  jsdiv (jsmul (Some (tilePixelRatio_of b)) (textMaxSize_of b f)) (Some 24).

Definition symbolMinDistance_of (b : SymbolBucket) : Q :=
  tilePixelRatio_of b * symbol_spacing (layout (layers_0 b)).

(** ** Effects of the parts of the pass *)

(** [log_ext P l l']: [l'] is [l] followed by events that satisfy [P]. *)
Definition log_ext (P : Event -> Prop) (l l' : list Event) : Prop :=
  exists evs, l' = l ++ evs /\ Forall P evs.

(** The events below an [addSymbol] call.  An icon's collision feature is
    never aligned to the line. *)
Definition leaf_event (e : Event) : Prop :=
  match e with
  | EvWarnOnce _ | EvAddSymbols _ => True
  | EvCollisionFeature a =>
      match cf_shaped a with
      | inl _ => True
      | inr _ => cf_alignLine a = false
      end
  | _ => False
  end.

Definition with_storage (b : SymbolBucket) (A : Arrays) (C : list Box)
  : SymbolBucket :=
  set_arrays A (set_collisionBoxArray C b).

(** [b'] is [b] but for its arrays and its collision boxes. *)
Definition same_frame (b b' : SymbolBucket) : Prop :=
  b' = with_storage b (arrays b') (collisionBoxArray b').

Definition leaf_step (s s' : State) : Prop :=
  same_frame (bucket s) (bucket s')
  /\ log_ext leaf_event (log s) (log s').

Definition call_step (c : AddSymbolCall) (s s' : State) : Prop :=
  same_frame (bucket s) (bucket s')
  /\ log_ext leaf_event (log s ++ [EvAddSymbol c]) (log s').

(** The symbol instance [inst] is the one the call [c] of [addSymbol]
    returns: at the call's anchor, keyed by the hash of its horizontal text
    (of the empty string when there is none). *)
Definition built_by (c : AddSymbolCall) (inst : SymbolInstance) : Prop :=
  anchor inst = call_anchor c
  /\ key inst = murmur3 (default ""%string (call_text c)).

(** What offering an anchor to [addSymbolAtAnchor] does when no exception
    is raised: outside of the tile only the log grows; inside, one symbol
    instance for the anchor is pushed. *)
Definition offered (ln : list Point) (c : AddSymbolCall) (s s' : State)
  : Prop :=
  if inside_tile (call_anchor c) then
    exists inst A C,
      built_by c inst
      /\ bucket s' =
           set_symbolInstances (symbolInstances (bucket s) ++ [inst])
                               (with_storage (bucket s) A C)
      /\ log_ext leaf_event
           (log s ++ [EvAddSymbolAtAnchor ln (call_anchor c); EvAddSymbol c])
           (log s')
  else
    s' = mkState (bucket s)
                 (log s ++ [EvAddSymbolAtAnchor ln (call_anchor c)]).

(** What [anchorIsTooClose] does when it answers [false]: the anchor is at
    least [repeatDistance] from every anchor recorded for the text, and is
    recorded after them. *)
Definition recorded (text : string) (repeatDistance : Q) (a : Anchor)
    (s s' : State) : Prop :=
  let others := default [] (compareText (bucket s) !! text) in
  (forall other, In other others -> ~ dist a other < repeatDistance)
  /\ s' = mkState (set_compareText
                     (<[text := others ++ [a]]> (compareText (bucket s)))
                     (bucket s))
                  (log s).

(** The steps the layout of one feature is made of, in a pass over the
    bucket [b0], once its text is shaped. *)
Inductive fstep (b0 : SymbolBucket) : State -> State -> Prop :=
| fstep_warn s :
    fstep b0 s (mkState (bucket s) (log s ++ [EvWarnOnce MixedSdfIcons]))
| fstep_sdfIcons s v :
    fstep b0 s (mkState (set_sdfIcons v (bucket s)) (log s))
| fstep_iconsNeedLinear s :
    fstep b0 s (mkState (set_iconsNeedLinear true (bucket s)) (log s))
| fstep_getAnchors s f a :
    In f (features b0) ->
    ga_boxScale a = textMaxBoxScale_of b0 f ->
    fstep b0 s (mkState (bucket s) (log s ++ [EvGetAnchors a]))
| fstep_getCenterAnchor s f a :
    In f (features b0) ->
    gc_boxScale a = textMaxBoxScale_of b0 f ->
    fstep b0 s (mkState (bucket s) (log s ++ [EvGetCenterAnchor a]))
| fstep_offer s s' ln c :
    (symbol_placement (layout (layers_0 b0)) = SymbolLayout.line ->
     call_text c = None) ->
    offered ln c s s' ->
    fstep b0 s s'
| fstep_record_offer s s1 s' text ln c :
    symbol_placement (layout (layers_0 b0)) = SymbolLayout.line ->
    call_text c = Some text ->
    recorded text (symbolMinDistance_of b0 / 2) (call_anchor c) s s1 ->
    offered ln c s1 s' ->
    fstep b0 s s'.

(** The steps of the pass once the bucket is reset: shaping a text, the
    steps of the layout of a feature, and the debug buffers at the end. *)
Inductive step (b0 : SymbolBucket) : State -> State -> Prop :=
| step_shapeText s a :
    step b0 s (mkState (bucket s) (log s ++ [EvShapeText a]))
| step_feature s s' :
    fstep b0 s s' -> step b0 s s'
| step_generateCollisionDebugBuffers s A :
    step b0 s (mkState (set_arrays A (bucket s))
                       (log s ++ [EvGenerateCollisionDebugBuffers])).

(** The writing modes [performSymbolLayout] shapes the text of a feature
    in: the horizontal one for every feature with text; the vertical one as
    well when the script of the text allows it, the text follows the line
    and is kept upright. *)
Definition shapings (b : SymbolBucket) (f : SymbolFeature)
  : list WritingMode :=
  match truthy_text (text f) with
  | None => []
  | Some t =>
      horizontal
        :: (if allowsVerticalWritingMode (unformatted t)
               && textAlongLine_of (layout (layers_0 b))
               && text_keep_upright (layout (layers_0 b))
            then [vertical] else [])
  end.

(** The bucket of [s] is [b0] after the resets at the head of the pass, up
    to the fields the loop over the features writes. *)
Definition rebuild (b0 : SymbolBucket) (b : SymbolBucket) : SymbolBucket :=
  {| overscaling := overscaling b0; zoom := zoom b0;
     pixelRatio := pixelRatio b0; bucket_index := bucket_index b0;
     layerIds := layerIds b0; layers_0 := layers_0 b0;
     features := features b0; textSizeData := textSizeData b0;
     iconSizeData := iconSizeData b0;
     symbolInstances := symbolInstances b;
     tilePixelRatio := tilePixelRatio_of b0;
     compareText := compareText b;
     iconsNeedLinear := iconsNeedLinear b; sdfIcons := sdfIcons b;
     collisionBoxArray := collisionBoxArray b; arrays := arrays b |}.

Definition within (b0 : SymbolBucket) (s : State) : Prop :=
  bucket s = rebuild b0 (bucket s).

(** The bucket as the head of [performSymbolLayout] leaves it. *)
Definition reset (b : SymbolBucket) : SymbolBucket :=
  set_iconsNeedLinear false
    (set_compareText ∅
       (set_tilePixelRatio (EXTENT / (512 * overscaling b))
          (set_symbolInstances []
             (set_arrays (createArrays (arrays b)) b)))).

(** An icon's collision feature is not aligned to the line. *)
Definition icon_box_unaligned (a : CollisionFeatureArgs) : Prop :=
  match cf_shaped a with
  | inl _ => True
  | inr _ => cf_alignLine a = false
  end.

(** The box scale handed to the anchor search is that of one of the
    bucket's features. *)
Definition max_box_scale (b : SymbolBucket) (scale : jsnum) : Prop :=
  exists f, In f (features b) /\ scale = textMaxBoxScale_of b f.

(** What every event of a pass over [b] satisfies. *)
Definition pass_event (b : SymbolBucket) (e : Event) : Prop :=
  match e with
  | EvCollisionFeature a => icon_box_unaligned a
  | EvGetAnchors a => max_box_scale b (ga_boxScale a)
  | EvGetCenterAnchor a => max_box_scale b (gc_boxScale a)
  | _ => True
  end.

(** Two buckets are the same snapshot for a pass when they agree on all
    but the fields the head of the pass overwrites. *)
Definition same_snapshot (b1 b2 : SymbolBucket) : Prop :=
  set_symbolInstances []
    (set_tilePixelRatio 0 (set_compareText ∅ (set_iconsNeedLinear false b1)))
  = set_symbolInstances []
      (set_tilePixelRatio 0 (set_compareText ∅ (set_iconsNeedLinear false b2))).

(** ** Distances between the anchors of symbol instances *)

(** Of two calls of [addSymbol] for the same horizontal text, the later
    one is not closer than [d] to the earlier one. *)
Definition far_apart (d : Q) (calls : list AddSymbolCall) : Prop :=
  forall (i j : nat) c1 c2 t,
    (i < j)%nat ->
    calls !! i = Some c1 -> calls !! j = Some c2 ->
    call_text c1 = Some t -> call_text c2 = Some t ->
    ~ dist (call_anchor c2) (call_anchor c1) < d.

(** The anchor of every call for a text is recorded under that text. *)
Definition calls_recorded (s : State) : Prop :=
  forall c t,
    In c (addSymbol_calls (log s)) -> call_text c = Some t ->
    In (call_anchor c) (default [] (compareText (bucket s) !! t)).

(** The symbol instances of the bucket are those the calls built, in
    order. *)
Definition instances_built (s : State) : Prop :=
  Forall2 built_by (addSymbol_calls (log s)) (symbolInstances (bucket s)).

(** ** Steps of a pass *)

(** [s] is reached from [s0] by steps of a feature's layout, and still has
    the layer and the size data of [b0]. *)
Definition reaches (b0 : SymbolBucket) (s0 s : State) : Prop :=
  rtc (fstep b0) s0 s /\ within b0 s.

(** Shaping comes first; what follows are steps of the feature's layout. *)
Definition shaped_reaches (b0 : SymbolBucket) (f : SymbolFeature)
    (s s' : State) : Prop :=
  exists args,
    map st_writingMode args = shapings b0 f
    /\ reaches b0 (mkState (bucket s) (log s ++ map EvShapeText args)) s'.

(** What a pass has done when it ends, normally or by an exception. *)
Definition pass_done (b : SymbolBucket) (k : nat) (s' : State) : Prop :=
  rtc (step b) (mkState (reset b) []) s'
  /\ within b s'
  /\ shape_modes (log s') = flat_map (shapings b) (firstn k (features b)).

(** Symbol instances are only pushed for anchors inside the tile. *)
Definition instances_inside (s : State) : Prop :=
  Forall (fun i => inside_tile (anchor i) = true)
         (symbolInstances (bucket s)).

(** The three facts that hold all along a pass with line placement. *)
Definition repeat_invariant (d : Q) (s : State) : Prop :=
  far_apart d (addSymbol_calls (log s))
  /\ calls_recorded s
  /\ instances_built s.

(** ** Box scales of the anchor searches *)

(** The number of anchor searches the layout of a feature makes when it
    returns: one for each clipped line with line placement, one for each
    line of two points or more with line-center placement, none with point
    placement. *)
Definition searches (b : SymbolBucket) (f : SymbolFeature) : nat :=
  match symbol_placement (layout (layers_0 b)) with
  | SymbolLayout.line => length (clipLine (geometry f) 0 0 EXTENT EXTENT)
  | line_center =>
      length (List.filter (fun ln => (1 <? length ln)%nat) (geometry f))
  | point => 0
  end.

(** [s'] comes after [s0] in a pass over [b], and the anchor searches
    logged in between are [n], each with the box scale [scale]. *)
Definition scaled (b : SymbolBucket) (scale : jsnum) (n : nat)
    (s0 s' : State) : Prop :=
  within b s'
  /\ exists evs,
       log s' = log s0 ++ evs /\ anchor_boxScales evs = repeat scale n.

End Vocabulary.

End LayoutVocabulary.

(** * Vocabulary of the statements about the collision debug drawing *)

Module DebugVocabulary.
Import CollisionDebug.

Section Vocabulary.
Context {T : ExternalTypes} {E : Externals}.

(** The vertex for the corner [corner] of circle [i] of a circle array. *)
Definition circle_vertex (arr : list Q) (i : nat) (corner : Z) : Vertex :=
  {| vertex_x := arr !! (i * 4 + 0)%nat;
     vertex_y := arr !! (i * 4 + 1)%nat;
     vertex_radius := arr !! (i * 4 + 2)%nat;
     vertex_collision := arr !! (i * 4 + 3)%nat;
     vertex_corner := corner |}.

(** The circles of a frame, in the order they are visited: each with its
    array and its index in the array. *)
Definition circles_of (batches : list TileBatch) : list (list Q * nat) :=
  flat_map (fun b =>
              map (fun i => (circleArray b, i))
                  (seq 0 (rounds (js_length (circleArray b) / 4))))
           batches.

(** The four vertices of the circle that is the [j]-th of the frame, at the
    indices 4j to 4j + 3. *)
Definition quad_of_circle (j : nat) (c : list Q * nat) : list (Z * Vertex) :=
  let base := (Z.of_nat j * 4)%Z in
  [ (base, circle_vertex (fst c) (snd c) 0%Z);
    ((base + 1)%Z, circle_vertex (fst c) (snd c) 1%Z);
    ((base + 2)%Z, circle_vertex (fst c) (snd c) 2%Z);
    ((base + 3)%Z, circle_vertex (fst c) (snd c) 3%Z) ].


(** Whether a call goes on to draw circles. *)
Definition draws_circles (isText : bool) (v : Visit) : bool :=
  isText && negb (length (tileBatches v) =? 0)%nat.

(** The triangles a batch draws lie within [n] triangles. *)
Definition batch_covered (n : Q) (b : TileBatch) : Prop :=
  circleOffset b * 2 + js_length (circleArray b) / 2 <= n.

(** The batches of a visit lie within the circles counted so far. *)
Definition visit_covered (v : Visit) : Prop :=
  visit_circleOffset v == circleCount v
  /\ 0 <= circleCount v
  /\ Forall (batch_covered (circleCount v * 2)) (tileBatches v).

(** The running state of the vertex loop after the circles [cs]. *)
Definition emplaced_after (cs : list (list Q * nat)) : Z * list (Z * Vertex) :=
  ((Z.of_nat (length cs) * 4)%Z, concat (imap quad_of_circle cs)).

End Vocabulary.

End DebugVocabulary.

(** * Readings of the symbol layout *)

Module LayoutReadings.
Import SymbolLayout LayoutVocabulary.

Section Readings.
Context {T : ExternalTypes} {E : Externals}.

(** The calls of [bucket.addSymbols]. *)
Definition addSymbols_calls (l : list Event) : list AddSymbolsArgs :=
  flat_map (fun e => match e with
                     | EvAddSymbols a => [a]
                     | _ => []
                     end) l.

(** The buffers and the writing mode of a call of [bucket.addSymbols]. *)
Definition vertex_call (a : AddSymbolsArgs)
  : SymbolBuffers * option WritingMode :=
  (as_arrays a, as_writingMode a).

(** The layer ids of the size warnings for text-size and for icon-size. *)
Definition text_size_warnings (l : list Event) : list (option string) :=
  flat_map (fun e => match e with
                     | EvWarnOnce (SizeTooLarge id prop_text_size) => [id]
                     | _ => []
                     end) l.

Definition icon_size_warnings (l : list Event) : list (option string) :=
  flat_map (fun e => match e with
                     | EvWarnOnce (SizeTooLarge id prop_icon_size) => [id]
                     | _ => []
                     end) l.

(** The number of warnings about too many glyphs. *)
Definition glyph_warnings (l : list Event) : nat :=
  length (flat_map (fun e => match e with
                             | EvWarnOnce TooManyGlyphs => [tt]
                             | _ => []
                             end) l).

(** The boxes of the collision features built for texts, and of those
    built for icons. *)
Definition text_boxes (l : list Event) : list Box :=
  flat_map (fun a => match cf_shaped a with
                     | inl _ => collisionFeatureBoxes a
                     | inr _ => []
                     end) (collisionFeatures l).

Definition icon_boxes (l : list Event) : list Box :=
  flat_map (fun a => match cf_shaped a with
                     | inl _ => []
                     | inr _ => collisionFeatureBoxes a
                     end) (collisionFeatures l).

(** The calls of [getAnchors] and of [getCenterAnchor]. *)
Definition getAnchors_calls (l : list Event) : list GetAnchorsArgs :=
  flat_map (fun e => match e with
                     | EvGetAnchors a => [a]
                     | _ => []
                     end) l.

Definition getCenterAnchor_calls (l : list Event)
  : list GetCenterAnchorArgs :=
  flat_map (fun e => match e with
                     | EvGetCenterAnchor a => [a]
                     | _ => []
                     end) l.

(** The anchor at the first point of a line, with the line; none for a
    line without points. *)
Definition first_point_anchor (ln : list Point)
  : list (list Point * Anchor) :=
  match ln with
  | p :: _ => [(ln, newAnchor (px p) (py p) 0)]
  | [] => []
  end.

(** The anchor at the pole of inaccessibility of a polygon, with the
    polygon's first ring. *)
Definition pole_anchor (polygon : list (list Point))
  : list Point * Anchor :=
  let poi := findPoleOfInaccessibility polygon 16 in
  (hd [] polygon, newAnchor (px poi) (py poi) 0).

(** From [s] to [s'] the log has grown by events that hold the offers
    [cs], the anchor searches [gas] and the center searches [gcs]; the
    anchors recorded for the texts are the same, and the size data still
    come with the evaluators they need. *)
Definition grown (sizes : Sizes) (s s' : State)
    (cs : list (list Point * Anchor)) (gas : list GetAnchorsArgs)
    (gcs : list GetCenterAnchorArgs) : Prop :=
  exists evs,
    log s' = log s ++ evs
    /\ candidates evs = cs
    /\ getAnchors_calls evs = gas
    /\ getCenterAnchor_calls evs = gcs
    /\ compareText (bucket s') = compareText (bucket s)
    /\ sizes_cover (bucket s') sizes = sizes_cover (bucket s) sizes.

(** The center anchor a search found, with the line searched. *)
Definition found_center (a : GetCenterAnchorArgs)
  : list (list Point * Anchor) :=
  match getCenterAnchor a with
  | Some anchor => [(gc_line a, anchor)]
  | None => []
  end.

(** The anchors a search found, each with the line searched. *)
Definition found_anchors (a : GetAnchorsArgs)
  : list (list Point * Anchor) :=
  map (fun anchor => (ga_line a, anchor)) (getAnchors a).

(** The image of the feature's icon, when the feature names an icon and
    the image map has it. *)
Definition icon_image (imageMap : string -> option StyleImage)
    (f : SymbolFeature) : option StyleImage :=
  match truthy_icon (icon f) with
  | Some name => imageMap name
  | None => None
  end.

(** A feature with nothing to lay out: no text, and no icon with an
    image. *)
Definition unlabelled (imageMap : string -> option StyleImage)
    (f : SymbolFeature) : Prop :=
  truthy_text (text f) = None /\ icon_image imageMap f = None.

(** The symbol instances are at the anchors offered inside the tile, in
    the order of the offers. *)
Definition instances_offered (s : State) : Prop :=
  map anchor (symbolInstances (bucket s))
  = List.filter inside_tile (map snd (candidates (log s))).

(** The two flags the pass keeps about the icons of the bucket:
    [sdfIcons] and [iconsNeedLinear]. *)
Definition icon_flags (s : State) : option bool * bool :=
  (sdfIcons (bucket s), iconsNeedLinear (bucket s)).

(** An icon image that makes the icons of the bucket need linear
    interpolation: its pixel ratio is not the bucket's, or icon-rotate is
    not the constant 0. *)
Definition needs_linear (b0 : SymbolBucket) (image : StyleImage) : bool :=
  negb (Qeq_bool (image_pixelRatio image) (pixelRatio b0))
  || negb (Qeq_bool (constantOr (icon_rotate (layout (layers_0 b0))) 1) 0).

(** The flags after a feature: [sdfIcons] is set by the first icon image,
    [iconsNeedLinear] by any image that needs it. *)
Definition next_flags (b0 : SymbolBucket)
    (imageMap : string -> option StyleImage)
    (fl : option bool * bool) (f : SymbolFeature) : option bool * bool :=
  match icon_image imageMap f with
  | Some image =>
      (match fst fl with
       | None => Some (sdf image)
       | Some v => Some v
       end,
       if needs_linear b0 image then true else snd fl)
  | None => fl
  end.

(** What makes the layout of a feature raise an exception: a horizontal
    text whose string is an inherited property name, with symbol-placement
    line; a line without points in a LineString, with symbol-placement
    point. *)
Definition throws_for (b0 : SymbolBucket) (feature : SymbolFeature)
    (sto : ShapedTextOrientations) : Prop :=
  (symbol_placement (layout (layers_0 b0)) = line
   /\ exists h,
        shaped_horizontal sto = Some h
        /\ inherited (shaping_text h) = true)
  \/ (symbol_placement (layout (layers_0 b0)) = point
      /\ type feature = LineString
      /\ In [] (geometry feature)).

(** The same, for the shaping the pass gets for the text of the
    feature. *)
Definition feature_throws (b0 : SymbolBucket) (f : SymbolFeature) : Prop :=
  (symbol_placement (layout (layers_0 b0)) = line
   /\ exists a h,
        truthy_text (text f) = Some (st_text a)
        /\ shapeText a = Some h
        /\ inherited (shaping_text h) = true)
  \/ (symbol_placement (layout (layers_0 b0)) = point
      /\ type f = LineString
      /\ In [] (geometry f)).

(** The bucket of [s] is within the pass over [b0] and has the icon flags
    [fl]. *)
Definition framed (b0 : SymbolBucket) (fl : option bool * bool) (s : State)
  : Prop :=
  within b0 s /\ icon_flags s = fl.

(** The calls of [bucket.addSymbols] for icons. *)
Definition icon_calls (l : list Event) : list AddSymbolsArgs :=
  flat_map (fun a => match as_arrays a with
                     | buffers_icon => [a]
                     | buffers_text => []
                     end) (addSymbols_calls l).

(** The size data [addSymbol] packs for an icon, and whether a packed size
    is beyond the bound. *)
Definition packed_icon_sizes (b : SymbolBucket) (layer : SymbolStyleLayer)
    (sizes : Sizes) (feature : SymbolFeature) : option (list jsnum) :=
  match iconSizeData b, compositeIconSizes sizes with
  | size_source, _ =>
      Some [jsmul (Some SIZE_PACK_FACTOR)
                  (evaluate (icon_size (layout layer)) feature)]
  | size_composite _ _, Some (s0, s1) =>
      Some [jsmul (Some SIZE_PACK_FACTOR) (evaluate s0 feature);
            jsmul (Some SIZE_PACK_FACTOR) (evaluate s1 feature)]
  | _, _ => None
  end.

Definition beyond_bound (packed : option (list jsnum)) : bool :=
  match packed with
  | Some l => existsb (fun d => jsgt d MAX_PACKED_SIZE) l
  | None => false
  end.

(** The calls of [bucket.addSymbols] that [addSymbol] makes: for the
    horizontal text, for the vertical text when there is a horizontal one
    too, for the icon. *)
Definition expected_vertex_calls (sto : ShapedTextOrientations)
    (icon : option PositionedIcon)
  : list (SymbolBuffers * option WritingMode) :=
  match shaped_horizontal sto, shaped_vertical sto with
  | None, _ => []
  | Some _, None => [(buffers_text, Some horizontalOnly)]
  | Some _, Some _ =>
      [(buffers_text, Some horizontal); (buffers_text, Some vertical)]
  end
  ++ match icon with
     | Some _ => [(buffers_icon, None)]
     | None => []
     end.

End Readings.

End LayoutReadings.

(** * Readings of the collision debug drawing *)

Module DebugReadings.
Import CollisionDebug DebugVocabulary.

Section Readings.
Context {T : ExternalTypes} {E : Externals}.

(** The six index stores that draw quad [i] as two triangles over its
    vertices [4i .. 4i+3], sharing the diagonal from [4i] to [4i+2]. *)
Definition quad_indices (i : nat) : list (Z * Z) :=
  let k := Z.of_nat i in
  [ (6 * k, 4 * k); (6 * k + 1, 4 * k + 1); (6 * k + 2, 4 * k + 2);
    (6 * k + 3, 4 * k + 2); (6 * k + 4, 4 * k + 3); (6 * k + 5, 4 * k) ]%Z.

(** The circles of the batches [pre], as the source counts them: a quarter
    of the length of each circle array. *)
Definition circles_before (pre : list TileBatch) : Q :=
  fold_right (fun b acc => js_length (circleArray b) / 4 + acc) 0 pre.

(** The bucket of the tile at [coord], when the tile has one for the
    layer. *)
Definition bucket_at (sourceCache : SourceCache) (layer : StyleLayer)
    (coord : OverscaledTileID) : option SymbolBucket :=
  getBucket (getTile sourceCache coord) layer.

(** Every circle array of the layer holds whole circles: four numbers
    each. *)
Definition whole_circles (sourceCache : SourceCache) (layer : StyleLayer)
  : Prop :=
  forall coord bucket,
    bucket_at sourceCache layer coord = Some bucket ->
    exists n, length (collisionCircleArray bucket) = (4 * n)%nat.

(** All four numbers of a vertex were read inside the circle array. *)
Definition vertex_defined (v : Vertex) : Prop :=
  vertex_x v <> None /\ vertex_y v <> None
  /\ vertex_radius v <> None /\ vertex_collision v <> None.

(** The batch comes from a bucket of the layer. *)
Definition batch_of_layer (sourceCache : SourceCache) (layer : StyleLayer)
    (b : TileBatch) : Prop :=
  exists coord bucket,
    bucket_at sourceCache layer coord = Some bucket
    /\ circleArray b = collisionCircleArray bucket.

(** The counters of a visit agree with its batches: the circle count is
    the number of circles of the batches, the next offset is the circle
    count, and every batch starts where the batches before it end. *)
Definition offsets_run (v : Visit) : Prop :=
  circleCount v == circles_before (tileBatches v)
  /\ visit_circleOffset v == circleCount v
  /\ forall k b,
       tileBatches v !! k = Some b ->
       circleOffset b == circles_before (take k (tileBatches v)).

(** The visit before the first tile, but for the program request. *)
Definition no_visit : Visit :=
  {| tileBatches := []; circleCount := 0; visit_circleOffset := 0;
     visit_log := [] |}.

End Readings.

End DebugReadings.

(** * More inputs to run the models on *)

Module DemoInputs.
Import SymbolLayout LayoutVocabulary LayoutReadings Demo.

(** The arguments of [addFeature] and [addSymbol] that the examples leave
    alone. *)
Definition demo_anchor : Anchor := newAnchor 10 10 0.

Definition demo_shaped (h v : option string) : ShapedTextOrientations :=
  {| shaped_horizontal := h; shaped_vertical := v |}.

(** A call of [addSymbol] at [demo_anchor] in the state [s]. *)
Definition demo_addSymbol (sto : ShapedTextOrientations)
    (icon : option unit) (s : State) : Outcome SymbolInstance * State :=
  addSymbol demo_anchor [mkPoint 10 10] sto icon (layers_0 (bucket s))
    7 0 0 (Some 1) 2 false (0, 0) (Some 1) 2 false (0, 0) demo_star tt
    (computeSizes (bucket s)) s.

(** A call of [addFeature] in the state [s]. *)
Definition demo_addFeature (f : SymbolFeature)
    (sto : ShapedTextOrientations) (icon : option unit) (s : State)
  : Outcome unit * State :=
  addFeature f sto icon tt (computeSizes (bucket s)) s.

Definition demo_state (placement : Placement) : State :=
  mkState (demo_bucket placement (Some 16) size_constant []) [].

(** A bucket with a composite text-size function over the zooms 5 to 10,
    and a text size of 300. *)
Definition demo_composite_state : State :=
  mkState (demo_bucket point (Some 300) (size_composite 5 10) []) [].

(** A bucket with a source icon-size function; the icon size of the layer
    is 1. *)
Definition demo_icon_source_state : State :=
  mkState
    {| overscaling := 1; zoom := 10; pixelRatio := 1; bucket_index := 0;
       layerIds := ["labels"%string];
       layers_0 := demo_layer point (Some 16);
       features := []; textSizeData := size_constant;
       iconSizeData := size_source;
       symbolInstances := []; tilePixelRatio := 16; compareText := ∅;
       iconsNeedLinear := false; sdfIcons := None;
       collisionBoxArray := []; arrays := (0, 0)%Z |}
    [].

(** A triangle, as a polygon with one ring and as a line. *)
Definition demo_triangle : list Point :=
  [mkPoint 10 10; mkPoint 50 10; mkPoint 10 50].

Definition demo_polygon : SymbolFeature :=
  demo_feature None (Some "star"%string) Polygon [demo_triangle].

Definition demo_road : SymbolFeature :=
  demo_feature None (Some "star"%string) LineString
    [demo_triangle; [mkPoint 7 7]].

(** A feature with neither text nor icon. *)
Definition demo_bare : SymbolFeature :=
  demo_feature None None GPoint [[mkPoint 10 10]].

(** The line of [demo_constructor], with a label that is not the name of
    an inherited property. *)
Definition demo_builder : SymbolFeature :=
  demo_feature (Some "builder"%string) None LineString
    [[mkPoint 100 100; mkPoint 4000 100]].

(** A text size that depends on the feature: the feature of index 1 has
    the size 12 at all zooms; any other has no size at zoom 18 and the size
    48 at the other zooms. *)
Definition demo_size_by_feature (z : Q) : PropertyValue jsnum :=
  source (fun f =>
            if (index f =? 1)%Z then Some 12
            else if Qeq_bool z 18 then None else Some 48).

(** A line with an icon and no text. *)
Definition demo_sized_feature (i : Z) (y : Q) : SymbolFeature :=
  {| text := None; icon := Some "star"%string; index := i;
     sourceLayerIndex := 0; geometry := [[mkPoint 100 y; mkPoint 200 y]];
     type := LineString |}.

Definition demo_sized_bucket : SymbolBucket :=
  {| overscaling := 1; zoom := 10; pixelRatio := 1; bucket_index := 0;
     layerIds := ["labels"%string];
     layers_0 :=
       {| layout := demo_layout line (Some 16);
          unevaluated_text_size := demo_size_by_feature;
          unevaluated_icon_size := fun _ => constant (Some 1) |};
     features := [demo_sized_feature 1 100; demo_sized_feature 2 300];
     textSizeData := size_constant; iconSizeData := size_constant;
     symbolInstances := []; tilePixelRatio := 0; compareText := ∅;
     iconsNeedLinear := false; sdfIcons := None;
     collisionBoxArray := []; arrays := (0, 0)%Z |}.

End DemoInputs.
(** * Properties *)

(** ** Numbers and the monad *)

Lemma Qltb_lt (a b : Q) : Qltb a b = true <-> a < b.
Proof.
  unfold Qltb. rewrite negb_true_iff. split.
  - intros Hf. apply Qnot_le_lt. intros Hle.
    apply Qle_bool_iff in Hle. congruence.
  - intros Hlt. destruct (Qle_bool b a) eqn:E; [|reflexivity].
    apply Qle_bool_iff in E. exfalso. exact (Qlt_not_le _ _ Hlt E).
Qed.

Lemma Qltb_ge (a b : Q) : Qltb a b = false <-> b <= a.
Proof.
  unfold Qltb. rewrite negb_false_iff. apply Qle_bool_iff.
Qed.

Section MonadFacts.
Context {S : Type}.
Implicit Types s : S.

Lemma wp_ret {A} (a : A) (Q : A -> S -> Prop) R s :
  Q a s -> wp (ret a) Q R s.
Proof. intros H. exact H. Qed.

Lemma wp_throw {A} e (Q : A -> S -> Prop) (R : S -> Prop) s :
  R s -> wp (throw e) Q R s.
Proof. intros H. exact H. Qed.

Lemma wp_bind {A B} (m : M S A) (k : A -> M S B) Q R s :
  wp m (fun a s' => wp (k a) Q R s') R s -> wp (bind m k) Q R s.
Proof.
  unfold wp, bind. destruct (m s) as [[a|e] s']; intros H; exact H.
Qed.

Lemma wp_get (Q : S -> S -> Prop) R s : Q s s -> wp get Q R s.
Proof. intros H. exact H. Qed.

Lemma wp_modify (f : S -> S) (Q : unit -> S -> Prop) R s :
  Q tt (f s) -> wp (modify f) Q R s.
Proof. intros H. exact H. Qed.

Lemma wp_when (c : bool) (m : M S unit) Q R s :
  (c = true -> wp m Q R s) -> (c = false -> Q tt s) -> wp (when c m) Q R s.
Proof. destruct c; intros H1 H2; [apply H1 | apply H2]; reflexivity. Qed.

Lemma wp_conseq {A} (m : M S A) (Q Q' : A -> S -> Prop) (R R' : S -> Prop) s :
  wp m Q R s ->
  (forall a s', Q a s' -> Q' a s') ->
  (forall s', R s' -> R' s') ->
  wp m Q' R' s.
Proof.
  unfold wp. destruct (m s) as [[a|e] s']; intros H HQ HR; auto.
Qed.

(** The loop rule: an invariant of the body is an invariant of the loop. *)
Lemma wp_forEach {A} (l : list A) (body : A -> M S unit)
    (I : S -> Prop) (R : S -> Prop) s :
  I s ->
  (forall x s', In x l -> I s' -> wp (body x) (fun _ => I) R s') ->
  wp (forEach l body) (fun _ => I) R s.
Proof.
  revert s. induction l as [|x l IH]; intros s Hs Hbody.
  - exact Hs.
  - cbn [forEach]. apply wp_bind.
    eapply wp_conseq.
    + apply Hbody; [left; reflexivity | exact Hs].
    + intros u s' Hs'. apply IH; [exact Hs'|].
      intros y s'' Hy. apply Hbody. right. exact Hy.
    + auto.
Qed.

(** The loop rule with an invariant that knows the elements already
    visited. *)
Lemma wp_forEach_indexed {A} (l : list A) (body : A -> M S unit)
    (I : list A -> S -> Prop) (R : S -> Prop) s :
  I [] s ->
  (forall pre x post s',
      l = pre ++ x :: post -> I pre s' ->
      wp (body x) (fun _ => I (pre ++ [x])) R s') ->
  wp (forEach l body) (fun _ => I l) R s.
Proof.
  revert I s. induction l as [|x l IH]; intros I s Hs Hbody.
  - exact Hs.
  - cbn [forEach]. apply wp_bind.
    eapply wp_conseq.
    + apply (Hbody [] x l); [reflexivity | exact Hs].
    + intros u s' Hs'. cbn in Hs'.
      apply (IH (fun pre => I (x :: pre))); [exact Hs'|].
      intros pre y post s'' Hl. apply (Hbody (x :: pre) y post).
      rewrite Hl. reflexivity.
    + auto.
Qed.

(** What [wp] says about the outcome and about the final state. *)
Lemma wp_final {A} (m : M S A) (P : S -> Prop) s :
  wp m (fun _ => P) P s -> P (final m s).
Proof.
  unfold wp, final. destruct (m s) as [[a|e] s']; auto.
Qed.

Lemma wp_returns {A} (m : M S A) (Q : A -> S -> Prop) s :
  wp m Q (fun _ => False) s ->
  exists a s', m s = (Normal a, s') /\ Q a s'.
Proof.
  unfold wp. destruct (m s) as [[a|e] s']; intros H; [eauto | contradiction].
Qed.

Lemma wp_of_eq {A} (m : M S A) (Q : A -> S -> Prop) R s a s' :
  m s = (Normal a, s') -> Q a s' -> wp m Q R s.
Proof. unfold wp. intros -> H. exact H. Qed.

End MonadFacts.

(** ** Symbol layout *)

Module LayoutProperties.
Import SymbolLayout LayoutVocabulary.

Arguments wp : simpl never.
Arguments forEach : simpl never.
Arguments addTextVertices : simpl never.
Arguments addSymbol : simpl never.
Arguments anchorIsTooClose : simpl never.
Arguments addSymbolAtAnchor : simpl never.
Arguments addFeature : simpl never.
Arguments performSymbolLayout_feature : simpl never.
Arguments performSymbolLayout : simpl never.

Section Steps.
Context {T : ExternalTypes} {E : Externals}.

Lemma wp_getBucket (Q : SymbolBucket -> State -> Prop) R s :
  Q (bucket s) s -> wp getBucket Q R s.
Proof. intros H. exact H. Qed.

Lemma wp_update f (Q : unit -> State -> Prop) R s :
  Q tt (mkState (f (bucket s)) (log s)) -> wp (update f) Q R s.
Proof. intros H. exact H. Qed.

Lemma wp_emit e (Q : unit -> State -> Prop) R s :
  Q tt (mkState (bucket s) (log s ++ [e])) -> wp (emit e) Q R s.
Proof. intros H. exact H. Qed.

Lemma log_ext_refl P l : log_ext P l l.
Proof. exists []. rewrite app_nil_r. split; [reflexivity | constructor]. Qed.

Lemma log_ext_snoc P l l' e :
  log_ext P l l' -> P e -> log_ext P l (l' ++ [e]).
Proof.
  intros (evs & -> & H) He. exists (evs ++ [e]). rewrite app_assoc.
  split; [reflexivity|]. apply Forall_app.
  split; [exact H | repeat constructor; exact He].
Qed.

Lemma log_ext_trans P l1 l2 l3 :
  log_ext P l1 l2 -> log_ext P l2 l3 -> log_ext P l1 l3.
Proof.
  intros (e1 & -> & H1) (e2 & -> & H2). exists (e1 ++ e2).
  rewrite app_assoc. split; [reflexivity|].
  apply Forall_app. split; assumption.
Qed.

Lemma log_ext_weaken (P P' : Event -> Prop) l l' :
  (forall e, P e -> P' e) -> log_ext P l l' -> log_ext P' l l'.
Proof.
  intros HP (evs & -> & H). exists evs. split; [reflexivity|].
  eapply Forall_impl; eassumption.
Qed.

Lemma same_frame_elim b b' :
  same_frame b b' -> exists A C, b' = with_storage b A C.
Proof. intros H. eexists _, _. exact H. Qed.

End Steps.

(** One step through a monadic term. *)
Ltac wp_step :=
  lazymatch goal with
  | |- wp (bind _ _) _ _ _ => apply wp_bind
  | |- wp (ret _) _ _ _ => apply wp_ret
  | |- wp (throw _) _ _ _ => apply wp_throw
  | |- wp (emit _) _ _ _ => apply wp_emit
  | |- wp (update _) _ _ _ => apply wp_update
  | |- wp getBucket _ _ _ => apply wp_getBucket
  | |- wp (when ?c _) _ _ _ => destruct c eqn:?; unfold when
  | |- wp (match ?x with _ => _ end) _ _ _ => destruct x eqn:?
  end.

Ltac solve_ext :=
  repeat first
    [ apply log_ext_refl
    | eassumption
    | (apply log_ext_snoc; [| first [exact I | reflexivity]])
    | (eapply log_ext_trans; [| eassumption]) ].

Ltac solve_frame := unfold same_frame; exact eq_refl.

Section Leaves.
Context {T : ExternalTypes} {E : Externals}.

(** [addTextVertices] touches the arrays and logs a warning or none and the
    [addSymbols] call; it throws only for a composite size function without
    evaluators, and then before anything else. *)
Lemma addTextVertices_step anchor shapedText layer textAlongLine feature
    textOffset lineArray writingMode indices gpm sizes s :
  wp (addTextVertices anchor shapedText layer textAlongLine feature
        textOffset lineArray writingMode indices gpm sizes)
     (fun r s' => leaf_step s s')
     (fun s' => s' = s /\
        composite_ready (textSizeData (bucket s)) (compositeTextSizes sizes)
        = false)
     s.
Proof.
  destruct s as [b l]; destruct b.
  unfold addTextVertices, bucket_addSymbols, warnOnce.
  repeat (wp_step; cbn).
  all: try (split; reflexivity).
  all: split; [solve_frame | solve_ext].
Qed.

Lemma addSymbol_step anchor ln sto icon layer fi sli bi tbs tp tal to
    ibs ip ial io feature gpm sizes s :
  let c := {| call_anchor := anchor; call_line := ln;
              call_shapedText := sto; call_shapedIcon := icon;
              call_feature := feature |} in
  wp (addSymbol anchor ln sto icon layer fi sli bi tbs tp tal to
        ibs ip ial io feature gpm sizes)
     (fun inst s' => call_step c s s' /\ built_by c inst)
     (fun s' => call_step c s s' /\ sizes_cover (bucket s) sizes = false)
     s.
Proof.
  intros c. destruct s as [b l]; destruct b.
  unfold addSymbol, bucket_addToLineVertexArray, newCollisionFeature,
    bucket_addSymbols, warnOnce.
  repeat (wp_step; cbn).
  all: try (eapply wp_conseq; [apply addTextVertices_step | | ]; cbn;
            [intros r [b' l'] [(A & C & Hb)%same_frame_elim Hl];
             cbn in Hb, Hl; subst b'; cbn
            |intros s' [-> Hnr]; cbn in *]).
  all: repeat (wp_step; cbn).
  all: try (eapply wp_conseq; [apply addTextVertices_step | | ]; cbn;
            [intros r' [b'' l''] [(A' & C' & Hb')%same_frame_elim Hl'];
             cbn in Hb', Hl'; subst b''; cbn
            |intros s' [-> Hnr]; cbn in *]).
  all: repeat (wp_step; cbn).
  all: split.
  all: try (split; [reflexivity |];
            unfold call_text; cbn;
            match goal with
            | H : shaped_horizontal _ = _ |- _ => rewrite H
            end; reflexivity).
  all: try (split; [solve_frame | cbn; solve_ext]).
  all: unfold sizes_cover; cbn; rewrite ?Hnr; try reflexivity.
  all: match goal with
       | H : compositeIconSizes _ = None |- _ =>
           rewrite H; apply andb_false_r
       end.
Qed.

(** [anchorIsTooClose], outcome by outcome. *)
Lemma anchorIsTooClose_spec text d a s :
  match anchorIsTooClose text d a s with
  | (Normal true, s') =>
      s' = s
      /\ exists other,
           In other (default [] (compareText (bucket s) !! text))
           /\ dist a other < d
  | (Normal false, s') =>
      recorded text d a s s'
      /\ (compareText (bucket s) !! text = None -> inherited text = false)
  | (Throw _, s') =>
      s' = s /\ compareText (bucket s) !! text = None
      /\ inherited text = true
  end.
Proof.
  unfold anchorIsTooClose, recorded, bind, getBucket, get, ret, update,
    modify, throw.
  cbn.
  destruct (compareText (bucket s) !! text) as [others|] eqn:Hl; cbn.
  - destruct (existsb _ (rev others)) eqn:Hex; cbn.
    + split; [reflexivity|].
      apply existsb_exists in Hex. destruct Hex as (o & Ho & Hlt).
      exists o. split; [apply in_rev; exact Ho | apply Qltb_lt; exact Hlt].
    + split; [|discriminate]. split; [|reflexivity].
      intros o Ho Hlt.
      assert (Hex' : existsb (fun other => Qltb (dist a other) d) (rev others)
                     = true).
      { apply existsb_exists. exists o.
        split; [apply in_rev; rewrite rev_involutive; exact Ho
               | apply Qltb_lt; exact Hlt]. }
      congruence.
  - destruct (inherited text) eqn:Hi; cbn.
    + auto.
    + split; [|reflexivity]. split; [|reflexivity]. intros o [].
Qed.

End Leaves.

Section Refinement.
Context {T : ExternalTypes} {E : Externals}.

Lemma within_field {A} (proj : SymbolBucket -> A) b0 s :
  within b0 s -> proj (bucket s) = proj (rebuild b0 (bucket s)).
Proof. intros H. rewrite <- H. reflexivity. Qed.

Lemma within_sizes_cover b0 s :
  within b0 s -> sizes_cover (bucket s) (computeSizes b0) = true.
Proof.
  intros H. unfold sizes_cover.
  rewrite (within_field textSizeData b0 s H),
          (within_field iconSizeData b0 s H). cbn.
  destruct (textSizeData b0), (iconSizeData b0); reflexivity.
Qed.

Lemma within_storage b0 b l A C si :
  within b0 (mkState b l) ->
  forall l', within b0 (mkState (set_symbolInstances si (with_storage b A C)) l').
Proof.
  unfold within. cbn. intros H l'. rewrite H. reflexivity.
Qed.

(** [addSymbolAtAnchor]: the anchor is offered; an exception can only come
    from size data without evaluators. *)
Lemma addSymbolAtAnchor_spec feature sto icon gpm sizes tbs tp tal to
    ibs ip ial io ln a s :
  let c := {| call_anchor := a; call_line := ln; call_shapedText := sto;
              call_shapedIcon := icon; call_feature := feature |} in
  wp (addSymbolAtAnchor feature sto icon gpm sizes tbs tp tal to
        ibs ip ial io ln a)
     (fun _ s' => offered ln c s s')
     (fun s' => sizes_cover (bucket s) sizes = false)
     s.
Proof.
  intros c. unfold addSymbolAtAnchor, offered, inside_tile. cbn [call_anchor c].
  apply wp_bind, wp_emit.
  destruct (Qltb (anchor_x a) 0 || Qle_bool EXTENT (anchor_x a)
            || Qltb (anchor_y a) 0 || Qle_bool EXTENT (anchor_y a)); cbn.
  - apply wp_ret. reflexivity.
  - apply wp_bind, wp_getBucket, wp_bind. cbn.
    eapply wp_conseq; [apply addSymbol_step | |]; cbn.
    + intros inst [b' l'] [[(A & C & Hb)%same_frame_elim Hl] Ha].
      cbn in Hb, Hl. subst b'. apply wp_update. cbn.
      exists inst, A, C. split; [exact Ha|]. split; [reflexivity|].
      rewrite <- app_assoc in Hl. exact Hl.
    + intros s' [_ H]. exact H.
Qed.

Lemma fstep_within b0 s s' : fstep b0 s s' -> within b0 s -> within b0 s'.
Proof.
  assert (Hoff : forall ln c s s', offered ln c s s' -> within b0 s -> within b0 s').
  { intros ln c [b l] [b' l']. unfold offered.
    destruct (inside_tile (call_anchor c)).
    - intros (inst & A & C & _ & Hb & _) Hw. cbn in Hb. subst b'.
      eapply within_storage. exact Hw.
    - intros [= -> ->] Hw. exact Hw. }
  intros Hstep Hw. destruct Hstep; try (eapply Hoff; eassumption).
  1-5: unfold within in *; cbn; rewrite Hw; reflexivity.
  eapply Hoff; [eassumption|].
  destruct H1 as [_ ->]. unfold within in *. cbn. rewrite Hw. reflexivity.
Qed.

Lemma rtc_fstep_within b0 s s' :
  rtc (fstep b0) s s' -> within b0 s -> within b0 s'.
Proof.
  induction 1; [auto|]. intros Hw. apply IHrtc. eapply fstep_within; eassumption.
Qed.

End Refinement.

Section FeatureSteps.
Context {T : ExternalTypes} {E : Externals}.

Lemma reaches_step b0 s0 s s' :
  reaches b0 s0 s -> fstep b0 s s' -> reaches b0 s0 s'.
Proof.
  intros [Hr Hw] Hs. split.
  - eapply rtc_r; eassumption.
  - eapply fstep_within; eassumption.
Qed.

Lemma offer_reaches b0 s0 feature sto icon gpm tbs tp tal to ibs ip ial io
    ln a s :
  (symbol_placement (layout (layers_0 b0)) = SymbolLayout.line ->
   shaped_horizontal sto = None) ->
  reaches b0 s0 s ->
  wp (addSymbolAtAnchor feature sto icon gpm (computeSizes b0)
        tbs tp tal to ibs ip ial io ln a)
     (fun _ => reaches b0 s0) (reaches b0 s0) s.
Proof.
  intros Hline Hr.
  eapply wp_conseq; [apply addSymbolAtAnchor_spec | |]; cbn.
  - intros _ s' Hoff. eapply reaches_step; [exact Hr|].
    eapply fstep_offer; [|exact Hoff].
    intros Hp. unfold call_text. cbn. rewrite (Hline Hp). reflexivity.
  - intros s' Hc. rewrite (within_sizes_cover b0 s (proj2 Hr)) in Hc.
    discriminate.
Qed.

Lemma record_offer_reaches b0 s0 feature sto icon gpm tbs tp tal to
    ibs ip ial io ln a shapedText s :
  symbol_placement (layout (layers_0 b0)) = SymbolLayout.line ->
  shaped_horizontal sto = Some shapedText ->
  reaches b0 s0 s ->
  wp (bind (anchorIsTooClose (shaping_text shapedText)
              (symbolMinDistance_of b0 / 2) a)
           (fun tooClose =>
              if tooClose then ret tt
              else addSymbolAtAnchor feature sto icon gpm (computeSizes b0)
                     tbs tp tal to ibs ip ial io ln a))
     (fun _ => reaches b0 s0) (reaches b0 s0) s.
Proof.
  intros Hp Hsome Hr. apply wp_bind. unfold wp at 1.
  pose proof (anchorIsTooClose_spec (shaping_text shapedText)
                (symbolMinDistance_of b0 / 2) a s) as Hspec.
  destruct (anchorIsTooClose _ _ a s) as [[[|]|e] s1].
  - destruct Hspec as [-> _]. apply wp_ret. exact Hr.
  - destruct Hspec as [Hrec _].
    assert (Hw1 : within b0 s1).
    { destruct Hrec as [_ ->]. destruct Hr as [_ Hw].
      unfold within in *. cbn. rewrite Hw. reflexivity. }
    eapply wp_conseq; [apply addSymbolAtAnchor_spec | |]; cbn.
    + intros _ s' Hoff. eapply reaches_step; [exact Hr|].
      eapply fstep_record_offer; only 4: exact Hoff;
        [exact Hp | | exact Hrec].
      unfold call_text. cbn. rewrite Hsome. reflexivity.
    + intros s' Hc. rewrite (within_sizes_cover b0 s1 Hw1) in Hc.
      discriminate.
  - destruct Hspec as [-> _]. exact Hr.
Qed.

(** The layout of a feature is a sequence of steps. *)
Lemma addFeature_steps b0 feature sto icon gpm s0 s :
  In feature (features b0) ->
  reaches b0 s0 s ->
  wp (addFeature feature sto icon gpm (computeSizes b0))
     (fun _ => reaches b0 s0) (reaches b0 s0) s.
Proof.
  intros Hf Hr. pose proof (proj2 Hr) as Hw.
  unfold addFeature. apply wp_bind, wp_getBucket.
  rewrite (within_field layers_0 b0 s Hw),
          (within_field tilePixelRatio b0 s Hw),
          (within_field overscaling b0 s Hw).
  cbn.
  destruct (symbol_placement (layout (layers_0 b0))) eqn:Hp.
  - destruct (type feature).
    + apply wp_ret. exact Hr.
    + apply wp_forEach; [exact Hr|]. intros points s1 _ Hr1.
      apply wp_forEach; [exact Hr1|]. intros p s2 _ Hr2.
      apply offer_reaches; [rewrite Hp; discriminate | exact Hr2].
    + apply wp_forEach; [exact Hr|]. intros [|p ln] s1 _ Hr1.
      * apply wp_throw. exact Hr1.
      * apply offer_reaches; [rewrite Hp; discriminate | exact Hr1].
    + apply wp_forEach; [exact Hr|]. intros polygon s1 _ Hr1.
      apply offer_reaches; [rewrite Hp; discriminate | exact Hr1].
  - apply wp_forEach; [exact Hr|]. intros ln s1 _ Hr1.
    unfold getAnchors_logged.
    apply wp_bind, wp_bind, wp_emit, wp_ret.
    apply wp_forEach.
    + eapply reaches_step; [exact Hr1|].
      eapply fstep_getAnchors; [exact Hf | reflexivity].
    + intros a s2 _ Hr2.
      destruct (shaped_horizontal sto) as [shapedText|] eqn:Hh.
      * apply record_offer_reaches; [exact Hp | exact Hh | exact Hr2].
      * apply offer_reaches; [intros _; exact Hh | exact Hr2].
  - apply wp_forEach; [exact Hr|]. intros ln s1 _ Hr1.
    wp_step.
    2: { apply wp_ret. exact Hr1. }
    unfold getCenterAnchor_logged.
    apply wp_bind, wp_bind, wp_emit, wp_ret.
    assert (Hr2 : reaches b0 s0
              (mkState (bucket s1)
                 (log s1 ++ [EvGetCenterAnchor
                    {| gc_line := ln;
                       gc_maxAngle :=
                         text_max_angle (layout (layers_0 b0)) / 180 * Math_PI;
                       gc_shapedText := vertical_or_horizontal sto;
                       gc_shapedIcon := icon; gc_glyphSize := 24;
                       gc_boxScale := textMaxBoxScale_of b0 feature |}]))).
    { eapply reaches_step; [exact Hr1|].
      eapply fstep_getCenterAnchor; [exact Hf | reflexivity]. }
    destruct (getCenterAnchor _) as [a|].
    + apply offer_reaches; [rewrite Hp; discriminate | exact Hr2].
    + apply wp_ret. exact Hr2.
Qed.

End FeatureSteps.

Section PassSteps.
Context {T : ExternalTypes} {E : Externals}.

Lemma reaches_refl b0 s : within b0 s -> reaches b0 s s.
Proof. intros H. split; [apply rtc_refl | exact H]. Qed.

Lemma performSymbolLayout_feature_steps b0 glyphMap glyphPositions imageMap
    imagePositions f s :
  In f (features b0) ->
  within b0 s ->
  wp (performSymbolLayout_feature glyphMap glyphPositions imageMap
        imagePositions (layout (layers_0 b0)) (computeSizes b0)
        (text_line_height (layout (layers_0 b0)) * oneEm)
        (textAlongLine_of (layout (layers_0 b0)))
        (text_keep_upright (layout (layers_0 b0))) f)
     (fun _ => shaped_reaches b0 f s) (shaped_reaches b0 f s) s.
Proof.
  intros Hf Hw. unfold performSymbolLayout_feature.
  apply wp_bind.
  eapply wp_conseq with
    (Q := fun (sto : ShapedTextOrientations) s' =>
            exists args,
              map st_writingMode args = shapings b0 f
              /\ s' = mkState (bucket s) (log s ++ map EvShapeText args))
    (R := fun _ => False).
  { unfold shapings, shapeText_logged, unformatted.
    destruct (truthy_text (text f)) as [t|].
    - apply wp_bind, wp_bind, wp_emit, wp_ret.
      destruct (allowsVerticalWritingMode _ && _ && _).
      + apply wp_bind, wp_bind, wp_emit, wp_ret, wp_ret. cbn.
        eexists [_; _]. split; cycle 1.
        { cbn. rewrite <- app_assoc. reflexivity. }
        reflexivity.
      + apply wp_ret. cbn. eexists [_]. split; cycle 1.
        { reflexivity. }
        reflexivity.
    - apply wp_ret. exists []. cbn. rewrite app_nil_r.
      split; [reflexivity|]. destruct s; reflexivity. }
  2: { intros s' []. }
  intros sto s1 (args & Hargs & ->).
  assert (Hw1 : within b0 (mkState (bucket s) (log s ++ map EvShapeText args)))
    by exact Hw.
  pose proof (reaches_refl b0 _ Hw1) as Hr.
  revert Hr.
  generalize (mkState (bucket s) (log s ++ map EvShapeText args)) at 2 3 as s2.
  intros s2 Hr.
  apply wp_bind.
  eapply wp_conseq with
    (Q := fun (_ : option PositionedIcon) s' =>
            reaches b0 (mkState (bucket s) (log s ++ map EvShapeText args)) s')
    (R := fun _ => False).
  { destruct (truthy_icon (icon f)) as [name|]; [|apply wp_ret; exact Hr].
    destruct (imageMap name) as [image|]; [|apply wp_ret; exact Hr].
    apply wp_bind, wp_getBucket, wp_bind.
    assert (Hsdf : wp
              match sdfIcons (bucket s2) with
              | Some s3 =>
                  when (negb (Bool.eqb s3 (sdf image))) (warnOnce MixedSdfIcons)
              | None => update (set_sdfIcons (Some (sdf image)))
              end
              (fun _ s' =>
                 reaches b0
                   (mkState (bucket s) (log s ++ map EvShapeText args)) s'
                 /\ pixelRatio (bucket s') = pixelRatio (bucket s2))
              (fun _ => False) s2).
    { destruct (sdfIcons (bucket s2)).
      - wp_step.
        + apply wp_emit. split; [|reflexivity].
          eapply reaches_step; [exact Hr | apply fstep_warn].
        + apply wp_ret. auto.
      - apply wp_update. split; [|reflexivity].
        eapply reaches_step; [exact Hr | apply fstep_sdfIcons]. }
    eapply wp_conseq; [exact Hsdf | | intros ? []].
    cbn. intros _ s3 [Hr3 Hpr]. apply wp_bind. rewrite <- Hpr.
    destruct (negb (Qeq_bool (image_pixelRatio image) (pixelRatio (bucket s3)))).
    - apply wp_update, wp_ret.
      eapply reaches_step; [exact Hr3 | apply fstep_iconsNeedLinear].
    - wp_step.
      + apply wp_update, wp_ret.
        eapply reaches_step; [exact Hr3 | apply fstep_iconsNeedLinear].
      + apply wp_ret, wp_ret. exact Hr3. }
  2: { intros s' []. }
  cbn. intros shapedIcon s3 Hr3.
  destruct (truthy (shaped_horizontal sto) || truthy shapedIcon).
  - eapply wp_conseq; [apply addFeature_steps; [exact Hf | exact Hr3] | |];
      cbn; intros; exists args; auto.
  - apply wp_ret. exists args. auto.
Qed.

End PassSteps.

Section Pass.
Context {T : ExternalTypes} {E : Externals}.

Lemma shape_modes_app l1 l2 :
  shape_modes (l1 ++ l2) = shape_modes l1 ++ shape_modes l2.
Proof. apply flat_map_app. Qed.

Lemma shape_modes_shapeText args :
  shape_modes (map EvShapeText args) = map st_writingMode args.
Proof.
  induction args as [|a args IH]; [reflexivity|].
  cbn [map].
  change (shape_modes (EvShapeText a :: map EvShapeText args))
    with (st_writingMode a :: shape_modes (map EvShapeText args)).
  rewrite IH. reflexivity.
Qed.

Lemma shape_modes_ext (P : Event -> Prop) l l' :
  (forall e, P e -> shape_modes [e] = []) ->
  log_ext P l l' -> shape_modes l' = shape_modes l.
Proof.
  intros HP (evs & -> & Hevs). rewrite shape_modes_app.
  assert (Hnil : shape_modes evs = []).
  { induction Hevs as [|e evs He _ IH]; [reflexivity|].
    change (e :: evs) with ([e] ++ evs). rewrite shape_modes_app, (HP e He), IH.
    reflexivity. }
  rewrite Hnil. apply app_nil_r.
Qed.

Lemma leaf_event_no_shape e : leaf_event e -> shape_modes [e] = [].
Proof. destruct e; cbn; try reflexivity; intros []. Qed.

Lemma offered_shape_modes ln c s s' :
  offered ln c s s' -> shape_modes (log s') = shape_modes (log s).
Proof.
  unfold offered. destruct (inside_tile (call_anchor c)).
  - intros (inst & A & C & _ & _ & Hl).
    rewrite (shape_modes_ext _ _ _ leaf_event_no_shape Hl).
    rewrite shape_modes_app. cbn. apply app_nil_r.
  - intros ->. cbn [log]. rewrite shape_modes_app. cbn. apply app_nil_r.
Qed.

Lemma fstep_shape_modes b0 s s' :
  fstep b0 s s' -> shape_modes (log s') = shape_modes (log s).
Proof.
  intros H. destruct H; cbn [log];
    try (rewrite shape_modes_app; cbn; apply app_nil_r);
    try reflexivity.
  - eapply offered_shape_modes; eassumption.
  - erewrite offered_shape_modes by eassumption.
    destruct H1 as [_ ->]. reflexivity.
Qed.

Lemma rtc_fstep_shape_modes b0 s s' :
  rtc (fstep b0) s s' -> shape_modes (log s') = shape_modes (log s).
Proof.
  induction 1 as [|s s1 s' Hs _ IH]; [reflexivity|].
  rewrite IH. eapply fstep_shape_modes; eassumption.
Qed.

Lemma rtc_step_shapeText b0 s args :
  rtc (step b0) s (mkState (bucket s) (log s ++ map EvShapeText args)).
Proof.
  revert s. induction args as [|a args IH]; intros s.
  - cbn. rewrite app_nil_r. destruct s. apply rtc_refl.
  - eapply rtc_l; [apply (step_shapeText b0 s a)|].
    specialize (IH (mkState (bucket s) (log s ++ [EvShapeText a]))).
    cbn in IH. rewrite <- app_assoc in IH. exact IH.
Qed.

Lemma rtc_fstep_step b0 s s' : rtc (fstep b0) s s' -> rtc (step b0) s s'.
Proof.
  induction 1; [apply rtc_refl|].
  eapply rtc_l; [apply step_feature; eassumption | assumption].
Qed.

(** The pass is a sequence of steps from the reset bucket, and shapes the
    texts of the features in their order. *)
Lemma performSymbolLayout_steps glyphMap glyphPositions imageMap
    imagePositions showCollisionBoxes b :
  wp (performSymbolLayout glyphMap glyphPositions imageMap imagePositions
        showCollisionBoxes)
     (fun _ => pass_done b (length (features b)))
     (fun s' => exists k, pass_done b k s')
     (mkState b []).
Proof.
  unfold performSymbolLayout.
  do 2 (apply wp_bind, wp_update). apply wp_bind, wp_getBucket.
  do 3 (apply wp_bind, wp_update). cbn.
  change (computeSizes (set_symbolInstances [] _)) with (computeSizes b).
  change (_ && negb _) with (textAlongLine_of (layout (layers_0 b))).
  set (s0 := mkState (reset b) []).
  assert (Hw0 : within b s0) by reflexivity.
  apply wp_bind.
  eapply wp_conseq with
    (Q := fun _ => pass_done b (length (features b)))
    (R := fun s' => exists k, pass_done b k s').
  - change ({| bucket := _; log := [] |}) with s0.
    eapply wp_conseq.
    + apply wp_forEach_indexed with
        (I := fun pre s' =>
                rtc (step b) s0 s' /\ within b s'
                /\ shape_modes (log s') = flat_map (shapings b) pre)
        (R := fun s' => exists k, pass_done b k s').
      * split; [apply rtc_refl|]. split; [exact Hw0 | reflexivity].
      * intros pre x post s1 Hl (Hr1 & Hw1 & Hm1).
        assert (Hx : In x (features b)).
        { rewrite Hl. apply in_or_app. right. left. reflexivity. }
        assert (Hgoal : forall s',
                   shaped_reaches b x s1 s' ->
                   rtc (step b) s0 s' /\ within b s'
                   /\ shape_modes (log s') = flat_map (shapings b) (pre ++ [x])).
        { intros s' (args & Hargs & Hreach & Hw').
          split; [|split; [exact Hw'|]].
          - eapply rtc_trans; [exact Hr1|].
            eapply rtc_trans; [apply rtc_step_shapeText|].
            apply rtc_fstep_step. exact Hreach.
          - rewrite (rtc_fstep_shape_modes _ _ _ Hreach). cbn [log].
            rewrite shape_modes_app, shape_modes_shapeText, Hm1, Hargs.
            rewrite flat_map_app. cbn. rewrite app_nil_r. reflexivity. }
        eapply wp_conseq;
          [apply performSymbolLayout_feature_steps; [exact Hx | exact Hw1] | |].
        -- intros u s' Hs'. apply Hgoal. exact Hs'.
        -- intros s' Hs'. exists (length (pre ++ [x])).
           destruct (Hgoal s' Hs') as (H1 & H2 & H3).
           split; [exact H1|]. split; [exact H2|].
           rewrite H3, Hl.
           replace (pre ++ x :: post) with ((pre ++ [x]) ++ post)
             by (rewrite <- app_assoc; reflexivity).
           rewrite firstn_app, firstn_all, Nat.sub_diag. cbn.
           rewrite app_nil_r. reflexivity.
    + intros u s' (H1 & H2 & H3). split; [exact H1|]. split; [exact H2|].
      rewrite firstn_all. exact H3.
    + auto.
  - intros u s1 (H1 & H2 & H3). wp_step; [|exact (conj H1 (conj H2 H3))].
    apply wp_bind, wp_emit, wp_update. cbn.
    split; [|split].
    + eapply rtc_r; [exact H1|].
      apply (step_generateCollisionDebugBuffers b s1).
    + unfold within in *. cbn. rewrite H2. reflexivity.
    + cbn [log]. rewrite shape_modes_app. cbn. rewrite app_nil_r. exact H3.
  - auto.
Qed.

(** The same, read off the result of the run. *)
Lemma run_performSymbolLayout_steps glyphMap glyphPositions imageMap
    imagePositions showCollisionBoxes b :
  let r := run_performSymbolLayout glyphMap glyphPositions imageMap
             imagePositions showCollisionBoxes b in
  exists k,
    pass_done b k (snd r)
    /\ (fst r = Normal tt -> k = length (features b)).
Proof.
  pose proof (performSymbolLayout_steps glyphMap glyphPositions imageMap
                imagePositions showCollisionBoxes b) as H.
  unfold wp in H. unfold run_performSymbolLayout. cbn zeta.
  destruct (performSymbolLayout _ _ _ _ _ _) as [[[]|e] s'].
  - exists (length (features b)). split; [exact H | reflexivity].
  - destruct H as (k & H). exists k. split; [exact H | discriminate].
Qed.

End Pass.

Section Invariants.
Context {T : ExternalTypes} {E : Externals}.

Lemma rtc_step_invariant b (P : State -> Prop) s s' :
  (forall s1 s2, step b s1 s2 -> P s1 -> P s2) ->
  rtc (step b) s s' -> P s -> P s'.
Proof.
  intros Hstep Hrtc. induction Hrtc as [|s s1 s' Hs _ IH]; [auto|].
  intros Hp. apply IH. eapply Hstep; eassumption.
Qed.

Lemma Forall_snoc {A} (P : A -> Prop) l x :
  Forall P l -> P x -> Forall P (l ++ [x]).
Proof. intros Hl Hx. apply Forall_app. split; [exact Hl | repeat constructor; exact Hx]. Qed.

Lemma log_ext_Forall (P P' : Event -> Prop) l l' :
  (forall e, P e -> P' e) -> log_ext P l l' -> Forall P' l -> Forall P' l'.
Proof.
  intros HP (evs & -> & Hevs) Hl. apply Forall_app. split; [exact Hl|].
  eapply Forall_impl; eassumption.
Qed.

Lemma leaf_event_pass b e : leaf_event e -> pass_event b e.
Proof. destruct e; cbn; auto; intros []. Qed.

Lemma offered_log ln c s s' (P : Event -> Prop) :
  (forall e, leaf_event e -> P e) ->
  P (EvAddSymbolAtAnchor ln (call_anchor c)) -> P (EvAddSymbol c) ->
  offered ln c s s' -> Forall P (log s) -> Forall P (log s').
Proof.
  intros Hleaf Hcand Hcall. unfold offered.
  destruct (inside_tile (call_anchor c)).
  - intros (inst & A & C & _ & _ & Hl) Hlog.
    eapply log_ext_Forall; [exact Hleaf | exact Hl |].
    apply Forall_app. split; [exact Hlog | repeat constructor; assumption].
  - intros -> Hlog. cbn. apply Forall_snoc; assumption.
Qed.

(** Every event of a pass is one a pass may log. *)
Lemma step_pass_event b s s' :
  step b s s' -> Forall (pass_event b) (log s) -> Forall (pass_event b) (log s').
Proof.
  assert (Hoff : forall ln c s s', offered ln c s s' ->
            Forall (pass_event b) (log s) -> Forall (pass_event b) (log s')).
  { intros ln c s1 s2. apply offered_log; [apply leaf_event_pass | exact I | exact I]. }
  intros Hs Hlog. destruct Hs as [s a | s s' Hf | s A]; cbn.
  - apply Forall_snoc; [exact Hlog | exact I].
  - destruct Hf; cbn; try (apply Forall_snoc; [exact Hlog |]);
      try exact I; try exact Hlog.
    + exists f. split; assumption.
    + exists f. split; assumption.
    + eapply Hoff; eassumption.
    + eapply Hoff; [eassumption|]. destruct H1 as [_ ->]. exact Hlog.
  - apply Forall_snoc; [exact Hlog | exact I].
Qed.

Lemma pass_events glyphMap glyphPositions imageMap imagePositions
    showCollisionBoxes b :
  Forall (pass_event b)
    (log (snd (run_performSymbolLayout glyphMap glyphPositions imageMap
                 imagePositions showCollisionBoxes b))).
Proof.
  destruct (run_performSymbolLayout_steps glyphMap glyphPositions imageMap
              imagePositions showCollisionBoxes b) as (k & (Hr & _) & _).
  eapply (rtc_step_invariant b (fun s => Forall (pass_event b) (log s)));
    [apply step_pass_event | exact Hr | constructor].
Qed.

Lemma offered_instances_inside ln c s s' :
  offered ln c s s' -> instances_inside s -> instances_inside s'.
Proof.
  unfold offered, instances_inside.
  destruct (inside_tile (call_anchor c)) eqn:Hin.
  - intros (inst & A & C & [Ha _] & -> & _) Hi. cbn.
    apply Forall_snoc; [exact Hi | rewrite Ha; exact Hin].
  - intros -> Hi. exact Hi.
Qed.

Lemma step_instances_inside b s s' :
  step b s s' -> instances_inside s -> instances_inside s'.
Proof.
  intros Hs Hi. destruct Hs as [s a | s s' Hf | s A]; [exact Hi | | exact Hi].
  destruct Hf; try exact Hi.
  - eapply offered_instances_inside; eassumption.
  - eapply offered_instances_inside; [eassumption|].
    destruct H1 as [_ ->]. exact Hi.
Qed.

End Invariants.

Section RepeatDistance.
Context {T : ExternalTypes} {E : Externals}.

Lemma addSymbol_calls_app l1 l2 :
  addSymbol_calls (l1 ++ l2) = addSymbol_calls l1 ++ addSymbol_calls l2.
Proof. apply flat_map_app. Qed.

Lemma addSymbol_calls_ext l l' :
  log_ext leaf_event l l' -> addSymbol_calls l' = addSymbol_calls l.
Proof.
  intros (evs & -> & Hevs). rewrite addSymbol_calls_app.
  assert (Hnil : addSymbol_calls evs = []).
  { induction Hevs as [|e evs He _ IH]; [reflexivity|].
    change (e :: evs) with ([e] ++ evs). rewrite addSymbol_calls_app, IH.
    destruct e; cbn in He |- *; try reflexivity; destruct He. }
  rewrite Hnil. apply app_nil_r.
Qed.

(** What offering an anchor changes of the calls, the recorded anchors and
    the symbol instances. *)
Lemma offered_calls ln c s s' :
  offered ln c s s' ->
  compareText (bucket s') = compareText (bucket s)
  /\ if inside_tile (call_anchor c)
     then addSymbol_calls (log s') = addSymbol_calls (log s) ++ [c]
          /\ exists inst,
               built_by c inst
               /\ symbolInstances (bucket s')
                  = symbolInstances (bucket s) ++ [inst]
     else addSymbol_calls (log s') = addSymbol_calls (log s)
          /\ symbolInstances (bucket s') = symbolInstances (bucket s).
Proof.
  unfold offered. destruct (inside_tile (call_anchor c)).
  - intros (inst & A & C & Hb & -> & Hl). cbn [log bucket]. split; [reflexivity|].
    split.
    + rewrite (addSymbol_calls_ext _ _ Hl), addSymbol_calls_app. reflexivity.
    + exists inst. split; [exact Hb | reflexivity].
  - intros ->. cbn [log bucket]. split; [reflexivity|]. split; [|reflexivity].
    rewrite addSymbol_calls_app. cbn. apply app_nil_r.
Qed.

Lemma far_apart_snoc d calls c :
  far_apart d calls ->
  (forall c1 t, In c1 calls -> call_text c1 = Some t ->
                call_text c = Some t ->
                ~ dist (call_anchor c) (call_anchor c1) < d) ->
  far_apart d (calls ++ [c]).
Proof.
  intros Hfar Hnew i j c1 c2 t Hij H1 H2 Ht1 Ht2.
  apply lookup_app_Some in H2 as [H2 | [Hlen H2]].
  - assert (Hj : (j < length calls)%nat) by (eapply lookup_lt_Some; exact H2).
    rewrite lookup_app_l in H1 by lia.
    exact (Hfar i j c1 c2 t Hij H1 H2 Ht1 Ht2).
  - apply lookup_app_Some in H1 as [H1 | [Hlen1 H1]].
    + destruct (j - length calls)%nat eqn:Hd; [|destruct n; discriminate].
      cbn in H2. injection H2 as <-.
      eapply Hnew; [|exact Ht1|exact Ht2].
      apply list_elem_of_In. eapply list_elem_of_lookup_2. exact H1.
    + destruct (j - length calls)%nat eqn:Hd; [|destruct n; discriminate].
      destruct (i - length calls)%nat eqn:Hd1; [|destruct n; discriminate].
      lia.
Qed.

Lemma repeat_invariant_frame d s s' :
  addSymbol_calls (log s') = addSymbol_calls (log s) ->
  compareText (bucket s') = compareText (bucket s) ->
  symbolInstances (bucket s') = symbolInstances (bucket s) ->
  repeat_invariant d s -> repeat_invariant d s'.
Proof.
  unfold repeat_invariant, calls_recorded, instances_built.
  intros -> -> ->. auto.
Qed.

Lemma repeat_invariant_offered d ln c s s' :
  offered ln c s s' ->
  (forall c1 t, In c1 (addSymbol_calls (log s)) -> call_text c1 = Some t ->
                call_text c = Some t ->
                ~ dist (call_anchor c) (call_anchor c1) < d) ->
  (forall t, call_text c = Some t ->
             In (call_anchor c) (default [] (compareText (bucket s) !! t))) ->
  repeat_invariant d s -> repeat_invariant d s'.
Proof.
  intros Hoff Hnew Hrec (Hfar & Hcr & Hib).
  apply offered_calls in Hoff as [Hct Hoff].
  destruct (inside_tile (call_anchor c)).
  - destruct Hoff as (Hcalls & inst & Hb & Hsi).
    unfold repeat_invariant, calls_recorded, instances_built.
    rewrite Hcalls, Hct, Hsi. split; [|split].
    + apply far_apart_snoc; assumption.
    + intros c' t [Hin | [<- | []]]%in_app_or Ht.
      * apply Hcr; assumption.
      * apply Hrec. exact Ht.
    + apply Forall2_app; [exact Hib |].
      constructor; [exact Hb | constructor].
  - destruct Hoff as [Hcalls Hsi].
    eapply repeat_invariant_frame; [exact Hcalls | exact Hct | exact Hsi |].
    split; [exact Hfar | split; assumption].
Qed.

Lemma repeat_invariant_step b s s' :
  symbol_placement (layout (layers_0 b)) = SymbolLayout.line ->
  step b s s' ->
  repeat_invariant (symbolMinDistance_of b / 2) s ->
  repeat_invariant (symbolMinDistance_of b / 2) s'.
Proof.
  intros Hline Hs Hinv.
  assert (Hquiet : forall e bk,
            addSymbol_calls [e] = [] ->
            compareText bk = compareText (bucket s) ->
            symbolInstances bk = symbolInstances (bucket s) ->
            repeat_invariant (symbolMinDistance_of b / 2)
              (mkState bk (log s ++ [e]))).
  { intros e bk He Hct Hsi.
    eapply repeat_invariant_frame; [| exact Hct | exact Hsi | exact Hinv].
    cbn [log]. rewrite addSymbol_calls_app, He. apply app_nil_r. }
  destruct Hs as [s a | s s' Hf | s A].
  - apply Hquiet; reflexivity.
  - destruct Hf as [s | s v | s | s f a Hin Hsc | s f a Hin Hsc
                   | s s' ln c Hnone Hoff
                   | s s1 s' txt ln c Hl Htxt Hrec Hoff].
    + apply Hquiet; reflexivity.
    + eapply repeat_invariant_frame; [| | | exact Hinv]; reflexivity.
    + eapply repeat_invariant_frame; [| | | exact Hinv]; reflexivity.
    + apply Hquiet; reflexivity.
    + apply Hquiet; reflexivity.
    + eapply repeat_invariant_offered; [exact Hoff | | | exact Hinv].
      * intros c1 t _ _ Ht. rewrite (Hnone Hline) in Ht. discriminate.
      * intros t Ht. rewrite (Hnone Hline) in Ht. discriminate.
    + destruct Hrec as [Hfar ->].
      destruct Hinv as (Hf & Hcr & Hib).
      eapply repeat_invariant_offered; [exact Hoff | | | ]; cbn [bucket log].
      * intros c1 t Hin Ht1 Ht. apply Hfar.
        assert (t = txt) as -> by congruence.
        apply Hcr; assumption.
      * intros t Ht. assert (t = txt) as -> by congruence.
        cbn. rewrite lookup_insert_eq. cbn.
        apply in_or_app. right. left. reflexivity.
      * split; [exact Hf|]. split; [|exact Hib].
        intros c' t Hin Ht. cbn in Hin |- *.
        destruct (decide (txt = t)) as [<- | Hne].
        -- rewrite lookup_insert_eq. cbn. apply in_or_app. left.
           apply Hcr; assumption.
        -- rewrite lookup_insert_ne by exact Hne. apply Hcr; assumption.
  - apply Hquiet; reflexivity.
Qed.

End RepeatDistance.

Section WholePass.
Context {T : ExternalTypes} {E : Externals}.

Lemma offered_candidates ln c s s' :
  offered ln c s s' ->
  candidates (log s') = candidates (log s) ++ [(ln, call_anchor c)]
  /\ forall sizes, sizes_cover (bucket s') sizes = sizes_cover (bucket s) sizes.
Proof.
  assert (Happ : forall l1 l2,
             candidates (l1 ++ l2) = candidates l1 ++ candidates l2)
    by (intros; apply flat_map_app).
  unfold offered. destruct (inside_tile (call_anchor c)).
  - intros (inst & A & C & _ & -> & evs & -> & Hevs). cbn [log bucket].
    split; [|reflexivity].
    rewrite !Happ.
    assert (Hnil : candidates evs = []).
    { induction Hevs as [|e evs He _ IH]; [reflexivity|].
      change (e :: evs) with ([e] ++ evs). rewrite Happ, IH.
      destruct e; cbn in He |- *; try reflexivity; destruct He. }
    rewrite Hnil, app_nil_r. reflexivity.
  - intros ->. cbn [log bucket]. split; [|reflexivity].
    rewrite Happ. reflexivity.
Qed.

(** C2. With symbol-placement point, a feature of type Point offers
    [addSymbolAtAnchor] exactly one anchor per point of its geometry, in
    order, each at the point and with angle 0.  In every placement mode an
    anchor with a coordinate outside of [0, EXTENT) is dropped by
    [addSymbolAtAnchor] without pushing anything, so that every symbol
    instance of a pass has its anchor inside the tile. *)
Theorem point_placement_anchors :
  (forall feature sto icon gpm sizes s,
      symbol_placement (layout (layers_0 (bucket s))) = point ->
      type feature = GPoint ->
      sizes_cover (bucket s) sizes = true ->
      exists s',
        addFeature feature sto icon gpm sizes s = (Normal tt, s')
        /\ candidates (log s')
           = candidates (log s)
             ++ map (fun p => ([p], newAnchor (px p) (py p) 0))
                    (concat (geometry feature)))
  /\ (forall feature sto icon gpm sizes tbs tp tal to ibs ip ial io ln a s,
         inside_tile a = false ->
         addSymbolAtAnchor feature sto icon gpm sizes tbs tp tal to
           ibs ip ial io ln a s
         = (Normal tt, mkState (bucket s) (log s ++ [EvAddSymbolAtAnchor ln a])))
  /\ (forall glyphMap glyphPositions imageMap imagePositions
             showCollisionBoxes b,
         Forall (fun i => inside_tile (anchor i) = true)
           (symbolInstances
              (bucket (snd (run_performSymbolLayout glyphMap glyphPositions
                              imageMap imagePositions showCollisionBoxes b))))).
Proof.
  split; [|split].
  - intros feature sto icon gpm sizes s Hp Hty Hcover.
    set (f := fun p : Point => ([p], newAnchor (px p) (py p) 0)).
    enough (Hwp : wp (addFeature feature sto icon gpm sizes)
                    (fun _ s' =>
                       candidates (log s')
                       = candidates (log s) ++ map f (concat (geometry feature)))
                    (fun _ => False) s).
    { apply wp_returns in Hwp as ([] & s' & Heq & Hc). exists s'. auto. }
    unfold addFeature. apply wp_bind, wp_getBucket. rewrite Hp, Hty.
    cbn.
    eapply wp_conseq.
    + apply wp_forEach_indexed with
        (I := fun pre s' =>
                sizes_cover (bucket s') sizes = true
                /\ candidates (log s')
                   = candidates (log s) ++ map f (concat pre))
        (R := fun _ => False).
      * split; [exact Hcover|]. cbn. rewrite app_nil_r. reflexivity.
      * intros pre points post s1 _ [Hc1 Hcand1].
        eapply wp_conseq.
        -- apply wp_forEach_indexed with
             (I := fun pre' s' =>
                     sizes_cover (bucket s') sizes = true
                     /\ candidates (log s')
                        = candidates (log s) ++ map f (concat pre ++ pre'))
             (R := fun _ => False).
           ++ split; [exact Hc1|]. rewrite app_nil_r. exact Hcand1.
           ++ intros pre' p post' s2 _ [Hc2 Hcand2].
              eapply wp_conseq; [apply addSymbolAtAnchor_spec | |]; cbn.
              ** intros u s3 Hoff.
                 apply offered_candidates in Hoff as [Hcand3 Hc3].
                 split; [rewrite Hc3; exact Hc2|].
                 rewrite Hcand3, Hcand2. cbn.
                 rewrite !map_app, <- !app_assoc. reflexivity.
              ** intros s3 Hc3. congruence.
        -- intros u s2 [Hc2 Hcand2]. split; [exact Hc2|].
           rewrite Hcand2, concat_app. cbn. rewrite app_nil_r. reflexivity.
        -- auto.
    + intros u s' [_ Hc]. exact Hc.
    + auto.
  - intros feature sto icon gpm sizes tbs tp tal to ibs ip ial io ln a s Hout.
    unfold inside_tile in Hout. apply negb_false_iff in Hout.
    unfold addSymbolAtAnchor, bind, emit, modify, ret. rewrite Hout.
    reflexivity.
  - intros glyphMap glyphPositions imageMap imagePositions showCollisionBoxes b.
    destruct (run_performSymbolLayout_steps glyphMap glyphPositions imageMap
                imagePositions showCollisionBoxes b) as (k & (Hr & _) & _).
    eapply (rtc_step_invariant b instances_inside);
      [apply step_instances_inside | exact Hr | constructor].
Qed.

Lemma anchorIsTooClose_true text d a s :
  (exists other,
      In other (default [] (compareText (bucket s) !! text))
      /\ dist a other < d) ->
  anchorIsTooClose text d a s = (Normal true, s).
Proof.
  intros (o & Ho & Hlt).
  pose proof (anchorIsTooClose_spec text d a s) as H.
  destruct (anchorIsTooClose text d a s) as [[[|]|e] s'].
  - destruct H as [-> _]. reflexivity.
  - destruct H as [[Hfar _] _]. exfalso. exact (Hfar o Ho Hlt).
  - destruct H as (_ & Hnone & _). rewrite Hnone in Ho. destruct Ho.
Qed.

Lemma anchorIsTooClose_false text d a s :
  (forall other,
      In other (default [] (compareText (bucket s) !! text)) ->
      ~ dist a other < d) ->
  (compareText (bucket s) !! text = None -> inherited text = false) ->
  anchorIsTooClose text d a s
  = (Normal false,
     mkState (set_compareText
                (<[text := default [] (compareText (bucket s) !! text) ++ [a]]>
                   (compareText (bucket s)))
                (bucket s))
             (log s)).
Proof.
  intros Hfar Hown.
  pose proof (anchorIsTooClose_spec text d a s) as H.
  destruct (anchorIsTooClose text d a s) as [[[|]|e] s'].
  - destruct H as (_ & o & Ho & Hlt). exfalso. exact (Hfar o Ho Hlt).
  - destruct H as [[_ ->] _]. reflexivity.
  - destruct H as (_ & Hnone & Hinh). rewrite (Hown Hnone) in Hinh.
    discriminate.
Qed.

(** X24. With symbol-placement line, however the pass ends, the calls of
    [addSymbol] are the symbol instances of the bucket, one for one, and of
    two calls for the same horizontal text the later one is not closer
    than symbolMinDistance / 2 to the earlier one.  In [anchorIsTooClose],
    an anchor closer than that to an anchor recorded for its text is
    answered true and the state stays as it is; an anchor that is not, for
    a text that is recorded already or is not the name of an inherited
    property, is answered false and recorded behind the earlier ones. *)
Theorem line_placement_repeat_distance glyphMap glyphPositions imageMap
    imagePositions showCollisionBoxes b :
  symbol_placement (layout (layers_0 b)) = SymbolLayout.line ->
  let s' := snd (run_performSymbolLayout glyphMap glyphPositions imageMap
                   imagePositions showCollisionBoxes b) in
  let built := addSymbol_calls (log s') in
  let symbolMinDistance :=
    EXTENT / (512 * overscaling b) * symbol_spacing (layout (layers_0 b)) in
  Forall2 built_by built (symbolInstances (bucket s'))
  /\ (forall (i j : nat) c1 c2 t,
         (i < j)%nat ->
         built !! i = Some c1 -> built !! j = Some c2 ->
         call_text c1 = Some t -> call_text c2 = Some t ->
         ~ dist (call_anchor c2) (call_anchor c1) < symbolMinDistance / 2)
  /\ (forall text a s (otherwise : M State unit),
         (exists other,
             In other (default [] (compareText (bucket s) !! text))
             /\ dist a other < symbolMinDistance / 2) ->
         anchorIsTooClose text (symbolMinDistance / 2) a s = (Normal true, s)
         /\ bind (anchorIsTooClose text (symbolMinDistance / 2) a)
                 (fun tooClose => if tooClose then ret tt else otherwise) s
            = (Normal tt, s))
  /\ (forall text a s,
         (forall other,
             In other (default [] (compareText (bucket s) !! text)) ->
             ~ dist a other < symbolMinDistance / 2) ->
         (compareText (bucket s) !! text = None -> inherited text = false) ->
         anchorIsTooClose text (symbolMinDistance / 2) a s
         = (Normal false,
            mkState (set_compareText
                       (<[text := default [] (compareText (bucket s) !! text)
                                  ++ [a]]>
                          (compareText (bucket s)))
                       (bucket s))
                    (log s))).
Proof.
  intros Hline s' built symbolMinDistance.
  destruct (run_performSymbolLayout_steps glyphMap glyphPositions imageMap
              imagePositions showCollisionBoxes b) as (k & (Hr & _) & _).
  fold s' in Hr.
  assert (Hinv : repeat_invariant (symbolMinDistance_of b / 2) s').
  { eapply (rtc_step_invariant b
              (repeat_invariant (symbolMinDistance_of b / 2)));
      [intros s1 s2; apply repeat_invariant_step; exact Hline | exact Hr |].
    split; [|split].
    - intros i j c1 c2 t _ H. cbn in H. discriminate.
    - intros c t [].
    - constructor. }
  destruct Hinv as (Hfar & _ & Hib).
  split; [exact Hib|]. split; [exact Hfar|]. split.
  - intros text a s otherwise Hclose.
    pose proof (anchorIsTooClose_true text (symbolMinDistance / 2) a s Hclose)
      as Heq.
    split; [exact Heq|]. unfold bind. rewrite Heq. reflexivity.
  - intros text a s Hfar' Hown.
    apply anchorIsTooClose_false; assumption.
Qed.

Lemma collisionFeatures_pass b l :
  Forall (pass_event b) l -> Forall icon_box_unaligned (collisionFeatures l).
Proof.
  induction 1 as [|e l He _ IH]; [constructor|].
  destruct e; cbn; try exact IH. constructor; [exact He | exact IH].
Qed.

Lemma anchor_boxScales_pass b l :
  Forall (pass_event b) l -> Forall (max_box_scale b) (anchor_boxScales l).
Proof.
  induction 1 as [|e l He _ IH]; [constructor|].
  destruct e; cbn; try exact IH; (constructor; [exact He | exact IH]).
Qed.


Ltac find_in :=
  first [ (left; reflexivity)
        | (apply in_or_app; right; left; reflexivity)
        | (apply in_or_app; left; find_in) ].

(** The collision feature of an icon, as [addSymbol] asks for it. *)
Lemma addSymbol_icon_feature anchor ln sto shapedIcon layer fi sli bi tbs tp
    tal to ibs ip ial io feature gpm sizes s :
  composite_ready (textSizeData (bucket s)) (compositeTextSizes sizes) = true ->
  In (EvCollisionFeature
        {| cf_line := ln; cf_anchor := anchor; cf_featureIndex := fi;
           cf_sourceLayerIndex := sli; cf_bucketIndex := bi;
           cf_shaped := inr shapedIcon; cf_boxScale := ibs;
           cf_padding := ip; cf_alignLine := false;
           cf_overscaling := overscaling (bucket s);
           cf_rotate := evaluate (icon_rotate (layout layer)) feature |})
     (log (final (addSymbol anchor ln sto (Some shapedIcon) layer fi sli bi
                    tbs tp tal to ibs ip ial io feature gpm sizes) s)).
Proof.
  intros Hready. apply wp_final.
  destruct s as [b l]; destruct b. cbn in Hready.
  unfold addSymbol, bucket_addToLineVertexArray, newCollisionFeature,
    bucket_addSymbols, warnOnce.
  repeat (wp_step; cbn).
  all: try (eapply wp_conseq; [apply addTextVertices_step | | ]; cbn;
            [intros r [b' l'] [(A & C & Hb)%same_frame_elim Hl];
             cbn in Hb, Hl; subst b'; cbn
            |intros s' [-> Hnr]; cbn in *; congruence]).
  all: repeat (wp_step; cbn).
  all: try (eapply wp_conseq; [apply addTextVertices_step | | ]; cbn;
            [intros r' [b'' l''] [(A' & C' & Hb')%same_frame_elim Hl'];
             cbn in Hb', Hl'; subst b''; cbn
            |intros s' [-> Hnr]; cbn in *; congruence]).
  all: repeat (wp_step; cbn).
  all: find_in.
Qed.

(** C5. No collision feature of an icon is asked to align its boxes to the
    line: not in any pass, and not in a call of [addSymbol] whose
    [iconAlongLine] is set (the icon quads are then made along the line),
    where the constructor still receives [false]. *)
Theorem icon_collision_box_never_aligned :
  (forall glyphMap glyphPositions imageMap imagePositions showCollisionBoxes b,
      Forall (fun a => forall icon, cf_shaped a = inr icon ->
                                    cf_alignLine a = false)
        (collisionFeatures
           (log (snd (run_performSymbolLayout glyphMap glyphPositions imageMap
                        imagePositions showCollisionBoxes b)))))
  /\ (forall anchor ln sto shapedIcon layer fi sli bi tbs tp tal to ibs ip io
             feature gpm sizes s,
         composite_ready (textSizeData (bucket s)) (compositeTextSizes sizes)
         = true ->
         let s' := final (addSymbol anchor ln sto (Some shapedIcon) layer
                            fi sli bi tbs tp tal to ibs ip true io
                            feature gpm sizes) s in
         In {| cf_line := ln; cf_anchor := anchor; cf_featureIndex := fi;
               cf_sourceLayerIndex := sli; cf_bucketIndex := bi;
               cf_shaped := inr shapedIcon; cf_boxScale := ibs;
               cf_padding := ip; cf_alignLine := false;
               cf_overscaling := overscaling (bucket s);
               cf_rotate := evaluate (icon_rotate (layout layer)) feature |}
            (collisionFeatures (log s'))
         /\ Forall (fun a => forall icon, cf_shaped a = inr icon ->
                                          cf_alignLine a = false)
              (skipn (length (collisionFeatures (log s)))
                     (collisionFeatures (log s')))).
Proof.
  split.
  - intros glyphMap glyphPositions imageMap imagePositions showCollisionBoxes b.
    pose proof (pass_events glyphMap glyphPositions imageMap imagePositions
                  showCollisionBoxes b) as H.
    apply (collisionFeatures_pass b) in H.
    eapply Forall_impl; [exact H|]. intros a Ha icon Hicon.
    unfold icon_box_unaligned in Ha. rewrite Hicon in Ha. exact Ha.
  - intros anchor ln sto shapedIcon layer fi sli bi tbs tp tal to ibs ip io
      feature gpm sizes s Hready s'.
    assert (Happ : forall l1 l2,
               collisionFeatures (l1 ++ l2)
               = collisionFeatures l1 ++ collisionFeatures l2)
      by (intros; apply flat_map_app).
    split.
    + pose proof (addSymbol_icon_feature anchor ln sto shapedIcon layer fi sli
                    bi tbs tp tal to ibs ip true io feature gpm sizes s Hready)
        as Hin.
      fold s' in Hin. revert Hin. generalize (log s'). intros l Hin.
      apply in_split in Hin as (l1 & l2 & ->).
      rewrite Happ. apply in_or_app. right.
      change (EvCollisionFeature ?a :: l2) with ([EvCollisionFeature a] ++ l2).
      rewrite Happ. apply in_or_app. left. left. reflexivity.
    + pose proof (addSymbol_step anchor ln sto (Some shapedIcon) layer fi sli
                    bi tbs tp tal to ibs ip true io feature gpm sizes s) as Hs.
      cbn zeta in Hs. apply wp_conseq with
        (Q' := fun _ s1 =>
                 log_ext leaf_event (log s ++ [EvAddSymbol
                   {| call_anchor := anchor; call_line := ln;
                      call_shapedText := sto;
                      call_shapedIcon := Some shapedIcon;
                      call_feature := feature |}]) (log s1))
        (R' := fun s1 =>
                 log_ext leaf_event (log s ++ [EvAddSymbol
                   {| call_anchor := anchor; call_line := ln;
                      call_shapedText := sto;
                      call_shapedIcon := Some shapedIcon;
                      call_feature := feature |}]) (log s1)) in Hs.
      2: { intros inst s1 [[_ H] _]. exact H. }
      2: { intros s1 [[_ H] _]. exact H. }
      apply wp_final in Hs. fold s' in Hs.
      destruct Hs as (evs & -> & Hevs).
      rewrite !Happ, <- app_assoc, skipn_app, skipn_all, Nat.sub_diag.
      cbn [app skipn collisionFeatures flat_map].
      clear -Hevs Happ. induction Hevs as [|e evs He _ IH]; [constructor|].
      change (e :: evs) with ([e] ++ evs). rewrite Happ.
      apply Forall_app. split; [|exact IH].
      destruct e; cbn in He |- *; try constructor; try destruct He.
      * intros icon Hicon. rewrite Hicon in He. exact He.
      * constructor.
Qed.


End WholePass.

Section SingleCalls.
Context {T : ExternalTypes} {E : Externals}.

(** The factor 256 is the only integer that puts the overflow of the
    16-bit bound at a size of 256 and not yet at 255.9. *)
Lemma SIZE_PACK_FACTOR_forced (k : Z) :
  MAX_PACKED_SIZE < inject_Z k * 256 ->
  inject_Z k * 255.9 <= MAX_PACKED_SIZE ->
  inject_Z k == SIZE_PACK_FACTOR.
Proof.
  unfold MAX_PACKED_SIZE, SIZE_PACK_FACTOR, Qlt, Qle, Qeq, inject_Z. cbn.
  lia.
Qed.

(** C1. With a source text-size function, [addTextVertices] returns, and
    what it logs is the [addSymbols] call with the packed text size,
    preceded by exactly one warning when the text size is 256 or above and
    by none when it is 255.9 (or any size whose packed value stays within
    the bound).  The packed value is handed on as it is in both cases. *)
Theorem text_size_overflow_warning anchor shapedText layer textAlongLine
    feature textOffset lineArray writingMode indices gpm sizes s (v : Q) :
  textSizeData (bucket s) = size_source ->
  evaluate (text_size (layout layer)) feature = Some v ->
  let call :=
    addTextVertices anchor shapedText layer textAlongLine feature textOffset
      lineArray writingMode indices gpm sizes in
  let warning :=
    EvWarnOnce (SizeTooLarge (head (layerIds (bucket s))) prop_text_size) in
  let passed :=
    EvAddSymbols
      {| as_arrays := buffers_text;
         as_quads :=
           getGlyphQuads
             {| gq_anchor := anchor; gq_shaping := shapedText;
                gq_layer := layer; gq_alongLine := textAlongLine;
                gq_feature := feature; gq_positions := gpm |};
         as_sizeData := Some [Some (SIZE_PACK_FACTOR * v)];
         as_lineOffset := textOffset; as_alongLine := textAlongLine;
         as_feature := feature; as_writingMode := Some writingMode;
         as_labelAnchor := anchor;
         as_lineStartIndex := lineStartIndex lineArray;
         as_lineLength := lineLength lineArray |} in
  (exists r, fst (call s) = Normal r)
  /\ (256 <= v -> log (final call s) = log s ++ [warning; passed])
  /\ (v == 255.9 -> log (final call s) = log s ++ [passed])
  /\ (SIZE_PACK_FACTOR * v <= MAX_PACKED_SIZE ->
      log (final call s) = log s ++ [passed]).
Proof.
  intros Hsd Hv call warning passed.
  assert (Hwp : wp call
                  (fun _ s' =>
                     log s'
                     = log s
                       ++ (if Qltb MAX_PACKED_SIZE (SIZE_PACK_FACTOR * v)
                           then [warning] else [])
                       ++ [passed])
                  (fun _ => False) s).
  { subst call warning passed. destruct s as [b l]. cbn in Hsd.
    unfold addTextVertices, bucket_addSymbols, warnOnce.
    apply wp_bind, wp_getBucket. cbn. rewrite Hsd, Hv. cbn.
    repeat (wp_step; cbn); rewrite <- ?app_assoc; reflexivity. }
  apply wp_returns in Hwp as (r & s' & Hrun & Hlog).
  unfold final. rewrite Hrun. cbn [fst snd]. rewrite Hlog. clear Hrun Hlog.
  split; [exists r; reflexivity|].
  destruct (Qltb MAX_PACKED_SIZE (SIZE_PACK_FACTOR * v)) eqn:Hlt.
  - apply Qltb_lt in Hlt. unfold MAX_PACKED_SIZE, SIZE_PACK_FACTOR in Hlt.
    split; [|split].
    + intros _. reflexivity.
    + intros Heq. exfalso. lra.
    + unfold MAX_PACKED_SIZE, SIZE_PACK_FACTOR. intros Hle. exfalso. lra.
  - apply Qltb_ge in Hlt. unfold MAX_PACKED_SIZE, SIZE_PACK_FACTOR in Hlt.
    split; [|split].
    + intros Hge. exfalso. lra.
    + intros _. reflexivity.
    + intros _. reflexivity.
Qed.

(** C4. For a feature with an icon shape and no horizontal text shape, an
    anchor inside the tile gets exactly one symbol instance: its text box
    range is empty, at the length the collision-box array had before, it
    has no glyph vertices, its icon box range is the boxes the icon's
    collision feature appended, and it has four icon vertices per icon
    quad. *)
Theorem icon_only_symbol_instance feature sto shapedIcon gpm sizes tbs tp
    tal to ibs ip ial io ln a s :
  shaped_horizontal sto = None ->
  inside_tile a = true ->
  composite_ready (iconSizeData (bucket s)) (compositeIconSizes sizes) = true ->
  let boxes :=
    collisionFeatureBoxes
      {| cf_line := ln; cf_anchor := a; cf_featureIndex := index feature;
         cf_sourceLayerIndex := sourceLayerIndex feature;
         cf_bucketIndex := bucket_index (bucket s);
         cf_shaped := inr shapedIcon; cf_boxScale := ibs; cf_padding := ip;
         cf_alignLine := false; cf_overscaling := overscaling (bucket s);
         cf_rotate :=
           evaluate (icon_rotate (layout (layers_0 (bucket s)))) feature |} in
  let iconQuads :=
    getIconQuads
      {| iq_anchor := a; iq_shapedIcon := shapedIcon;
         iq_layer := layers_0 (bucket s); iq_alongLine := ial;
         iq_shapedText := None; iq_feature := feature |} in
  let n := Z.of_nat (length (collisionBoxArray (bucket s))) in
  exists inst s',
    addSymbolAtAnchor feature sto (Some shapedIcon) gpm sizes tbs tp tal to
      ibs ip ial io ln a s = (Normal tt, s')
    /\ symbolInstances (bucket s') = symbolInstances (bucket s) ++ [inst]
    /\ collisionBoxArray (bucket s') = collisionBoxArray (bucket s) ++ boxes
    /\ textBoxStartIndex inst = n
    /\ textBoxEndIndex inst = n
    /\ numGlyphVertices inst = 0%Z
    /\ numVerticalGlyphVertices inst = 0%Z
    /\ placedTextSymbolIndices inst = []
    /\ iconBoxStartIndex inst = n
    /\ iconBoxEndIndex inst = (n + Z.of_nat (length boxes))%Z
    /\ numIconVertices inst = (Z.of_nat (length iconQuads) * 4)%Z
    /\ anchor inst = a.
Proof.
  intros Hnone Hin Hready boxes iconQuads n.
  enough (Hwp :
    wp (addSymbolAtAnchor feature sto (Some shapedIcon) gpm sizes tbs tp tal
          to ibs ip ial io ln a)
       (fun _ s' =>
          exists inst,
            symbolInstances (bucket s') = symbolInstances (bucket s) ++ [inst]
            /\ collisionBoxArray (bucket s')
               = collisionBoxArray (bucket s) ++ boxes
            /\ textBoxStartIndex inst = n
            /\ textBoxEndIndex inst = n
            /\ numGlyphVertices inst = 0%Z
            /\ numVerticalGlyphVertices inst = 0%Z
            /\ placedTextSymbolIndices inst = []
            /\ iconBoxStartIndex inst = n
            /\ iconBoxEndIndex inst = (n + Z.of_nat (length boxes))%Z
            /\ numIconVertices inst = (Z.of_nat (length iconQuads) * 4)%Z
            /\ anchor inst = a)
       (fun _ => False) s).
  { apply wp_returns in Hwp as ([] & s' & Heq & inst & H).
    exists inst, s'. split; [exact Heq | exact H]. }
  unfold inside_tile in Hin. apply negb_true_iff in Hin.
  unfold addSymbolAtAnchor. apply wp_bind, wp_emit. rewrite Hin.
  apply wp_bind, wp_getBucket, wp_bind.
  subst boxes iconQuads n.
  destruct s as [b l]; destruct b. cbn in Hready. cbn [bucket log].
  unfold addSymbol, bucket_addToLineVertexArray, newCollisionFeature,
    bucket_addSymbols, warnOnce.
  rewrite Hnone.
  repeat (wp_step; cbn).
  all: try (cbn in Hready; discriminate).
  all: try match goal with
           | H : compositeIconSizes _ = None |- _ =>
               rewrite H in Hready; cbn in Hready; discriminate
           end.
  all: eexists; cbn; repeat split; try reflexivity.
  all: rewrite length_app, Nat2Z.inj_add; reflexivity.
Qed.

(** C8. The pass is a function of the snapshot it is given: two buckets
    that agree on everything but the fields the head of the pass overwrites
    ([symbolInstances], [tilePixelRatio], [compareText], [iconsNeedLinear])
    give, with the same glyph and image maps, the same outcome, the same
    bucket with the same symbol instances in the same order, and the same
    log.  The features, the layer, the size data, the collision-box array,
    the arrays and [sdfIcons] are part of the snapshot. *)
Theorem performSymbolLayout_deterministic glyphMap glyphPositions imageMap
    imagePositions showCollisionBoxes b1 b2 :
  same_snapshot b1 b2 ->
  let r1 := run_performSymbolLayout glyphMap glyphPositions imageMap
              imagePositions showCollisionBoxes b1 in
  let r2 := run_performSymbolLayout glyphMap glyphPositions imageMap
              imagePositions showCollisionBoxes b2 in
  r1 = r2
  /\ symbolInstances (bucket (snd r1)) = symbolInstances (bucket (snd r2))
  /\ collisionBoxArray (bucket (snd r1)) = collisionBoxArray (bucket (snd r2)).
Proof.
  intros Hsame r1 r2.
  assert (Heq : r1 = r2).
  { subst r1 r2. destruct b1, b2. unfold same_snapshot in Hsame.
    cbn in Hsame. injection Hsame as -> -> -> -> -> -> -> -> -> -> -> ->.
    reflexivity. }
  rewrite Heq. auto.
Qed.

End SingleCalls.

Section BoxScales.
Context {T : ExternalTypes} {E : Externals}.

Lemma anchor_boxScales_app l1 l2 :
  anchor_boxScales (l1 ++ l2) = anchor_boxScales l1 ++ anchor_boxScales l2.
Proof. apply flat_map_app. Qed.

Lemma leaf_events_no_search evs :
  Forall leaf_event evs -> anchor_boxScales evs = [].
Proof.
  induction 1 as [|e evs He _ IH]; [reflexivity|].
  change (e :: evs) with ([e] ++ evs). rewrite anchor_boxScales_app, IH.
  destruct e; cbn in He |- *; try reflexivity; destruct He.
Qed.

Lemma repeat_snoc {A} (x : A) n : repeat x n ++ [x] = repeat x (S n).
Proof. induction n as [|n IH]; [reflexivity|]. cbn. rewrite IH. reflexivity. Qed.

Lemma scaled_refl b sc s : within b s -> scaled b sc 0 s s.
Proof.
  intros Hw. split; [exact Hw|]. exists []. rewrite app_nil_r.
  split; reflexivity.
Qed.

(** An event that is no anchor search leaves the count as it is. *)
Lemma scaled_quiet b sc n s0 s e :
  anchor_boxScales [e] = [] ->
  scaled b sc n s0 s ->
  scaled b sc n s0 (mkState (bucket s) (log s ++ [e])).
Proof.
  intros He [Hw (evs & Hl & Hsc)]. split; [exact Hw|].
  exists (evs ++ [e]). cbn [log]. rewrite Hl, <- app_assoc.
  split; [reflexivity|].
  rewrite anchor_boxScales_app, He, app_nil_r. exact Hsc.
Qed.

(** An anchor search with the box scale adds one to the count. *)
Lemma scaled_search b sc n s0 s e :
  anchor_boxScales [e] = [sc] ->
  scaled b sc n s0 s ->
  scaled b sc (S n) s0 (mkState (bucket s) (log s ++ [e])).
Proof.
  intros He [Hw (evs & Hl & Hsc)]. split; [exact Hw|].
  exists (evs ++ [e]). cbn [log]. rewrite Hl, <- app_assoc.
  split; [reflexivity|].
  rewrite anchor_boxScales_app, He, Hsc. apply repeat_snoc.
Qed.

(** Writing a field the loop over the features writes. *)
Lemma scaled_bucket b sc n s0 s bk :
  within b (mkState bk (log s)) ->
  scaled b sc n s0 s -> scaled b sc n s0 (mkState bk (log s)).
Proof. intros Hw [_ H]. split; [exact Hw | exact H]. Qed.

Lemma scaled_trans b sc n m s0 s1 s2 :
  scaled b sc n s0 s1 -> scaled b sc m s1 s2 -> scaled b sc (n + m) s0 s2.
Proof.
  intros [_ (e1 & Hl1 & H1)] [Hw (e2 & Hl2 & H2)]. split; [exact Hw|].
  exists (e1 ++ e2). rewrite Hl2, Hl1, <- app_assoc. split; [reflexivity|].
  rewrite anchor_boxScales_app, H1, H2. symmetry. apply repeat_app.
Qed.

Lemma offered_within b ln c s s' :
  offered ln c s s' -> within b s -> within b s'.
Proof.
  destruct s as [bk l], s' as [bk' l']. unfold offered.
  destruct (inside_tile (call_anchor c)).
  - intros (inst & A & C & _ & Hb & _) Hw. cbn in Hb. subst bk'.
    eapply within_storage. exact Hw.
  - intros [= -> ->] Hw. exact Hw.
Qed.

(** Offering an anchor makes no anchor search. *)
Lemma offered_scaled b sc n ln c s0 s s' :
  offered ln c s s' -> scaled b sc n s0 s -> scaled b sc n s0 s'.
Proof.
  intros Hoff [Hw (evs & Hl & Hsc)].
  split; [eapply offered_within; eassumption|].
  unfold offered in Hoff. destruct (inside_tile (call_anchor c)).
  - destruct Hoff as (inst & A & C & _ & _ & evs' & Hl' & Hleaf).
    exists (evs ++ [EvAddSymbolAtAnchor ln (call_anchor c); EvAddSymbol c]
              ++ evs').
    rewrite Hl', Hl, <- !app_assoc. split; [reflexivity|].
    rewrite !anchor_boxScales_app, (leaf_events_no_search _ Hleaf).
    cbn. rewrite app_nil_r. exact Hsc.
  - subst s'. cbn [log]. exists (evs ++ [EvAddSymbolAtAnchor ln (call_anchor c)]).
    rewrite Hl, <- app_assoc. split; [reflexivity|].
    rewrite anchor_boxScales_app. cbn. rewrite app_nil_r. exact Hsc.
Qed.

Lemma offer_scaled b sc n s0 feature sto icon gpm tbs tp tal to ibs ip ial io
    ln a (R : State -> Prop) s :
  scaled b sc n s0 s ->
  wp (addSymbolAtAnchor feature sto icon gpm (computeSizes b)
        tbs tp tal to ibs ip ial io ln a)
     (fun _ => scaled b sc n s0) R s.
Proof.
  intros Hs.
  eapply wp_conseq; [apply addSymbolAtAnchor_spec | |]; cbn.
  - intros _ s' Hoff. eapply offered_scaled; eassumption.
  - intros s' Hc. rewrite (within_sizes_cover b s (proj1 Hs)) in Hc.
    discriminate.
Qed.

Lemma record_offer_scaled b sc n s0 feature sto icon gpm tbs tp tal to
    ibs ip ial io ln a text d s :
  scaled b sc n s0 s ->
  wp (bind (anchorIsTooClose text d a)
           (fun tooClose =>
              if tooClose then ret tt
              else addSymbolAtAnchor feature sto icon gpm (computeSizes b)
                     tbs tp tal to ibs ip ial io ln a))
     (fun _ => scaled b sc n s0) (scaled b sc n s0) s.
Proof.
  intros Hs. apply wp_bind. unfold wp at 1.
  pose proof (anchorIsTooClose_spec text d a s) as Hspec.
  destruct (anchorIsTooClose _ _ a s) as [[[|]|e] s1].
  - destruct Hspec as [-> _]. apply wp_ret. exact Hs.
  - destruct Hspec as [[_ ->] _].
    apply offer_scaled. apply scaled_bucket; [|exact Hs].
    destruct Hs as [Hw _]. unfold within in *. cbn. rewrite Hw. reflexivity.
  - destruct Hspec as [-> _]. exact Hs.
Qed.

(** The anchor searches of the layout of a feature all receive the box
    scale of that feature; when the layout returns, there has been one
    search for each line searched. *)
Lemma addFeature_scaled b feature sto icon gpm s :
  within b s ->
  wp (addFeature feature sto icon gpm (computeSizes b))
     (fun _ => scaled b (textMaxBoxScale_of b feature) (searches b feature) s)
     (fun s' => exists n, scaled b (textMaxBoxScale_of b feature) n s s')
     s.
Proof.
  intros Hw. pose proof (scaled_refl b (textMaxBoxScale_of b feature) s Hw)
    as H0.
  set (sc := textMaxBoxScale_of b feature) in *.
  unfold addFeature. apply wp_bind, wp_getBucket.
  rewrite (within_field layers_0 b s Hw),
          (within_field tilePixelRatio b s Hw),
          (within_field overscaling b s Hw).
  cbn. unfold searches.
  destruct (symbol_placement (layout (layers_0 b))) eqn:Hp.
  - destruct (type feature).
    + apply wp_ret. exact H0.
    + apply wp_forEach; [exact H0|]. intros points s1 _ H1.
      apply wp_forEach; [exact H1|]. intros p s2 _ H2.
      apply offer_scaled. exact H2.
    + apply wp_forEach; [exact H0|]. intros [|p ln] s1 _ H1.
      * apply wp_throw. exists 0%nat. exact H1.
      * apply offer_scaled. exact H1.
    + apply wp_forEach; [exact H0|]. intros polygon s1 _ H1.
      apply offer_scaled. exact H1.
  - eapply wp_conseq.
    + apply wp_forEach_indexed with
        (I := fun pre => scaled b sc (length pre) s)
        (R := fun s' => exists n, scaled b sc n s s'); [exact H0|].
      intros pre ln post s1 _ H1.
      unfold getAnchors_logged.
      apply wp_bind, wp_bind, wp_emit, wp_ret.
      rewrite length_app, Nat.add_comm. cbn [length Nat.add].
      apply wp_forEach.
      * apply scaled_search; [reflexivity | exact H1].
      * intros a s2 _ H2.
        destruct (shaped_horizontal sto) as [shapedText|].
        -- eapply wp_conseq; [apply record_offer_scaled; exact H2 | |];
             cbn; eauto.
        -- apply offer_scaled. exact H2.
    + auto.
    + auto.
  - eapply wp_conseq.
    + apply wp_forEach_indexed with
        (I := fun pre =>
                scaled b sc
                  (length (List.filter (fun ln => (1 <? length ln)%nat) pre)) s)
        (R := fun s' => exists n, scaled b sc n s s'); [exact H0|].
      intros pre ln post s1 _ H1.
      rewrite List.filter_app, length_app, Nat.add_comm. cbn [List.filter].
      change (match length ln with S (S _) => true | _ => false end)
        with (1 <? length ln)%nat.
      destruct (1 <? length ln)%nat eqn:Hlong.
      2: { apply wp_ret. exact H1. }
      cbn [length Nat.add].
      unfold getCenterAnchor_logged.
      apply wp_bind, wp_bind, wp_emit, wp_ret.
      match goal with
      | |- wp _ _ _ ?st =>
          assert (H2 : scaled b sc
                         (S (length (List.filter
                                       (fun ln => (1 <? length ln)%nat) pre)))
                         s st)
            by (apply scaled_search; [reflexivity | exact H1])
      end.
      destruct (getCenterAnchor _) as [a|].
      * apply offer_scaled. exact H2.
      * apply wp_ret. exact H2.
    + auto.
    + auto.
Qed.

(** The same for the body of the loop of [performSymbolLayout]: the anchor
    searches made for a feature all receive the box scale of that
    feature. *)
Lemma performSymbolLayout_feature_scaled b glyphMap glyphPositions imageMap
    imagePositions f s :
  within b s ->
  wp (performSymbolLayout_feature glyphMap glyphPositions imageMap
        imagePositions (layout (layers_0 b)) (computeSizes b)
        (text_line_height (layout (layers_0 b)) * oneEm)
        (textAlongLine_of (layout (layers_0 b)))
        (text_keep_upright (layout (layers_0 b))) f)
     (fun _ s' => exists n, scaled b (textMaxBoxScale_of b f) n s s')
     (fun s' => exists n, scaled b (textMaxBoxScale_of b f) n s s')
     s.
Proof.
  intros Hw. set (sc := textMaxBoxScale_of b f).
  pose proof (scaled_refl b sc s Hw) as H0.
  unfold performSymbolLayout_feature.
  apply wp_bind.
  eapply wp_conseq with
    (Q := fun (sto : ShapedTextOrientations) s' => scaled b sc 0 s s')
    (R := fun _ => False).
  { unfold shapeText_logged.
    destruct (truthy_text (text f)) as [t|].
    - apply wp_bind, wp_bind, wp_emit, wp_ret.
      destruct (allowsVerticalWritingMode _ && _ && _).
      + apply wp_bind, wp_bind, wp_emit, wp_ret, wp_ret.
        apply scaled_quiet; [reflexivity|].
        apply scaled_quiet; [reflexivity | exact H0].
      + apply wp_ret. apply scaled_quiet; [reflexivity | exact H0].
    - apply wp_ret. exact H0. }
  2: { intros s' []. }
  intros sto s1 H1.
  apply wp_bind.
  eapply wp_conseq with
    (Q := fun (_ : option PositionedIcon) s' => scaled b sc 0 s s')
    (R := fun _ => False).
  { destruct (truthy_icon (icon f)) as [name|]; [|apply wp_ret; exact H1].
    destruct (imageMap name) as [image|]; [|apply wp_ret; exact H1].
    apply wp_bind, wp_getBucket, wp_bind.
    assert (Hset : forall s2 g,
               (forall bk, rebuild b (g bk) = g (rebuild b bk)) ->
               scaled b sc 0 s s2 ->
               scaled b sc 0 s (mkState (g (bucket s2)) (log s2))).
    { intros s2 g Hg H2. apply scaled_bucket; [|exact H2].
      destruct H2 as [Hw2 _]. unfold within in *. cbn [bucket].
      rewrite Hg, <- Hw2. reflexivity. }
    eapply wp_conseq with
      (Q := fun _ s' => scaled b sc 0 s s')
      (R := fun _ => False).
    { destruct (sdfIcons (bucket s1)).
      - wp_step.
        + apply wp_emit. apply scaled_quiet; [reflexivity | exact H1].
        + apply wp_ret. exact H1.
      - apply wp_update. apply Hset; [reflexivity | exact H1]. }
    2: { intros s' []. }
    cbn. intros _ s2 H2. apply wp_bind.
    destruct (negb (Qeq_bool (image_pixelRatio image) (pixelRatio (bucket s1)))).
    - apply wp_update, wp_ret. apply Hset; [reflexivity | exact H2].
    - wp_step.
      + apply wp_update, wp_ret. apply Hset; [reflexivity | exact H2].
      + apply wp_ret, wp_ret. exact H2. }
  2: { intros s' []. }
  cbn. intros shapedIcon s2 H2.
  destruct (truthy (shaped_horizontal sto) || truthy shapedIcon).
  - eapply wp_conseq; [apply addFeature_scaled; exact (proj1 H2) | |]; cbn.
    + intros _ s3 H3. eexists. eapply scaled_trans; eassumption.
    + intros s3 [n H3]. eexists. eapply scaled_trans; eassumption.
  - apply wp_ret. exists 0%nat. exact H2.
Qed.

(** The box scales of a pass, feature by feature. *)
Lemma performSymbolLayout_scaled glyphMap glyphPositions imageMap
    imagePositions showCollisionBoxes b :
  let blocks ns :=
    concat (zip_with (fun f n => repeat (textMaxBoxScale_of b f) n)
                     (features b) ns) in
  wp (performSymbolLayout glyphMap glyphPositions imageMap imagePositions
        showCollisionBoxes)
     (fun _ s' =>
        exists ns, length ns = length (features b)
                   /\ anchor_boxScales (log s') = blocks ns)
     (fun s' =>
        exists ns, (length ns <= length (features b))%nat
                   /\ anchor_boxScales (log s') = blocks ns)
     (mkState b []).
Proof.
  intros blocks. unfold performSymbolLayout.
  do 2 (apply wp_bind, wp_update). apply wp_bind, wp_getBucket.
  do 3 (apply wp_bind, wp_update). cbn.
  change (computeSizes (set_symbolInstances [] _)) with (computeSizes b).
  change (_ && negb _) with (textAlongLine_of (layout (layers_0 b))).
  set (s0 := mkState (reset b) []).
  assert (Hw0 : within b s0) by reflexivity.
  set (g := fun f n => repeat (textMaxBoxScale_of b f) n).
  apply wp_bind.
  eapply wp_conseq with
    (Q := fun _ s' =>
            exists ns, length ns = length (features b)
                       /\ anchor_boxScales (log s') = blocks ns)
    (R := fun s' =>
            exists ns, (length ns <= length (features b))%nat
                       /\ anchor_boxScales (log s') = blocks ns).
  - change ({| bucket := _; log := [] |}) with s0.
    eapply wp_conseq.
    + apply wp_forEach_indexed with
        (I := fun pre s' =>
                within b s'
                /\ exists ns, length ns = length pre
                              /\ anchor_boxScales (log s')
                                 = concat (zip_with g pre ns))
        (R := fun s' =>
                exists ns, (length ns <= length (features b))%nat
                           /\ anchor_boxScales (log s') = blocks ns).
      * split; [exact Hw0|]. exists []. split; reflexivity.
      * intros pre x post s1 Hl (Hw1 & ns & Hlen & Hsc).
        assert (Hgoal : forall s',
                   (exists n, scaled b (textMaxBoxScale_of b x) n s1 s') ->
                   within b s'
                   /\ exists ns', length ns' = length (pre ++ [x])
                                  /\ anchor_boxScales (log s')
                                     = concat (zip_with g (pre ++ [x]) ns')).
        { intros s' (n & Hw' & evs & Hlog & Hevs). split; [exact Hw'|].
          exists (ns ++ [n]). split.
          - rewrite !length_app, Hlen. reflexivity.
          - rewrite Hlog, anchor_boxScales_app, Hsc, Hevs.
            rewrite zip_with_app by (symmetry; exact Hlen).
            rewrite concat_app. cbn. rewrite app_nil_r. reflexivity. }
        eapply wp_conseq;
          [apply performSymbolLayout_feature_scaled; exact Hw1 | |].
        -- intros u s' Hs'. apply Hgoal. exact Hs'.
        -- intros s' Hs'. destruct (Hgoal s' Hs') as (_ & ns' & Hlen' & Hsc').
           exists ns'. split.
           ++ rewrite Hlen', Hl, !length_app. cbn. lia.
           ++ rewrite Hsc'. unfold blocks. rewrite Hl.
              replace (pre ++ x :: post) with ((pre ++ [x]) ++ post)
                by (rewrite <- app_assoc; reflexivity).
              replace ns' with (ns' ++ []) at 2 by apply app_nil_r.
              rewrite zip_with_app by (symmetry; exact Hlen').
              rewrite zip_with_nil_r, app_nil_r. reflexivity.
    + intros u s' (_ & ns & Hlen & Hsc). exists ns. split; assumption.
    + auto.
  - intros u s1 (ns & Hlen & Hsc). wp_step; [|exists ns; split; assumption].
    apply wp_bind, wp_emit, wp_update. cbn [log bucket].
    exists ns. split; [exact Hlen|].
    rewrite anchor_boxScales_app. cbn. rewrite app_nil_r. exact Hsc.
  - auto.
Qed.

(** C7. The max text size is the text-size expression evaluated at zoom
    18, the layout text size the one at the bucket's zoom plus one.  The
    box scale of a feature is computed from the zoom-18 size of that
    feature or, where that is undefined, from the layout text size of that
    feature.  Every anchor search [addFeature] makes for a feature
    receives the box scale of that feature, and when [addFeature] returns
    it has made one search for each line it searched; the same holds of
    the body of the loop over the features; and the box scales of a whole
    pass are, feature by feature in the order of the bucket, blocks of the
    box scale of each feature. *)
Theorem text_max_size_at_zoom_18 glyphMap glyphPositions imageMap
    imagePositions showCollisionBoxes b :
  let scale f :=
    jsdiv
      (jsmul (Some (EXTENT / (512 * overscaling b)))
         match evaluate (unevaluated_text_size (layers_0 b) 18) f with
         | Some v => Some v
         | None => evaluate (layoutTextSize (computeSizes b)) f
         end)
      (Some 24) in
  textMaxSize (computeSizes b) = unevaluated_text_size (layers_0 b) 18
  /\ layoutTextSize (computeSizes b)
     = unevaluated_text_size (layers_0 b) (zoom b + 1)
  /\ (forall f sto icon gpm s,
         within b s ->
         let r := addFeature f sto icon gpm (computeSizes b) s in
         exists evs n,
           log (snd r) = log s ++ evs
           /\ anchor_boxScales evs = repeat (scale f) n
           /\ (fst r = Normal tt -> n = searches b f))
  /\ (forall f s,
         within b s ->
         let s' :=
           final (performSymbolLayout_feature glyphMap glyphPositions
                    imageMap imagePositions (layout (layers_0 b))
                    (computeSizes b)
                    (text_line_height (layout (layers_0 b)) * oneEm)
                    (textAlongLine_of (layout (layers_0 b)))
                    (text_keep_upright (layout (layers_0 b))) f) s in
         within b s'
         /\ exists evs n,
              log s' = log s ++ evs
              /\ anchor_boxScales evs = repeat (scale f) n)
  /\ (let r := run_performSymbolLayout glyphMap glyphPositions imageMap
                 imagePositions showCollisionBoxes b in
      exists ns,
        (length ns <= length (features b))%nat
        /\ anchor_boxScales (log (snd r))
           = concat (zip_with (fun f n => repeat (scale f) n)
                              (features b) ns)
        /\ (fst r = Normal tt -> length ns = length (features b))).
Proof.
  intros scale.
  change scale with (textMaxBoxScale_of b).
  split; [reflexivity|]. split; [reflexivity|]. split; [|split].
  - intros f sto icon gpm s Hw r.
    pose proof (addFeature_scaled b f sto icon gpm s Hw) as H.
    unfold wp in H. subst r.
    destruct (addFeature f sto icon gpm (computeSizes b) s) as [[[]|e] s'];
      cbn [fst snd].
    + destruct H as [_ (evs & Hl & Hsc)]. exists evs, (searches b f). auto.
    + destruct H as (n & _ & evs & Hl & Hsc). exists evs, n.
      split; [exact Hl|]. split; [exact Hsc | discriminate].
  - intros f s Hw s'.
    pose proof (performSymbolLayout_feature_scaled b glyphMap glyphPositions
                  imageMap imagePositions f s Hw) as H.
    apply wp_final in H. fold s' in H.
    destruct H as (n & Hw' & evs & Hl & Hsc).
    split; [exact Hw'|]. exists evs, n. auto.
  - pose proof (performSymbolLayout_scaled glyphMap glyphPositions imageMap
                  imagePositions showCollisionBoxes b) as H.
    cbn zeta in H. unfold wp in H. unfold run_performSymbolLayout.
    destruct (performSymbolLayout _ _ _ _ _ _) as [[[]|e] s'];
      cbn [fst snd].
    + destruct H as (ns & Hlen & Hsc). exists ns.
      split; [lia|]. split; [exact Hsc | auto].
    + destruct H as (ns & Hlen & Hsc). exists ns.
      split; [exact Hlen|]. split; [exact Hsc | discriminate].
Qed.

End BoxScales.

(** ** The properties at the inputs of [Demo] *)

Import Demo.

Lemma text_size_overflow_warning_witness :
  head (log (final (addTextVertices (newAnchor 10 10 0) "AB"%string
                      (demo_layer point (Some 300)) false demo_lake (0, 0)
                      {| lineStartIndex := 0; lineLength := 1 |} horizontal
                      [] tt (computeSizes (bucket demo_source_state)))
                   demo_source_state))
  = Some (EvWarnOnce (SizeTooLarge (Some "labels"%string) prop_text_size)).
Proof.
  pose proof (text_size_overflow_warning (newAnchor 10 10 0) "AB"%string
                (demo_layer point (Some 300)) false demo_lake (0, 0)
                {| lineStartIndex := 0; lineLength := 1 |} horizontal
                [] tt (computeSizes (bucket demo_source_state))
                demo_source_state 300 eq_refl eq_refl) as (_ & Hwarn & _).
  rewrite Hwarn; [reflexivity|]. unfold Qle. cbn. lia.
Defined.

Lemma line_placement_repeat_distance_witness :
  Forall2 built_by
    (addSymbol_calls (log (snd (demo_run demo_line_bucket))))
    (symbolInstances (bucket (snd (demo_run demo_line_bucket)))).
Proof.
  exact (proj1 (line_placement_repeat_distance tt tt demo_images
                  (fun _ => Some tt) false demo_line_bucket eq_refl)).
Defined.

Lemma icon_only_symbol_instance_witness :
  exists inst,
    symbolInstances
      (bucket (final (addSymbolAtAnchor demo_star demo_unshaped
                        (@Some PositionedIcon tt) tt
                        (computeSizes demo_point_bucket) None 2 false (0, 0)
                        (Some 1) 2 false (0, 0) [mkPoint 10 10]
                        (newAnchor 10 10 0))
                     (mkState demo_point_bucket [])))
    = [inst]
    /\ textBoxStartIndex inst = 0%Z
    /\ textBoxEndIndex inst = 0%Z
    /\ numGlyphVertices inst = 0%Z.
Proof.
  destruct (icon_only_symbol_instance (E := demo) demo_star demo_unshaped
              tt tt (computeSizes demo_point_bucket) None 2 false (0, 0)
              (Some 1) 2 false (0, 0) [mkPoint 10 10] (newAnchor 10 10 0)
              (mkState demo_point_bucket []) eq_refl eq_refl eq_refl)
    as (inst & s' & Hrun & Hsi & _ & Hstart & Hend & Hglyphs & _).
  exists inst. unfold final. rewrite Hrun.
  split; [exact Hsi|]. split; [exact Hstart|]. split; [exact Hend|].
  exact Hglyphs.
Defined.

Lemma performSymbolLayout_deterministic_witness :
  demo_run demo_line_bucket
  = demo_run (set_tilePixelRatio 5
                (set_compareText {[ "LAKE"%string := [newAnchor 100 100 0] ]}
                   demo_line_bucket)).
Proof.
  refine (proj1 (performSymbolLayout_deterministic tt tt demo_images
                   (fun _ => Some tt) false demo_line_bucket
                   (set_tilePixelRatio 5
                      (set_compareText
                         {[ "LAKE"%string := [newAnchor 100 100 0] ]}
                         demo_line_bucket))
                   _)).
  unfold same_snapshot. cbn. reflexivity.
Defined.

(** The pass on the three anchors of LAKE: the second, 5 units from the
    first, is dropped; the first and the third get a symbol instance. *)
Example demo_lake_instances :
  map anchor (symbolInstances (bucket (snd (demo_run demo_line_bucket))))
  = [newAnchor 100 100 0; newAnchor 4000 100 0].
Proof. vm_compute. reflexivity. Qed.

(** A label named like a property that every object inherits: the test
    [text in compareText] is true on the empty map, and the pass ends with
    an exception at the first anchor, before any symbol instance. *)
Example demo_constructor_throws :
  let r := demo_run (demo_bucket line (Some 16) size_constant
                       [demo_constructor]) in
  fst r = Throw "TypeError" /\ symbolInstances (bucket (snd r)) = [].
Proof. vm_compute. split; reflexivity. Qed.

(** Two lines in one bucket: the first with a text size of 12 at zoom 18,
    the second with none at zoom 18 and 48 at the layout zoom.  Each anchor
    search receives the box scale of its own feature. *)
Example demo_box_scales :
  map (option_map Qred)
      (anchor_boxScales (log (snd (demo_run DemoInputs.demo_sized_bucket))))
  = [Some 8; Some 32].
Proof. vm_compute. reflexivity. Qed.

(** C3. The first-seen anchor of a text does not always win.  With
    symbol-placement line and the label constructor, the anchor search of
    the line finds the anchors (100, 100) and (4000, 100), both inside the
    tile and 3900 apart, where symbolMinDistance / 2 is 2000.  No anchor
    is recorded for the text when the first of them comes, yet
    [anchorIsTooClose] raises a TypeError for it: the pass ends there, no
    anchor is offered to [addSymbolAtAnchor], and the bucket has no symbol
    instance.  The same line with the label builder gets a symbol instance
    at each of the two anchors. *)
Theorem first_seen_anchor_lost :
  let b := demo_bucket line (Some 16) size_constant [demo_constructor] in
  let r := demo_run b in
  let found :=
    map snd (flat_map LayoutReadings.found_anchors
               (LayoutReadings.getAnchors_calls (log (snd r)))) in
  let first := newAnchor 100 100 0 in
  let second := newAnchor 4000 100 0 in
  found = [first; second]
  /\ forallb inside_tile found = true
  /\ symbolMinDistance_of b / 2 == 2000
  /\ dist second first == 3900
  /\ compareText (reset b) = ∅
  /\ anchorIsTooClose "constructor" (symbolMinDistance_of b / 2) first
       (mkState (reset b) [])
     = (Throw "TypeError", mkState (reset b) [])
  /\ fst r = Throw "TypeError"
  /\ candidates (log (snd r)) = []
  /\ symbolInstances (bucket (snd r)) = []
  /\ map anchor
       (symbolInstances
          (bucket (snd (demo_run (demo_bucket line (Some 16) size_constant
                                    [DemoInputs.demo_builder])))))
     = [first; second].
Proof.
  cbv zeta. repeat split; vm_compute; reflexivity.
Qed.

End LayoutProperties.

(** ** Collision debug drawing *)

Module DebugProperties.
Import CollisionDebug DebugVocabulary.

(** Linear arithmetic over the rationals, with the divisions by 2 and by 4
    of the source written as products. *)
Ltac qarith :=
  unfold Qdiv in *;
  change (/ 4) with (1 # 4) in *;
  change (/ 2) with (1 # 2) in *;
  lra.

Section Renderer.
Context {T : ExternalTypes} {E : Externals}.

Lemma js_length_nonneg {A} (l : list A) : 0 <= js_length l.
Proof.
  unfold js_length, Qle, inject_Z. cbn. lia.
Qed.



Lemma visitTile_covered painter sourceCache layer translate translateAnchor
    isText v coord :
  visit_covered v ->
  visit_covered (visitTile painter sourceCache layer translate translateAnchor
                           isText v coord).
Proof.
  intros (Hoff & Hnn & Hb). unfold visitTile.
  destruct (getBucket _ _) as [bucket|]; [|repeat split; assumption].
  pose proof (js_length_nonneg (collisionCircleArray bucket)) as Hlen.
  assert (Hgrow : visit_covered
            (if (0 <? length (collisionCircleArray bucket))%nat
             then
               {| tileBatches :=
                    tileBatches v
                      ++ [{| circleArray := collisionCircleArray bucket;
                             circleOffset := visit_circleOffset v;
                             batch_transform :=
                               if negb (Qeq_bool (fst translate) 0)
                                  || negb (Qeq_bool (snd translate) 0)
                               then translatePosMatrix painter
                                      (getCollisionDebugTileProjectionMatrix
                                         coord bucket (transform painter))
                                      (getTile sourceCache coord) translate
                                      translateAnchor
                               else getCollisionDebugTileProjectionMatrix
                                      coord bucket (transform painter);
                             invTransform :=
                               mat4_mul
                                 (mat4_mul (placementInvProjMatrix bucket)
                                    (glCoordMatrix (transform painter)))
                                 (placementViewportMatrix bucket);
                             projection := getProjection bucket |}];
                  circleCount :=
                    circleCount v + js_length (collisionCircleArray bucket) / 4;
                  visit_circleOffset :=
                    circleCount v + js_length (collisionCircleArray bucket) / 4;
                  visit_log := visit_log v |}
             else v)).
  { destruct (0 <? length (collisionCircleArray bucket))%nat;
      [|repeat split; assumption].
    unfold visit_covered. cbn [tileBatches circleCount visit_circleOffset].
    split; [reflexivity|]. split; [qarith|].
    apply Forall_app. split.
    - eapply Forall_impl; [exact Hb|]. unfold batch_covered.
      intros b Hle. qarith.
    - repeat constructor. unfold batch_covered.
      cbn [circleArray circleOffset]. qarith. }
  destruct (if isText then textCollisionBox bucket else iconCollisionBox bucket);
    [|exact Hgrow].
  destruct Hgrow as (H1 & H2 & H3). repeat split; assumption.
Qed.

Lemma visitTiles_covered painter sourceCache layer coords translate
    translateAnchor isText :
  visit_covered (visitTiles painter sourceCache layer coords translate
                            translateAnchor isText).
Proof.
  unfold visitTiles.
  set (v0 := {| tileBatches := []; circleCount := 0; visit_circleOffset := 0;
                visit_log := [EvGetOrCreateProgram "collisionBox"] |}).
  assert (H0 : visit_covered v0).
  { unfold visit_covered. cbn. split; [reflexivity|]. split; [lra | constructor]. }
  revert H0. generalize v0. clear v0.
  induction coords as [|c coords IH]; intros v Hv; [exact Hv|].
  cbn [fold_left]. apply IH. apply visitTile_covered. exact Hv.
Qed.


Lemma emplaceCircle_after arr cs i :
  emplaceCircle arr (emplaced_after cs) i = emplaced_after (cs ++ [(arr, i)]).
Proof.
  unfold emplaceCircle, emplaced_after. cbn [fst snd].
  rewrite imap_app, concat_app, length_app. cbn [imap concat length app].
  rewrite app_nil_r. unfold quad_of_circle, circle_vertex.
  cbn [fst snd]. rewrite (Nat.add_0_r (length cs)).
  f_equal. lia.
Qed.

Lemma emplaceCircles_after arr cs ixs :
  fold_left (emplaceCircle arr) ixs (emplaced_after cs)
  = emplaced_after (cs ++ map (fun i => (arr, i)) ixs).
Proof.
  revert cs. induction ixs as [|i ixs IH]; intros cs.
  - cbn. rewrite app_nil_r. reflexivity.
  - cbn [fold_left map]. rewrite emplaceCircle_after, IH, <- app_assoc.
    reflexivity.
Qed.

Lemma emplaceBatches_after batches cs :
  fold_left emplaceBatch batches (emplaced_after cs)
  = emplaced_after (cs ++ circles_of batches).
Proof.
  revert cs. induction batches as [|b batches IH]; intros cs.
  - cbn. rewrite app_nil_r. reflexivity.
  - cbn [fold_left]. unfold emplaceBatch at 2.
    rewrite emplaceCircles_after, IH, <- app_assoc. reflexivity.
Qed.

Lemma rounds_whole_circles {A} (arr : list A) (n : nat) :
  length arr = (4 * n)%nat -> rounds (js_length arr / 4) = n.
Proof.
  intros Hlen. unfold rounds, js_length. rewrite Hlen.
  assert (Heq : inject_Z (Z.of_nat (4 * n)) / 4 == inject_Z (Z.of_nat n)).
  { rewrite Nat2Z.inj_mul, inject_Z_mult. field. }
  rewrite (Qceiling_comp _ _ Heq), Qceiling_Z. apply Nat2Z.id.
Qed.

(** C9. A call keeps the shared quad index buffer unless it draws circles
    and the buffer is shorter than two triangles per circle of the frame
    (or absent); then it builds one of just that length.  So the length
    never decreases, in one call or over any sequence of frames, and after
    a call that draws circles it covers the triangles of every batch.  A
    call that draws circles ends by destroying the vertex buffer and the
    index buffer, after the draw call of the last batch; a call that draws
    none creates and destroys no buffer. *)
Theorem quad_index_buffer_reuse painter sourceCache layer coords translate
    translateAnchor isText quadTriangles :
  let v := visitTiles painter sourceCache layer coords translate
                      translateAnchor isText in
  let r := drawCollisionDebug painter sourceCache layer coords translate
             translateAnchor isText quadTriangles in
  let drawn := draws_circles isText v in
  (forall q, quadTriangles = Some q ->
             circleCount v * 2 <= quad_length q -> fst r = Some q)
  /\ (forall q, quadTriangles = Some q ->
                fst r = Some q
                \/ (drawn = true
                    /\ quad_length q < circleCount v * 2
                    /\ fst r = Some (createQuadTriangles (circleCount v))))
  /\ (forall q, quadTriangles = Some q ->
                exists q', fst r = Some q' /\ quad_length q <= quad_length q')
  /\ (drawn = true ->
      exists q',
        fst r = Some q'
        /\ circleCount v * 2 <= quad_length q'
        /\ Forall (batch_covered (quad_length q')) (tileBatches v)
        /\ snd r
           = visit_log v
             ++ [EvGetOrCreateProgram "collisionCircle";
                 EvCreateIndexBuffer q';
                 EvCreateVertexBuffer
                   (circleVertexData (tileBatches v) (circleCount v))]
             ++ map drawBatch (tileBatches v)
             ++ [EvDestroyVertexBuffer; EvDestroyIndexBuffer])
  /\ (drawn = false -> r = (quadTriangles, visit_log v))
  /\ (forall frames q,
         exists q',
           drawFrames frames (Some q) = Some q'
           /\ quad_length q <= quad_length q').
Proof.
  assert (Hcall : forall painter sourceCache layer coords translate
                         translateAnchor isText quadTriangles,
    let v := visitTiles painter sourceCache layer coords translate
                        translateAnchor isText in
    let r := drawCollisionDebug painter sourceCache layer coords translate
               translateAnchor isText quadTriangles in
    (draws_circles isText v = false /\ r = (quadTriangles, visit_log v))
    \/ (draws_circles isText v = true
        /\ exists q',
             r = (Some q',
                  visit_log v
                    ++ [EvGetOrCreateProgram "collisionCircle";
                        EvCreateIndexBuffer q';
                        EvCreateVertexBuffer
                          (circleVertexData (tileBatches v) (circleCount v))]
                    ++ map drawBatch (tileBatches v)
                    ++ [EvDestroyVertexBuffer; EvDestroyIndexBuffer])
             /\ circleCount v * 2 <= quad_length q'
             /\ match quadTriangles with
                | None => q' = createQuadTriangles (circleCount v)
                | Some q =>
                    (q' = q /\ circleCount v * 2 <= quad_length q)
                    \/ (q' = createQuadTriangles (circleCount v)
                        /\ quad_length q < circleCount v * 2)
                end)).
  { clear. intros painter sourceCache layer coords translate translateAnchor
      isText quadTriangles v r.
    subst r. unfold drawCollisionDebug, draws_circles. fold v.
    destruct isText; cbn [negb orb andb]; [|left; split; reflexivity].
    destruct (length (tileBatches v) =? 0)%nat; cbn [negb];
      [left; split; reflexivity|].
    right. split; [reflexivity|].
    destruct quadTriangles as [q|].
    - destruct (Qltb (quad_length q) (circleCount v * 2)) eqn:Hlt.
      + eexists. split; [reflexivity|]. split; [cbn; lra|].
        right. split; [reflexivity|]. apply Qltb_lt. exact Hlt.
      + apply Qltb_ge in Hlt.
        eexists. split; [reflexivity|]. split; [exact Hlt|].
        left. split; [reflexivity | exact Hlt].
    - eexists. split; [reflexivity|]. split; [cbn; lra | reflexivity]. }
  intros v r drawn.
  pose proof (Hcall painter sourceCache layer coords translate translateAnchor
                isText quadTriangles) as Hr.
  cbn zeta in Hr. fold v r drawn in Hr.
  pose proof (visitTiles_covered painter sourceCache layer coords translate
                translateAnchor isText) as (_ & _ & Hcov).
  fold v in Hcov.
  split; [|split; [|split; [|split; [|split]]]].
  - intros q -> Hle.
    destruct Hr as [[_ ->] | (_ & q' & -> & _ & [[-> _] | [_ Hlt]])];
      [reflexivity | reflexivity | lra].
  - intros q ->.
    destruct Hr as [[_ ->] | (Hd & q' & -> & _ & [[-> _] | [-> Hlt]])];
      [left; reflexivity | left; reflexivity | right; auto].
  - intros q ->.
    destruct Hr as [[_ ->] | (_ & q' & -> & Hle & [[-> _] | [-> Hlt]])].
    + exists q. split; [reflexivity | lra].
    + exists q. split; [reflexivity | lra].
    + eexists. split; [reflexivity | cbn; lra].
  - intros Hd.
    destruct Hr as [[Hd' _] | (_ & q' & -> & Hle & _)]; [congruence|].
    exists q'. split; [reflexivity|]. split; [exact Hle|].
    split; [|reflexivity].
    eapply Forall_impl; [exact Hcov|]. unfold batch_covered. intros b Hb. lra.
  - intros Hd.
    destruct Hr as [[_ Hr] | (Hd' & _)]; [exact Hr | congruence].
  - clear -Hcall. intros frames. induction frames as [|f frames IH]; intros q.
    + exists q. split; [reflexivity | lra].
    + unfold drawFrames. cbn [fold_left]. unfold drawFrame at 2.
      pose proof (Hcall (frame_painter f) (frame_sourceCache f) (frame_layer f)
                    (frame_coords f) (frame_translate f)
                    (frame_translateAnchor f) (frame_isText f) (Some q)) as Hf.
      cbn zeta in Hf.
      destruct Hf as [[_ ->] | (_ & q1 & -> & Hle & [[-> _] | [-> Hlt]])];
        cbn [fst].
      * apply IH.
      * apply IH.
      * destruct (IH (createQuadTriangles
                        (circleCount
                           (visitTiles (frame_painter f) (frame_sourceCache f)
                              (frame_layer f) (frame_coords f)
                              (frame_translate f) (frame_translateAnchor f)
                              (frame_isText f)))))
          as (q' & Hq' & Hle').
        exists q'. split; [exact Hq'|]. cbn in Hle'. lra.
Qed.


End Renderer.

(** ** The renderer at the inputs of [DebugDemo] *)

Import DebugDemo.

(** The icon pass over tiles that hold three circles: the box program and
    the line draw of the one bucket with boxes, and nothing else. *)
Example demo_icon_pass :
  demo_draw [0; 1; 2]%nat false None
  = (None,
     [EvGetOrCreateProgram "collisionBox";
      EvDrawBoxes LINES tt 0%nat tt false]).
Proof. reflexivity. Qed.

(** The text pass over the same tiles: a quad index buffer of six
    triangles, twelve vertices, and two triangle draws between the creation
    and the destruction of the buffers. *)
Example demo_text_pass :
  let r := demo_draw [0; 1; 2]%nat true None in
  option_map (fun q => Qeq_bool (quad_length q) 6) (fst r) = Some true
  /\ map (fun e => match e with
                   | EvGetOrCreateProgram _ => 0
                   | EvSetupElevationDraw _ => 1
                   | EvDrawBoxes _ _ _ _ _ => 2
                   | EvCreateIndexBuffer _ => 3
                   | EvCreateVertexBuffer a => 4 + Z.of_nat (length (emplaced a))
                   | EvDrawCircles _ _ _ _ _ => 20
                   | EvDestroyVertexBuffer => 21
                   | EvDestroyIndexBuffer => 22
                   end%Z)
         (snd r)
     = [0; 2; 0; 3; 16; 20; 20; 21; 22]%Z.
Proof. vm_compute. split; reflexivity. Qed.

(** Three frames: three circles, then one, then none.  The buffer built for
    the first frame is kept by the other two. *)
Example demo_frames :
  drawFrames [demo_frame [0; 2]%nat true; demo_frame [2]%nat true;
              demo_frame [1]%nat true] None
  = fst (demo_draw [0; 2]%nat true None).
Proof. vm_compute. reflexivity. Qed.

End DebugProperties.

(** * More properties of the symbol layout *)

Module LayoutFacts.
Import SymbolLayout LayoutVocabulary LayoutReadings LayoutProperties.

Section RepeatMap.
Context {T : ExternalTypes} {E : Externals}.

Lemma compareText_set v (b : SymbolBucket) :
  compareText (set_compareText v b) = v.
Proof. destruct b. reflexivity. Qed.

(** The answer of [anchorIsTooClose] depends on the anchors recorded for
    the text only. *)
Lemma anchorIsTooClose_answer text d a s :
  fst (anchorIsTooClose text d a s)
  = match compareText (bucket s) !! text with
    | Some others =>
        Normal (existsb (fun other => Qltb (dist a other) d) (rev others))
    | None => if inherited text then Throw "TypeError" else Normal false
    end.
Proof.
  unfold anchorIsTooClose, bind, getBucket, get, ret, update, modify, throw.
  cbn.
  destruct (compareText (bucket s) !! text) as [others|]; cbn.
  - destruct (existsb _ _); reflexivity.
  - destruct (inherited text); reflexivity.
Qed.

(** X1. [anchorIsTooClose] raises an exception exactly for a text that has no
    anchor recorded yet and is the name of a property every object
    inherits; the exception is a TypeError and leaves the state as it
    was. *)
Theorem anchorIsTooClose_throws text d a s :
  ((exists e, fst (anchorIsTooClose text d a s) = Throw e)
   <-> compareText (bucket s) !! text = None /\ inherited text = true)
  /\ (forall e s',
         anchorIsTooClose text d a s = (Throw e, s') ->
         e = "TypeError"%string /\ s' = s).
Proof.
  pose proof (anchorIsTooClose_spec text d a s) as Hspec.
  split.
  - split.
    + intros [e He]. destruct (anchorIsTooClose text d a s) as [[r|e'] s'];
        [discriminate|].
      destruct Hspec as (_ & Hnone & Hinh). auto.
    + intros [Hnone Hinh]. exists "TypeError"%string.
      unfold anchorIsTooClose, bind, getBucket, get, ret, throw. cbn.
      rewrite Hnone, Hinh. reflexivity.
  - intros e s' Heq. rewrite Heq in Hspec.
    destruct Hspec as (-> & Hnone & Hinh). split; [|reflexivity].
    revert Heq.
    unfold anchorIsTooClose, bind, getBucket, get, ret, throw. cbn.
    rewrite Hnone, Hinh. intros [= <-]. reflexivity.
Qed.

(** X2. Once [anchorIsTooClose] has answered [false] for an anchor, the anchor
    is remembered for its text: an anchor closer to it than the repeat
    distance is answered [true], with the state left as it is.  The
    anchors recorded for other texts, and so the answers for them, are
    untouched, and so is the log. *)
Theorem anchorIsTooClose_remembers text d a s s1 :
  anchorIsTooClose text d a s = (Normal false, s1) ->
  (forall a', dist a' a < d ->
              anchorIsTooClose text d a' s1 = (Normal true, s1))
  /\ (forall text',
         text' <> text ->
         compareText (bucket s1) !! text' = compareText (bucket s) !! text')
  /\ (forall text' d' a',
         text' <> text ->
         fst (anchorIsTooClose text' d' a' s1)
         = fst (anchorIsTooClose text' d' a' s))
  /\ log s1 = log s.
Proof.
  intros Heq.
  pose proof (anchorIsTooClose_spec text d a s) as Hspec.
  rewrite Heq in Hspec. destruct Hspec as [[_ ->] _].
  assert (Hother : forall text',
             text' <> text ->
             <[text := default [] (compareText (bucket s) !! text) ++ [a]]>
               (compareText (bucket s)) !! text'
             = compareText (bucket s) !! text').
  { intros text' Hne. apply lookup_insert_ne. congruence. }
  split; [|split; [|split]].
  - intros a' Hlt. apply anchorIsTooClose_true. cbn [bucket].
    exists a. split; [|exact Hlt].
    rewrite compareText_set, lookup_insert_eq. cbn.
    apply in_or_app. right. left. reflexivity.
  - intros text' Hne. cbn [bucket]. rewrite compareText_set.
    apply Hother. exact Hne.
  - intros text' d' a' Hne. rewrite !anchorIsTooClose_answer.
    cbn [bucket]. rewrite compareText_set, (Hother text' Hne). reflexivity.
  - reflexivity.
Qed.

End RepeatMap.

Section TextVertices.
Context {T : ExternalTypes} {E : Externals}.

(** X3. With a composite text-size function, [addTextVertices] packs the two
    sizes of the zoom range and hands both to [addSymbols].  It warns once
    when one of them, or both, are 256 or above, and not at all when both
    packed values stay within the bound. *)
Theorem composite_text_size_warning anchor shapedText layer textAlongLine
    feature textOffset lineArray writingMode indices gpm sizes s
    min max s0 s1 (v0 v1 : Q) :
  textSizeData (bucket s) = size_composite min max ->
  compositeTextSizes sizes = Some (s0, s1) ->
  evaluate s0 feature = Some v0 ->
  evaluate s1 feature = Some v1 ->
  let call :=
    addTextVertices anchor shapedText layer textAlongLine feature textOffset
      lineArray writingMode indices gpm sizes in
  let warning :=
    EvWarnOnce (SizeTooLarge (head (layerIds (bucket s))) prop_text_size) in
  let passed :=
    EvAddSymbols
      {| as_arrays := buffers_text;
         as_quads :=
           getGlyphQuads
             {| gq_anchor := anchor; gq_shaping := shapedText;
                gq_layer := layer; gq_alongLine := textAlongLine;
                gq_feature := feature; gq_positions := gpm |};
         as_sizeData := Some [Some (SIZE_PACK_FACTOR * v0);
                              Some (SIZE_PACK_FACTOR * v1)];
         as_lineOffset := textOffset; as_alongLine := textAlongLine;
         as_feature := feature; as_writingMode := Some writingMode;
         as_labelAnchor := anchor;
         as_lineStartIndex := lineStartIndex lineArray;
         as_lineLength := lineLength lineArray |} in
  (exists r, fst (call s) = Normal r)
  /\ (256 <= v0 \/ 256 <= v1 ->
      log (final call s) = log s ++ [warning; passed])
  /\ (SIZE_PACK_FACTOR * v0 <= MAX_PACKED_SIZE ->
      SIZE_PACK_FACTOR * v1 <= MAX_PACKED_SIZE ->
      log (final call s) = log s ++ [passed]).
Proof.
  intros Hsd Hcs Hv0 Hv1 call warning passed.
  assert (Hwp : wp call
                  (fun _ s' =>
                     log s'
                     = log s
                       ++ (if Qltb MAX_PACKED_SIZE (SIZE_PACK_FACTOR * v0)
                              || Qltb MAX_PACKED_SIZE (SIZE_PACK_FACTOR * v1)
                           then [warning] else [])
                       ++ [passed])
                  (fun _ => False) s).
  { subst call warning passed. destruct s as [b l]. cbn in Hsd.
    unfold addTextVertices, bucket_addSymbols, warnOnce.
    apply wp_bind, wp_getBucket. cbn. rewrite Hsd, Hcs, Hv0, Hv1. cbn.
    repeat (wp_step; cbn); rewrite <- ?app_assoc; reflexivity. }
  apply wp_returns in Hwp as (r & s' & Hrun & Hlog).
  unfold final. rewrite Hrun. cbn [fst snd]. rewrite Hlog. clear Hrun Hlog.
  split; [exists r; reflexivity|].
  destruct (Qltb MAX_PACKED_SIZE (SIZE_PACK_FACTOR * v0)) eqn:Hlt0;
    destruct (Qltb MAX_PACKED_SIZE (SIZE_PACK_FACTOR * v1)) eqn:Hlt1;
    cbn [orb].
  all: try apply Qltb_lt in Hlt0; try apply Qltb_ge in Hlt0.
  all: try apply Qltb_lt in Hlt1; try apply Qltb_ge in Hlt1.
  all: unfold MAX_PACKED_SIZE, SIZE_PACK_FACTOR in *.
  all: split; [intros Hge | intros Hle0 Hle1]; try reflexivity.
  all: exfalso; try destruct Hge; lra.
Qed.

(** X4. What [addTextVertices] does not check.  With a constant or a
    camera text-size function no size is packed at all, so no text size,
    however large, gives a warning.  A source function whose text size is
    undefined for the feature packs NaN and does not warn either.  A
    composite function without its two evaluators is a TypeError that
    leaves the state as it was. *)
Theorem unchecked_text_sizes anchor shapedText layer textAlongLine
    feature textOffset lineArray writingMode indices gpm sizes s :
  let call :=
    addTextVertices anchor shapedText layer textAlongLine feature textOffset
      lineArray writingMode indices gpm sizes in
  let passed sizeData :=
    EvAddSymbols
      {| as_arrays := buffers_text;
         as_quads :=
           getGlyphQuads
             {| gq_anchor := anchor; gq_shaping := shapedText;
                gq_layer := layer; gq_alongLine := textAlongLine;
                gq_feature := feature; gq_positions := gpm |};
         as_sizeData := sizeData;
         as_lineOffset := textOffset; as_alongLine := textAlongLine;
         as_feature := feature; as_writingMode := Some writingMode;
         as_labelAnchor := anchor;
         as_lineStartIndex := lineStartIndex lineArray;
         as_lineLength := lineLength lineArray |} in
  (textSizeData (bucket s) = size_constant
   \/ textSizeData (bucket s) = size_camera ->
   (exists r, fst (call s) = Normal r)
   /\ log (final call s) = log s ++ [passed None])
  /\ (textSizeData (bucket s) = size_source ->
      evaluate (text_size (layout layer)) feature = None ->
      (exists r, fst (call s) = Normal r)
      /\ log (final call s) = log s ++ [passed (Some [None])])
  /\ (forall min max,
         textSizeData (bucket s) = size_composite min max ->
         compositeTextSizes sizes = None ->
         exists e, call s = (Throw e, s)).
Proof.
  intros call passed. subst call passed. cbn beta.
  destruct s as [b l]. cbn [bucket log].
  split; [|split].
  - intros Hsd.
    unfold final, addTextVertices, bucket_addSymbols, warnOnce, bind,
      getBucket, get, ret, update, modify, emit.
    cbn. destruct Hsd as [-> | ->]; cbn; split; eauto.
  - intros Hsd Hv.
    unfold final, addTextVertices, bucket_addSymbols, warnOnce, bind,
      getBucket, get, ret, update, modify, emit, when.
    cbn. rewrite Hsd, Hv. cbn. split; eauto.
  - intros min max Hsd Hcs.
    unfold addTextVertices, bucket_addSymbols, warnOnce, bind,
      getBucket, get, ret, update, modify, emit, throw.
    cbn. rewrite Hsd, Hcs. cbn. eauto.
Qed.

End TextVertices.

(** All the ways through [addSymbol], with [addTextVertices] unfolded. *)
Ltac addSymbol_cases :=
  unfold addSymbol, addTextVertices, bucket_addToLineVertexArray,
    newCollisionFeature, bucket_addSymbols, warnOnce;
  repeat (wp_step; cbn).

(** A way that ends in an exception: a composite size function without its
    evaluators. *)
Ltac not_covered :=
  unfold sizes_cover; cbn;
  repeat match goal with
         | H : compositeTextSizes _ = None |- _ => rewrite H
         | H : compositeIconSizes _ = None |- _ => rewrite H
         end;
  cbn; rewrite ?andb_false_r; reflexivity.

Section Symbols.
Context {T : ExternalTypes} {E : Externals}.

(** [addSymbol] in detail: what it logs, the boxes it appends, and the
    symbol instance it returns. *)
Lemma addSymbol_detail anchor ln sto icon layer fi sli bi tbs tp tal to
    ibs ip ial io feature gpm sizes s :
  wp (addSymbol anchor ln sto icon layer fi sli bi tbs tp tal to
        ibs ip ial io feature gpm sizes)
     (fun inst s' =>
        exists evs,
          log s' = log s ++ evs
          /\ collisionBoxArray (bucket s')
             = collisionBoxArray (bucket s) ++ text_boxes evs ++ icon_boxes evs
          /\ map cf_shaped (collisionFeatures evs)
             = match shaped_horizontal sto with
               | Some h => [inl h]
               | None => []
               end
               ++ match icon with
                  | Some i => [inr i]
                  | None => []
                  end
          /\ textBoxStartIndex inst
             = Z.of_nat (length (collisionBoxArray (bucket s)))
          /\ textBoxEndIndex inst
             = (textBoxStartIndex inst + Z.of_nat (length (text_boxes evs)))%Z
          /\ iconBoxStartIndex inst = textBoxEndIndex inst
          /\ iconBoxEndIndex inst
             = (iconBoxStartIndex inst + Z.of_nat (length (icon_boxes evs)))%Z
          /\ map vertex_call (addSymbols_calls evs)
             = expected_vertex_calls sto icon
          /\ length (placedTextSymbolIndices inst)
             = length (expected_vertex_calls sto None)
          /\ (numGlyphVertices inst + numVerticalGlyphVertices inst
              + numIconVertices inst
              = Z.of_nat (length (flat_map as_quads (addSymbols_calls evs)))
                * 4)%Z
          /\ glyph_warnings evs
             = (if (MAX_GLYPHS <=? glyphOffsetArray_length (arrays (bucket s')))%Z
                then 1 else 0)%nat
          /\ icon_size_warnings evs
             = match icon with
               | Some _ =>
                   if beyond_bound
                        (packed_icon_sizes (bucket s) layer sizes feature)
                   then [head (layerIds (bucket s))] else []
               | None => []
               end
          /\ map as_sizeData (icon_calls evs)
             = match icon with
               | Some _ =>
                   [packed_icon_sizes (bucket s) layer sizes feature]
               | None => []
               end)
     (fun s' => sizes_cover (bucket s) sizes = false)
     s.
Proof.
  destruct s as [b l]; destruct b; destruct sto as [h v].
  unfold beyond_bound, packed_icon_sizes, expected_vertex_calls, vertex_call.
  addSymbol_cases.
  all: try not_covered.
  all: eexists; split; [rewrite <- ?app_assoc; reflexivity|].
  all: cbn.
  all: try match goal with
           | H : (MAX_GLYPHS <=? _)%Z = _ |- _ => rewrite H
           end.
  all: rewrite ?orb_false_r.
  all: repeat match goal with
              | H : (jsgt _ _ || jsgt _ _) = _ |- _ => rewrite H; clear H
              end.
  all: rewrite ?app_nil_r, ?length_app, ?Nat2Z.inj_add, <- ?app_assoc.
  all: cbn [length].
  all: repeat split; try reflexivity; try lia.
Qed.

Lemma wp_returns_unless {S A} (m : M S A) (Q : A -> S -> Prop) (P : Prop) s :
  wp m Q (fun _ => P) s -> ~ P ->
  exists a s', m s = (Normal a, s') /\ Q a s'.
Proof.
  unfold wp. destruct (m s) as [[a|e] s']; intros H Hn; [eauto | contradiction].
Qed.

(** X5. The box ranges of a symbol instance.  [addSymbol] appends the boxes of
    the text's collision feature, then those of the icon's, to the
    collision-box array (the constructor of a collision feature appends its
    boxes and keeps their range).  The text range of the instance starts at
    the length the array had, the icon range starts where the text range
    ends and ends at the length the array has afterwards; without a
    horizontal text, or without an icon, the range is empty. *)
Theorem symbol_instance_box_ranges anchor ln sto icon layer fi sli bi tbs tp
    tal to ibs ip ial io feature gpm sizes s :
  sizes_cover (bucket s) sizes = true ->
  exists inst s' evs,
    addSymbol anchor ln sto icon layer fi sli bi tbs tp tal to
      ibs ip ial io feature gpm sizes s = (Normal inst, s')
    /\ log s' = log s ++ evs
    /\ collisionBoxArray (bucket s')
       = collisionBoxArray (bucket s) ++ text_boxes evs ++ icon_boxes evs
    /\ map cf_shaped (collisionFeatures evs)
       = match shaped_horizontal sto with
         | Some h => [inl h]
         | None => []
         end
         ++ match icon with
            | Some i => [inr i]
            | None => []
            end
    /\ textBoxStartIndex inst
       = Z.of_nat (length (collisionBoxArray (bucket s)))
    /\ textBoxEndIndex inst
       = (textBoxStartIndex inst + Z.of_nat (length (text_boxes evs)))%Z
    /\ iconBoxStartIndex inst = textBoxEndIndex inst
    /\ iconBoxEndIndex inst
       = (iconBoxStartIndex inst + Z.of_nat (length (icon_boxes evs)))%Z
    /\ iconBoxEndIndex inst
       = Z.of_nat (length (collisionBoxArray (bucket s'))).
Proof.
  intros Hcover.
  destruct (wp_returns_unless _ _ _ _
              (addSymbol_detail anchor ln sto icon layer fi sli bi tbs tp
                 tal to ibs ip ial io feature gpm sizes s))
    as (inst & s' & Hrun & evs & Hlog & Hboxes & Hcf & Hts & Hte & His & Hie
        & _).
  { rewrite Hcover. discriminate. }
  exists inst, s', evs. repeat (split; [assumption|]).
  rewrite Hie, His, Hte, Hts, Hboxes, !length_app. lia.
Qed.

(** X6. The vertex data of a symbol instance.  [addSymbol] calls
    [bucket.addSymbols] for the horizontal text, tagged as the only
    orientation when there is no vertical one, then for the vertical text,
    then for the icon; a vertical shaping without a horizontal one is left
    out.  The instance keeps one placed-symbol index per text call, and its
    vertex counts add up to four per quad handed to [bucket.addSymbols]. *)
Theorem symbol_instance_vertex_calls anchor ln sto icon layer fi sli bi tbs
    tp tal to ibs ip ial io feature gpm sizes s :
  sizes_cover (bucket s) sizes = true ->
  exists inst s' evs,
    addSymbol anchor ln sto icon layer fi sli bi tbs tp tal to
      ibs ip ial io feature gpm sizes s = (Normal inst, s')
    /\ log s' = log s ++ evs
    /\ map vertex_call (addSymbols_calls evs)
       = expected_vertex_calls sto icon
    /\ length (placedTextSymbolIndices inst)
       = length (expected_vertex_calls sto None)
    /\ (numGlyphVertices inst + numVerticalGlyphVertices inst
        + numIconVertices inst
        = Z.of_nat (length (flat_map as_quads (addSymbols_calls evs))) * 4)%Z.
Proof.
  intros Hcover.
  destruct (wp_returns_unless _ _ _ _
              (addSymbol_detail anchor ln sto icon layer fi sli bi tbs tp
                 tal to ibs ip ial io feature gpm sizes s))
    as (inst & s' & Hrun & evs & Hlog & _ & _ & _ & _ & _ & _ & Hcalls
        & Hidx & Hcount & _).
  { rewrite Hcover. discriminate. }
  exists inst, s', evs. auto.
Qed.

(** X7. The icon size is packed like the text size.  With a source icon-size
    function, [addSymbol] hands the packed icon size to
    [bucket.addSymbols] as it is, and warns about icon-size exactly
    once when the size is 256 or above, not at all when the packed value
    stays within the bound. *)
Theorem icon_size_overflow_warning anchor ln sto shapedIcon layer fi sli bi
    tbs tp tal to ibs ip ial io feature gpm sizes s (v : Q) :
  sizes_cover (bucket s) sizes = true ->
  iconSizeData (bucket s) = size_source ->
  evaluate (icon_size (layout layer)) feature = Some v ->
  exists inst s' evs,
    addSymbol anchor ln sto (Some shapedIcon) layer fi sli bi tbs tp tal to
      ibs ip ial io feature gpm sizes s = (Normal inst, s')
    /\ log s' = log s ++ evs
    /\ map as_sizeData (icon_calls evs) = [Some [Some (SIZE_PACK_FACTOR * v)]]
    /\ (256 <= v -> icon_size_warnings evs = [head (layerIds (bucket s))])
    /\ (SIZE_PACK_FACTOR * v <= MAX_PACKED_SIZE -> icon_size_warnings evs = []).
Proof.
  intros Hcover Hsd Hv.
  destruct (wp_returns_unless _ _ _ _
              (addSymbol_detail anchor ln sto (Some shapedIcon) layer fi sli
                 bi tbs tp tal to ibs ip ial io feature gpm sizes s))
    as (inst & s' & Hrun & evs & Hlog & _ & _ & _ & _ & _ & _ & _
        & _ & _ & _ & Hwarn & Hdata).
  { rewrite Hcover. discriminate. }
  exists inst, s', evs. split; [exact Hrun|]. split; [exact Hlog|].
  unfold packed_icon_sizes, beyond_bound in Hwarn, Hdata.
  rewrite Hsd, Hv in Hwarn, Hdata. cbn in Hwarn, Hdata.
  rewrite orb_false_r in Hwarn.
  split; [exact Hdata|].
  destruct (Qltb MAX_PACKED_SIZE (SIZE_PACK_FACTOR * v)) eqn:Hlt.
  - apply Qltb_lt in Hlt. unfold MAX_PACKED_SIZE, SIZE_PACK_FACTOR in *.
    split; [intros _; exact Hwarn | intros Hle; exfalso; lra].
  - apply Qltb_ge in Hlt. unfold MAX_PACKED_SIZE, SIZE_PACK_FACTOR in *.
    split; [intros Hge; exfalso; lra | intros _; exact Hwarn].
Qed.

(** X8. [addSymbol] warns about too many glyphs once, exactly when the
    glyph offset array holds [MAX_GLYPHS] entries or more after the
    vertices of the symbol were added; the symbol instance is returned all
    the same. *)
Theorem too_many_glyphs_warning anchor ln sto icon layer fi sli bi tbs
    tp tal to ibs ip ial io feature gpm sizes s :
  sizes_cover (bucket s) sizes = true ->
  exists inst s' evs,
    addSymbol anchor ln sto icon layer fi sli bi tbs tp tal to
      ibs ip ial io feature gpm sizes s = (Normal inst, s')
    /\ log s' = log s ++ evs
    /\ glyph_warnings evs
       = (if (MAX_GLYPHS <=? glyphOffsetArray_length (arrays (bucket s')))%Z
          then 1 else 0)%nat.
Proof.
  intros Hcover.
  destruct (wp_returns_unless _ _ _ _
              (addSymbol_detail anchor ln sto icon layer fi sli bi tbs tp
                 tal to ibs ip ial io feature gpm sizes s))
    as (inst & s' & Hrun & evs & Hlog & _ & _ & _ & _ & _ & _ & _
        & _ & _ & Hglyph & _).
  { rewrite Hcover. discriminate. }
  exists inst, s', evs. auto.
Qed.

End Symbols.

Section Anchors.
Context {T : ExternalTypes} {E : Externals}.

Lemma candidates_app l1 l2 :
  candidates (l1 ++ l2) = candidates l1 ++ candidates l2.
Proof. apply flat_map_app. Qed.

Lemma getAnchors_calls_app l1 l2 :
  getAnchors_calls (l1 ++ l2) = getAnchors_calls l1 ++ getAnchors_calls l2.
Proof. apply flat_map_app. Qed.

Lemma getCenterAnchor_calls_app l1 l2 :
  getCenterAnchor_calls (l1 ++ l2)
  = getCenterAnchor_calls l1 ++ getCenterAnchor_calls l2.
Proof. apply flat_map_app. Qed.

(** The events below an [addSymbol] call hold no anchor search and no
    offer. *)
Lemma leaf_events_silent evs :
  Forall leaf_event evs ->
  candidates evs = [] /\ getAnchors_calls evs = []
  /\ getCenterAnchor_calls evs = [].
Proof.
  induction 1 as [|e evs He _ (IH1 & IH2 & IH3)]; [auto|].
  change (e :: evs) with ([e] ++ evs).
  rewrite candidates_app, getAnchors_calls_app, getCenterAnchor_calls_app,
    IH1, IH2, IH3.
  destruct e; cbn in He |- *; auto; destruct He.
Qed.

(** What an offer adds to the log, and what it leaves alone. *)
Lemma offered_events ln c s s' :
  offered ln c s s' ->
  exists evs,
    log s' = log s ++ evs
    /\ candidates evs = [(ln, call_anchor c)]
    /\ getAnchors_calls evs = []
    /\ getCenterAnchor_calls evs = []
    /\ compareText (bucket s') = compareText (bucket s)
    /\ forall sizes,
         sizes_cover (bucket s') sizes = sizes_cover (bucket s) sizes.
Proof.
  unfold offered. destruct (inside_tile (call_anchor c)).
  - intros (inst & A & C & _ & -> & evs & -> & Hevs).
    apply leaf_events_silent in Hevs as (H1 & H2 & H3).
    exists ([EvAddSymbolAtAnchor ln (call_anchor c); EvAddSymbol c] ++ evs).
    rewrite candidates_app, getAnchors_calls_app, getCenterAnchor_calls_app,
      H1, H2, H3, <- app_assoc.
    destruct s as [b l]; destruct b. cbn. auto 10.
  - intros ->. exists [EvAddSymbolAtAnchor ln (call_anchor c)].
    cbn. auto 10.
Qed.

Lemma grown_refl sizes s : grown sizes s s [] [] [].
Proof.
  exists []. rewrite app_nil_r. auto 10.
Qed.

Lemma grown_trans sizes s0 s1 s2 c1 c2 a1 a2 g1 g2 :
  grown sizes s0 s1 c1 a1 g1 ->
  grown sizes s1 s2 c2 a2 g2 ->
  grown sizes s0 s2 (c1 ++ c2) (a1 ++ a2) (g1 ++ g2).
Proof.
  intros (e1 & Hl1 & <- & <- & <- & Hct1 & Hsc1)
         (e2 & Hl2 & <- & <- & <- & Hct2 & Hsc2).
  exists (e1 ++ e2).
  rewrite candidates_app, getAnchors_calls_app, getCenterAnchor_calls_app,
    Hl2, Hl1, <- app_assoc, Hct2, Hct1, Hsc2, Hsc1.
  auto 10.
Qed.

Lemma grown_covered sizes s s' cs gas gcs :
  grown sizes s s' cs gas gcs ->
  sizes_cover (bucket s) sizes = true ->
  sizes_cover (bucket s') sizes = true.
Proof. intros (evs & _ & _ & _ & _ & _ & ->) H. exact H. Qed.

(** Offering an anchor, for size data that come with their evaluators. *)
Lemma offer_grown feature sto icon gpm sizes tbs tp tal to ibs ip ial io
    ln a s :
  sizes_cover (bucket s) sizes = true ->
  wp (addSymbolAtAnchor feature sto icon gpm sizes tbs tp tal to
        ibs ip ial io ln a)
     (fun _ s' => grown sizes s s' [(ln, a)] [] [])
     (fun _ => False) s.
Proof.
  intros Hcover.
  eapply wp_conseq; [apply addSymbolAtAnchor_spec | |]; cbn.
  - intros _ s' (evs & Hlog & Hc & Hg & Hgc & Hct & Hsc)%offered_events.
    cbn in Hc. exists evs. auto 10.
  - intros s' H. congruence.
Qed.

(** The same from a state reached from [s0]. *)
Lemma offer_grown_from feature sto icon gpm sizes tbs tp tal to ibs ip ial
    io ln a s0 s cs gas gcs (R : State -> Prop) :
  sizes_cover (bucket s0) sizes = true ->
  grown sizes s0 s cs gas gcs ->
  wp (addSymbolAtAnchor feature sto icon gpm sizes tbs tp tal to
        ibs ip ial io ln a)
     (fun _ s' => grown sizes s0 s' (cs ++ [(ln, a)]) gas gcs)
     R s.
Proof.
  intros Hcover Hg.
  eapply wp_conseq;
    [apply offer_grown; eapply grown_covered; eassumption | | contradiction].
  intros u s' Hg'. cbn beta.
  pose proof (grown_trans _ _ _ _ _ _ _ _ _ _ Hg Hg') as H.
  rewrite !app_nil_r in H. exact H.
Qed.

Lemma grown_candidates sizes s s' cs gas gcs :
  grown sizes s s' cs gas gcs ->
  candidates (log s') = candidates (log s) ++ cs.
Proof.
  intros (evs & -> & <- & _). apply candidates_app.
Qed.

Lemma grown_getAnchors sizes s0 s cs gas gcs a :
  grown sizes s0 s cs gas gcs ->
  grown sizes s0 (mkState (bucket s) (log s ++ [EvGetAnchors a]))
        cs (gas ++ [a]) gcs.
Proof.
  intros Hg.
  assert (Hs : grown sizes s (mkState (bucket s) (log s ++ [EvGetAnchors a]))
                     [] [a] []).
  { exists [EvGetAnchors a]. cbn. auto 10. }
  pose proof (grown_trans _ _ _ _ _ _ _ _ _ _ Hg Hs) as H.
  rewrite !app_nil_r in H. exact H.
Qed.

Lemma grown_getCenterAnchor sizes s0 s cs gas gcs a :
  grown sizes s0 s cs gas gcs ->
  grown sizes s0 (mkState (bucket s) (log s ++ [EvGetCenterAnchor a]))
        cs gas (gcs ++ [a]).
Proof.
  intros Hg.
  assert (Hs : grown sizes s
                 (mkState (bucket s) (log s ++ [EvGetCenterAnchor a]))
                 [] [] [a]).
  { exists [EvGetCenterAnchor a]. cbn. auto 10. }
  pose proof (grown_trans _ _ _ _ _ _ _ _ _ _ Hg Hs) as H.
  rewrite !app_nil_r in H. exact H.
Qed.

(** X9. With symbol-placement point, a feature of type Polygon offers
    [addSymbolAtAnchor] one anchor per polygon that [classifyRings] makes
    of its rings, in order: at the polygon's pole of inaccessibility,
    with angle 0 and the polygon's first ring as the line. *)
Theorem polygon_point_placement feature sto icon gpm sizes s :
  symbol_placement (layout (layers_0 (bucket s))) = point ->
  type feature = Polygon ->
  sizes_cover (bucket s) sizes = true ->
  exists s',
    addFeature feature sto icon gpm sizes s = (Normal tt, s')
    /\ candidates (log s')
       = candidates (log s)
         ++ map pole_anchor (classifyRings (geometry feature) 0).
Proof.
  intros Hp Hty Hcover.
  enough (Hwp : wp (addFeature feature sto icon gpm sizes)
                  (fun _ s' =>
                     grown sizes s s'
                       (map pole_anchor (classifyRings (geometry feature) 0))
                       [] [])
                  (fun _ => False) s).
  { apply wp_returns in Hwp as ([] & s' & Heq & Hg). exists s'.
    split; [exact Heq|]. eapply grown_candidates. exact Hg. }
  unfold addFeature. apply wp_bind, wp_getBucket. rewrite Hp, Hty. cbn.
  apply wp_forEach_indexed
    with (I := fun pre s' => grown sizes s s' (map pole_anchor pre) [] []).
  - apply grown_refl.
  - intros pre polygon post s1 _ Hg1. rewrite map_app.
    apply offer_grown_from; assumption.
Qed.

(** X10. With symbol-placement point, a feature of type LineString offers
    [addSymbolAtAnchor] one anchor per line, in order: at the first point
    of the line, with angle 0.  A line without points makes [addFeature]
    raise an exception. *)
Theorem linestring_point_placement feature sto icon gpm sizes s :
  symbol_placement (layout (layers_0 (bucket s))) = point ->
  type feature = LineString ->
  sizes_cover (bucket s) sizes = true ->
  (Forall (fun ln => ln <> []) (geometry feature) ->
   exists s',
     addFeature feature sto icon gpm sizes s = (Normal tt, s')
     /\ candidates (log s')
        = candidates (log s)
          ++ flat_map first_point_anchor (geometry feature))
  /\ (In [] (geometry feature) ->
      exists e s', addFeature feature sto icon gpm sizes s = (Throw e, s')).
Proof.
  intros Hp Hty Hcover.
  assert (Hwp : wp (addFeature feature sto icon gpm sizes)
                  (fun _ s' =>
                     Forall (fun ln => ln <> []) (geometry feature)
                     /\ grown sizes s s'
                          (flat_map first_point_anchor (geometry feature))
                          [] [])
                  (fun _ => In [] (geometry feature)) s).
  { unfold addFeature. apply wp_bind, wp_getBucket. rewrite Hp, Hty. cbn.
    apply wp_forEach_indexed
      with (I := fun pre s' =>
                   Forall (fun ln => ln <> []) pre
                   /\ grown sizes s s' (flat_map first_point_anchor pre) [] []).
    - split; [constructor | apply grown_refl].
    - intros pre [|p ln] post s1 Hgeo [Hne Hg1].
      + apply wp_throw. rewrite Hgeo. apply in_or_app. right. left.
        reflexivity.
      + eapply wp_conseq;
          [apply offer_grown_from; eassumption | | intros s2 H; exact H].
        intros u s2 Hg2. split.
        * apply Forall_app. split; [exact Hne|]. repeat constructor.
          discriminate.
        * rewrite flat_map_app. cbn. rewrite ?app_nil_r. exact Hg2. }
  unfold wp in Hwp.
  destruct (addFeature feature sto icon gpm sizes s) as [[[]|e] s'].
  - destruct Hwp as [Hne Hg]. split.
    + intros _. exists s'. split; [reflexivity|].
      eapply grown_candidates. exact Hg.
    + intros Hin. exfalso. rewrite Forall_forall in Hne.
      exact (Hne [] (proj2 (list_elem_of_In _ _) Hin) eq_refl).
  - split.
    + intros Hne. exfalso. rewrite Forall_forall in Hne.
      exact (Hne [] (proj2 (list_elem_of_In _ _) Hwp) eq_refl).
    + intros _. eauto.
Qed.

(** X11. With symbol-placement line-center, [addFeature] searches one center
    anchor for every line of the feature that has more than one point, in
    order, and for no other line; every anchor found is offered to
    [addSymbolAtAnchor] with its line, and nothing else is.  No anchor is
    recorded for the repeat distance. *)
Theorem line_center_placement feature sto icon gpm sizes s :
  symbol_placement (layout (layers_0 (bucket s))) = line_center ->
  sizes_cover (bucket s) sizes = true ->
  exists s' evs,
    addFeature feature sto icon gpm sizes s = (Normal tt, s')
    /\ log s' = log s ++ evs
    /\ map gc_line (getCenterAnchor_calls evs)
       = List.filter (fun ln => (1 <? length ln)%nat) (geometry feature)
    /\ candidates evs = flat_map found_center (getCenterAnchor_calls evs)
    /\ getAnchors_calls evs = []
    /\ compareText (bucket s') = compareText (bucket s).
Proof.
  intros Hp Hcover.
  enough (Hwp : wp (addFeature feature sto icon gpm sizes)
                  (fun _ s' =>
                     exists cs gcs,
                       grown sizes s s' cs [] gcs
                       /\ map gc_line gcs
                          = List.filter (fun ln => (1 <? length ln)%nat)
                                        (geometry feature)
                       /\ cs = flat_map found_center gcs)
                  (fun _ => False) s).
  { apply wp_returns in Hwp
      as ([] & s' & Heq & cs & gcs & (evs & Hl & Hc & Ha & Hg & Hct & _)
          & Hlines & ->).
    exists s', evs. rewrite Hg, Hc. auto 10. }
  unfold addFeature. apply wp_bind, wp_getBucket. rewrite Hp. cbn.
  apply wp_forEach_indexed
    with (I := fun pre s' =>
                 exists cs gcs,
                   grown sizes s s' cs [] gcs
                   /\ map gc_line gcs
                      = List.filter (fun ln => (1 <? length ln)%nat) pre
                   /\ cs = flat_map found_center gcs).
  - exists [], []. split; [apply grown_refl | auto].
  - intros pre ln post s1 _ (cs & gcs & Hg1 & Hlines & ->).
    rewrite List.filter_app. cbn [List.filter].
    destruct (1 <? length ln)%nat eqn:Hlong;
      change (1 <? length ln)%nat
        with (match length ln with S (S _) => true | _ => false end) in Hlong;
      rewrite Hlong.
    + unfold getCenterAnchor_logged.
      apply wp_bind, wp_bind, wp_emit, wp_ret.
      match goal with
      | |- context [EvGetCenterAnchor ?a] => set (args := a)
      end.
      pose proof (grown_getCenterAnchor _ _ _ _ _ _ args Hg1) as Hg2.
      assert (Hlines2 : map gc_line (gcs ++ [args])
                        = List.filter (fun ln => (1 <? length ln)%nat) pre
                          ++ [ln]).
      { rewrite map_app, Hlines. reflexivity. }
      destruct (getCenterAnchor args) as [a|] eqn:Hfound.
      * eapply wp_conseq;
          [apply offer_grown_from with (R := fun _ => False); eassumption
          | | intros s2 []].
        intros u s2 Hg3. exists (flat_map found_center gcs ++ [(ln, a)]),
                                   (gcs ++ [args]).
        split; [exact Hg3|]. split; [exact Hlines2|].
        rewrite flat_map_app. cbn [flat_map]. unfold found_center at 3.
        rewrite Hfound, app_nil_r. reflexivity.
      * apply wp_ret. exists (flat_map found_center gcs), (gcs ++ [args]).
        split; [exact Hg2|]. split; [exact Hlines2|].
        rewrite flat_map_app. cbn [flat_map]. unfold found_center at 3.
        rewrite Hfound, !app_nil_r. reflexivity.
    + apply wp_ret. exists (flat_map found_center gcs), gcs.
      rewrite app_nil_r. auto.
Qed.

(** X12. With symbol-placement line and no horizontal text, nothing is left
    out for the repeat distance: [addFeature] searches the anchors of every
    line that [clipLine] cuts out of the feature, in order, and offers all
    the anchors found to [addSymbolAtAnchor], each with its line.  No
    anchor is recorded. *)
Theorem line_placement_without_text feature sto icon gpm sizes s :
  symbol_placement (layout (layers_0 (bucket s))) = SymbolLayout.line ->
  shaped_horizontal sto = None ->
  sizes_cover (bucket s) sizes = true ->
  exists s' evs,
    addFeature feature sto icon gpm sizes s = (Normal tt, s')
    /\ log s' = log s ++ evs
    /\ map ga_line (getAnchors_calls evs)
       = clipLine (geometry feature) 0 0 EXTENT EXTENT
    /\ candidates evs = flat_map found_anchors (getAnchors_calls evs)
    /\ getCenterAnchor_calls evs = []
    /\ compareText (bucket s') = compareText (bucket s).
Proof.
  intros Hp Hnone Hcover.
  enough (Hwp : wp (addFeature feature sto icon gpm sizes)
                  (fun _ s' =>
                     exists gas,
                       grown sizes s s' (flat_map found_anchors gas) gas []
                       /\ map ga_line gas
                          = clipLine (geometry feature) 0 0 EXTENT EXTENT)
                  (fun _ => False) s).
  { apply wp_returns in Hwp
      as ([] & s' & Heq & gas & (evs & Hl & Hc & Ha & Hg & Hct & _) & Hlines).
    exists s', evs. rewrite Ha, Hc. auto 10. }
  unfold addFeature. apply wp_bind, wp_getBucket. rewrite Hp, Hnone. cbn.
  apply wp_forEach_indexed
    with (I := fun pre s' =>
                 exists gas,
                   grown sizes s s' (flat_map found_anchors gas) gas []
                   /\ map ga_line gas = pre).
  - exists []. split; [apply grown_refl | reflexivity].
  - intros pre ln post s1 _ (gas & Hg1 & Hlines).
    unfold getAnchors_logged.
    apply wp_bind, wp_bind, wp_emit, wp_ret.
    match goal with
    | |- context [EvGetAnchors ?a] => set (args := a)
    end.
    pose proof (grown_getAnchors _ _ _ _ _ _ args Hg1) as Hg2.
    eapply wp_conseq.
    + apply wp_forEach_indexed
        with (I := fun pre' s' =>
                     grown sizes s s'
                       (flat_map found_anchors gas
                        ++ map (fun anchor => (ln, anchor)) pre')
                       (gas ++ [args]) [])
             (R := fun _ => False).
      * cbn [map]. rewrite app_nil_r. exact Hg2.
      * intros pre' a post' s2 _ Hg3.
        rewrite map_app, app_assoc.
        apply offer_grown_from; assumption.
    + intros u s2 Hg3. exists (gas ++ [args]).
      split; [|rewrite map_app, Hlines; reflexivity].
      rewrite flat_map_app. cbn [flat_map]. rewrite app_nil_r.
      exact Hg3.
    + contradiction.
Qed.

End Anchors.

Section Pass.
Context {T : ExternalTypes} {E : Externals}.

Lemma candidates_snoc l e :
  candidates (l ++ [e])
  = candidates l ++ match e with
                    | EvAddSymbolAtAnchor ln a => [(ln, a)]
                    | _ => []
                    end.
Proof.
  unfold candidates. rewrite flat_map_app. cbn. rewrite app_nil_r.
  reflexivity.
Qed.

Lemma offered_instances_offered ln c s s' :
  offered ln c s s' -> instances_offered s -> instances_offered s'.
Proof.
  intros Hoff. pose proof (offered_candidates ln c s s' Hoff) as [Hc _].
  revert Hoff. unfold offered, instances_offered. rewrite Hc.
  rewrite map_app, List.filter_app. cbn [map snd List.filter].
  destruct (inside_tile (call_anchor c)).
  - intros (inst & A & C & [Ha _] & -> & _) Hi.
    destruct s as [b l]; destruct b; cbn in *.
    rewrite map_app, Hi. cbn [map]. rewrite Ha. reflexivity.
  - intros -> Hi. cbn [bucket]. rewrite app_nil_r. exact Hi.
Qed.

Lemma step_instances_offered b s s' :
  step b s s' -> instances_offered s -> instances_offered s'.
Proof.
  intros Hs. unfold instances_offered.
  destruct Hs as [s a | s s' Hf | s A].
  - cbn [bucket log]. rewrite candidates_snoc, app_nil_r. auto.
  - destruct Hf as [s | s v | s | s f a _ _ | s f a _ _
                   | s s' ln c _ Hoff | s s1 s' text ln c _ _ Hrec Hoff].
    + cbn [bucket log]. rewrite candidates_snoc, app_nil_r. auto.
    + destruct s as [b0 l]; destruct b0; cbn. auto.
    + destruct s as [b0 l]; destruct b0; cbn. auto.
    + cbn [bucket log]. rewrite candidates_snoc, app_nil_r. auto.
    + cbn [bucket log]. rewrite candidates_snoc, app_nil_r. auto.
    + apply (offered_instances_offered ln c s s' Hoff).
    + intros Hi. apply (offered_instances_offered ln c s1 s' Hoff).
      destruct Hrec as [_ ->]. unfold instances_offered.
      destruct s as [b0 l]; destruct b0; cbn in *. exact Hi.
  - destruct s as [b0 l]; destruct b0; cbn [bucket log symbolInstances
                                                   set_arrays].
    rewrite candidates_snoc, app_nil_r. auto.
Qed.

(** X13. Whatever symbol instances the bucket held before, after a pass it
    holds exactly one for every anchor that was offered to
    [addSymbolAtAnchor] inside the tile, in the order of the offers, and
    none for the anchors offered outside. *)
Theorem symbol_instances_of_pass glyphMap glyphPositions imageMap
    imagePositions showCollisionBoxes b :
  let s' := snd (run_performSymbolLayout glyphMap glyphPositions imageMap
                   imagePositions showCollisionBoxes b) in
  map anchor (symbolInstances (bucket s'))
  = List.filter inside_tile (map snd (candidates (log s'))).
Proof.
  cbn zeta.
  destruct (run_performSymbolLayout_steps glyphMap glyphPositions imageMap
              imagePositions showCollisionBoxes b) as (k & (Hr & _) & _).
  apply (rtc_step_invariant b instances_offered _ _
           (step_instances_offered b) Hr).
  reflexivity.
Qed.

(** X14. A pass, however it ends, leaves the bucket the scale, the zoom, the
    pixel ratio, the index, the layer, the features and the size data it
    had, and sets the tile pixel ratio to [EXTENT / (512 * overscaling)]. *)
Theorem pass_keeps_bucket glyphMap glyphPositions imageMap imagePositions
    showCollisionBoxes b :
  let b' := bucket (snd (run_performSymbolLayout glyphMap glyphPositions
                           imageMap imagePositions showCollisionBoxes b)) in
  overscaling b' = overscaling b
  /\ zoom b' = zoom b
  /\ pixelRatio b' = pixelRatio b
  /\ bucket_index b' = bucket_index b
  /\ layerIds b' = layerIds b
  /\ layers_0 b' = layers_0 b
  /\ features b' = features b
  /\ textSizeData b' = textSizeData b
  /\ iconSizeData b' = iconSizeData b
  /\ tilePixelRatio b' = EXTENT / (512 * overscaling b).
Proof.
  cbn zeta.
  destruct (run_performSymbolLayout_steps glyphMap glyphPositions imageMap
              imagePositions showCollisionBoxes b) as (k & (_ & Hw & _) & _).
  unfold within in Hw. rewrite Hw. cbn. auto 12.
Qed.

(** A feature with no text and no icon image is passed over: nothing is
    asked of any collaborator and the bucket stays as it is. *)
Lemma unlabelled_feature glyphMap glyphPositions imageMap imagePositions
    layout sizes lineHeight textAlongLine keepUpright f s :
  unlabelled imageMap f ->
  performSymbolLayout_feature glyphMap glyphPositions imageMap
    imagePositions layout sizes lineHeight textAlongLine keepUpright f s
  = (Normal tt, s).
Proof.
  intros [Ht Hi]. unfold icon_image in Hi.
  unfold performSymbolLayout_feature, bind, ret. rewrite Ht.
  destruct (truthy_icon (icon f)) as [name|]; [rewrite Hi|]; reflexivity.
Qed.

Lemma forEach_cons {S A} (x : A) (l : list A) (body : A -> M S unit) s :
  forEach (x :: l) body s
  = match body x s with
    | (Normal _, s') => forEach l body s'
    | (Throw e, s') => (Throw e, s')
    end.
Proof. reflexivity. Qed.

Lemma unlabelled_features glyphMap glyphPositions imageMap imagePositions
    layout sizes lineHeight textAlongLine keepUpright fs s :
  Forall (unlabelled imageMap) fs ->
  forEach fs
    (performSymbolLayout_feature glyphMap glyphPositions imageMap
       imagePositions layout sizes lineHeight textAlongLine keepUpright) s
  = (Normal tt, s).
Proof.
  induction 1 as [|f fs Hf _ IH]; [reflexivity|].
  rewrite forEach_cons, unlabelled_feature by exact Hf. exact IH.
Qed.

(** X15. A pass over features that all have neither a text nor an icon with an
    image (no feature at all, in particular) returns without an exception,
    with no symbol instance and the bucket as the head of the pass resets
    it; it asks nothing of the collaborators but the debug buffers, when
    collision boxes are shown. *)
Theorem pass_without_labels glyphMap glyphPositions imageMap imagePositions
    showCollisionBoxes b :
  Forall (unlabelled imageMap) (features b) ->
  run_performSymbolLayout glyphMap glyphPositions imageMap imagePositions
    showCollisionBoxes b
  = (Normal tt,
     if showCollisionBoxes
     then mkState (set_arrays (generateCollisionDebugBuffers
                                 (arrays (reset b))) (reset b))
                  [EvGenerateCollisionDebugBuffers]
     else mkState (reset b) []).
Proof.
  intros Hf.
  unfold run_performSymbolLayout, performSymbolLayout.
  unfold bind at 1 2 3 4 5 6 7. cbn [update modify getBucket get bind ret
                                      fst snd bucket log].
  cbn.
  destruct b; cbn in *.
  rewrite unlabelled_features by exact Hf.
  destruct showCollisionBoxes; reflexivity.
Qed.

End Pass.

Section Frame.
Context {T : ExternalTypes} {E : Externals}.

Lemma framed_log b0 fl s l' :
  framed b0 fl s -> framed b0 fl (mkState (bucket s) l').
Proof. intros H. exact H. Qed.

Lemma offered_framed b0 fl ln c s s' :
  offered ln c s s' -> framed b0 fl s -> framed b0 fl s'.
Proof.
  unfold offered. destruct (inside_tile (call_anchor c)).
  - intros (inst & A & C & _ & Hb & _) [Hw Hfl].
    destruct s as [b l], s' as [b' l']. cbn in Hb. subst b'. split.
    + eapply within_storage. exact Hw.
    + destruct b. exact Hfl.
  - intros -> H. exact H.
Qed.

Lemma offer_framed b0 fl feature sto icon gpm tbs tp tal to ibs ip ial io
    ln a (R : State -> Prop) s :
  framed b0 fl s ->
  wp (addSymbolAtAnchor feature sto icon gpm (computeSizes b0)
        tbs tp tal to ibs ip ial io ln a)
     (fun _ => framed b0 fl) R s.
Proof.
  intros Hfr.
  eapply wp_conseq; [apply addSymbolAtAnchor_spec | |]; cbn.
  - intros u s' Hoff. eapply offered_framed; eassumption.
  - intros s' Hc. rewrite (within_sizes_cover b0 s (proj1 Hfr)) in Hc.
    discriminate.
Qed.

Lemma record_offer_framed b0 fl feature sto icon gpm tbs tp tal to
    ibs ip ial io ln a shapedText s :
  symbol_placement (layout (layers_0 b0)) = SymbolLayout.line ->
  shaped_horizontal sto = Some shapedText ->
  framed b0 fl s ->
  wp (bind (anchorIsTooClose (shaping_text shapedText)
              (symbolMinDistance_of b0 / 2) a)
           (fun tooClose =>
              if tooClose then ret tt
              else addSymbolAtAnchor feature sto icon gpm (computeSizes b0)
                     tbs tp tal to ibs ip ial io ln a))
     (fun _ => framed b0 fl)
     (fun s' => framed b0 fl s' /\ throws_for b0 feature sto) s.
Proof.
  intros Hp Hsome Hfr. apply wp_bind. unfold wp at 1.
  pose proof (anchorIsTooClose_spec (shaping_text shapedText)
                (symbolMinDistance_of b0 / 2) a s) as Hspec.
  destruct (anchorIsTooClose _ _ a s) as [[[|]|e] s1].
  - destruct Hspec as [-> _]. apply wp_ret. exact Hfr.
  - destruct Hspec as [[_ ->] _]. apply offer_framed.
    destruct Hfr as [Hw Hfl]. split.
    + unfold within in *. cbn. rewrite Hw. reflexivity.
    + destruct s as [b l]; destruct b. exact Hfl.
  - destruct Hspec as (-> & _ & Hinh). split; [exact Hfr|].
    left. split; [exact Hp|]. exists shapedText. auto.
Qed.

(** The layout of a feature keeps the bucket within the pass and leaves
    the icon flags alone; it raises an exception only for the two reasons
    of [throws_for]. *)
Lemma addFeature_framed b0 fl feature sto icon gpm s :
  framed b0 fl s ->
  wp (addFeature feature sto icon gpm (computeSizes b0))
     (fun _ => framed b0 fl)
     (fun s' => framed b0 fl s' /\ throws_for b0 feature sto) s.
Proof.
  intros Hfr. pose proof (proj1 Hfr) as Hw.
  unfold addFeature. apply wp_bind, wp_getBucket.
  rewrite (within_field layers_0 b0 s Hw),
          (within_field tilePixelRatio b0 s Hw),
          (within_field overscaling b0 s Hw).
  cbn.
  destruct (symbol_placement (layout (layers_0 b0))) eqn:Hp.
  - destruct (type feature) eqn:Hty.
    + apply wp_ret. exact Hfr.
    + apply wp_forEach; [exact Hfr|]. intros points s1 _ Hfr1.
      apply wp_forEach; [exact Hfr1|]. intros p s2 _ Hfr2.
      apply offer_framed. exact Hfr2.
    + apply wp_forEach; [exact Hfr|]. intros [|p ln] s1 Hin Hfr1.
      * apply wp_throw. split; [exact Hfr1|]. right. auto.
      * apply offer_framed. exact Hfr1.
    + apply wp_forEach; [exact Hfr|]. intros polygon s1 _ Hfr1.
      apply offer_framed. exact Hfr1.
  - apply wp_forEach; [exact Hfr|]. intros ln s1 _ Hfr1.
    unfold getAnchors_logged.
    apply wp_bind, wp_bind, wp_emit, wp_ret.
    apply wp_forEach; [exact Hfr1|].
    intros a s2 _ Hfr2.
    destruct (shaped_horizontal sto) as [shapedText|] eqn:Hh.
    + apply record_offer_framed; [exact Hp | exact Hh | exact Hfr2].
    + apply offer_framed. exact Hfr2.
  - apply wp_forEach; [exact Hfr|]. intros ln s1 _ Hfr1.
    wp_step.
    2: { apply wp_ret. exact Hfr1. }
    unfold getCenterAnchor_logged.
    apply wp_bind, wp_bind, wp_emit, wp_ret.
    destruct (getCenterAnchor _) as [a|].
    + apply offer_framed. exact Hfr1.
    + apply wp_ret. exact Hfr1.
Qed.

(** The loop body of the pass: the icon flags move on by [next_flags],
    and an exception has one of the two reasons of [feature_throws]. *)
Lemma feature_framed b0 fl glyphMap glyphPositions imageMap imagePositions
    f s :
  framed b0 fl s ->
  wp (performSymbolLayout_feature glyphMap glyphPositions imageMap
        imagePositions (layout (layers_0 b0)) (computeSizes b0)
        (text_line_height (layout (layers_0 b0)) * oneEm)
        (textAlongLine_of (layout (layers_0 b0)))
        (text_keep_upright (layout (layers_0 b0))) f)
     (fun _ => framed b0 (next_flags b0 imageMap fl f))
     (fun s' => framed b0 (next_flags b0 imageMap fl f) s'
                /\ feature_throws b0 f) s.
Proof.
  intros Hfr. unfold performSymbolLayout_feature.
  apply wp_bind.
  eapply wp_conseq with
    (Q := fun (sto : ShapedTextOrientations) s' =>
            framed b0 fl s'
            /\ forall h,
                 shaped_horizontal sto = Some h ->
                 exists a,
                   truthy_text (text f) = Some (st_text a)
                   /\ shapeText a = Some h)
    (R := fun _ => False).
  { unfold shapeText_logged.
    destruct (truthy_text (text f)) as [t|].
    - apply wp_bind, wp_bind, wp_emit, wp_ret.
      destruct (allowsVerticalWritingMode _ && _ && _).
      + apply wp_bind, wp_bind, wp_emit, wp_ret, wp_ret. cbn.
        split; [exact Hfr|]. intros h Hh. eexists. split; [|exact Hh].
        reflexivity.
      + apply wp_ret. cbn.
        split; [exact Hfr|]. intros h Hh. eexists. split; [|exact Hh].
        reflexivity.
    - apply wp_ret. split; [exact Hfr|]. intros h [=]. }
  2: { intros s' []. }
  cbn beta. intros sto s1 [Hfr1 Hsto].
  apply wp_bind.
  eapply wp_conseq with
    (Q := fun (_ : option PositionedIcon) s' =>
            framed b0 (next_flags b0 imageMap fl f) s')
    (R := fun _ => False).
  { unfold next_flags, icon_image.
    destruct (truthy_icon (icon f)) as [name|]; [|apply wp_ret; exact Hfr1].
    destruct (imageMap name) as [image|]; [|apply wp_ret; exact Hfr1].
    destruct Hfr1 as [Hw1 <-]. unfold needs_linear.
    destruct s1 as [b1 l1]. unfold framed, within, icon_flags in *.
    destruct b1. cbn in *.
    injection Hw1 as -> -> -> -> -> -> -> -> -> ->.
    unfold warnOnce.
    repeat (wp_step; cbn).
    all: split; [reflexivity|].
    all: repeat match goal with
                | H : negb _ = _ |- _ => rewrite H
                end.
    all: reflexivity. }
  2: { intros s' []. }
  cbn beta. intros shapedIcon s2 Hfr2.
  destruct (truthy (shaped_horizontal sto) || truthy shapedIcon).
  - eapply wp_conseq; [apply addFeature_framed; exact Hfr2 | auto |].
    cbn beta. intros s3 [Hfr3 Hthrow]. split; [exact Hfr3|].
    destruct Hthrow as [(Hp & h & Hh & Hinh) | Hempty]; [left | right; exact Hempty].
    split; [exact Hp|]. destruct (Hsto h Hh) as (a & Ha & Hs).
    exists a, h. auto.
  - apply wp_ret. exact Hfr2.
Qed.

Lemma pass_framed glyphMap glyphPositions imageMap imagePositions
    showCollisionBoxes b :
  wp (performSymbolLayout glyphMap glyphPositions imageMap imagePositions
        showCollisionBoxes)
     (fun _ s' =>
        icon_flags s'
        = fold_left (next_flags b imageMap) (features b) (sdfIcons b, false))
     (fun _ => exists f, In f (features b) /\ feature_throws b f)
     (mkState b []).
Proof.
  unfold performSymbolLayout.
  do 2 (apply wp_bind, wp_update). apply wp_bind, wp_getBucket.
  do 3 (apply wp_bind, wp_update). cbn.
  change (computeSizes (set_symbolInstances [] _)) with (computeSizes b).
  change (_ && negb _) with (textAlongLine_of (layout (layers_0 b))).
  set (s0 := mkState (reset b) []).
  change ({| bucket := _; log := [] |}) with s0.
  assert (Hfr0 : framed b (sdfIcons b, false) s0).
  { split; [reflexivity|]. destruct b; reflexivity. }
  apply wp_bind.
  eapply wp_conseq.
  - apply wp_forEach_indexed with
      (I := fun pre s' =>
              framed b (fold_left (next_flags b imageMap) pre
                                  (sdfIcons b, false)) s')
      (R := fun _ => exists f, In f (features b) /\ feature_throws b f).
    + exact Hfr0.
    + intros pre f post s1 Hl Hfr1. rewrite fold_left_app. cbn [fold_left].
      eapply wp_conseq; [apply feature_framed; exact Hfr1 | auto |].
      cbn beta. intros s2 [_ Hthrow]. exists f. split; [|exact Hthrow].
      rewrite Hl. apply in_or_app. right. left. reflexivity.
  - cbn beta. intros u s1 [Hw1 Hfl1]. wp_step; [|exact Hfl1].
    apply wp_bind, wp_emit, wp_update. cbn.
    destruct s1 as [b1 l1]; destruct b1; exact Hfl1.
  - auto.
Qed.

Lemma fold_next_flags b imageMap fs o l :
  fold_left (next_flags b imageMap) fs (o, l)
  = (match o with
     | Some v => Some v
     | None =>
         head (flat_map (fun f => match icon_image imageMap f with
                                  | Some image => [sdf image]
                                  | None => []
                                  end) fs)
     end,
     l || existsb (fun f => match icon_image imageMap f with
                            | Some image => needs_linear b image
                            | None => false
                            end) fs).
Proof.
  revert o l. induction fs as [|f fs IH]; intros o l.
  - cbn. rewrite orb_false_r. destruct o; reflexivity.
  - cbn [fold_left flat_map existsb]. unfold next_flags at 2.
    destruct (icon_image imageMap f) as [image|]; cbn [fst snd].
    + rewrite IH. destruct o; cbn [app head];
        destruct (needs_linear b image), l; reflexivity.
    + rewrite IH. cbn [app]. reflexivity.
Qed.

(** X16. An exception of the pass has one of two reasons: with
    symbol-placement line, a feature whose shaped text is the name of a
    property every object inherits; with symbol-placement point, a
    LineString feature with a line that has no points.  Without such a
    feature the pass returns. *)
Theorem pass_exceptions glyphMap glyphPositions imageMap imagePositions
    showCollisionBoxes b :
  fst (run_performSymbolLayout glyphMap glyphPositions imageMap
         imagePositions showCollisionBoxes b) = Normal tt
  \/ exists f, In f (features b) /\ feature_throws b f.
Proof.
  pose proof (pass_framed glyphMap glyphPositions imageMap imagePositions
                showCollisionBoxes b) as H.
  unfold wp in H. unfold run_performSymbolLayout.
  destruct (performSymbolLayout _ _ _ _ _ _) as [[[]|e] s'];
    [left; reflexivity | right; exact H].
Qed.

(** X17. The icon flags after a pass that returns.  [sdfIcons] keeps the value
    it had; when it had none, it is the [sdf] of the image of the first
    feature whose icon has an image, and it stays unset when there is no
    such feature.  [iconsNeedLinear] is set exactly when some feature has
    an icon image whose pixel ratio is not the bucket's, or when some
    feature has an icon image and icon-rotate is not the constant 0. *)
Theorem pass_icon_flags glyphMap glyphPositions imageMap imagePositions
    showCollisionBoxes b :
  let r := run_performSymbolLayout glyphMap glyphPositions imageMap
             imagePositions showCollisionBoxes b in
  fst r = Normal tt ->
  sdfIcons (bucket (snd r))
  = match sdfIcons b with
    | Some v => Some v
    | None =>
        head (flat_map (fun f => match icon_image imageMap f with
                                 | Some image => [sdf image]
                                 | None => []
                                 end) (features b))
    end
  /\ iconsNeedLinear (bucket (snd r))
     = existsb (fun f => match icon_image imageMap f with
                         | Some image => needs_linear b image
                         | None => false
                         end) (features b).
Proof.
  cbn zeta.
  pose proof (pass_framed glyphMap glyphPositions imageMap imagePositions
                showCollisionBoxes b) as H.
  unfold wp in H. unfold run_performSymbolLayout.
  destruct (performSymbolLayout _ _ _ _ _ _) as [[[]|e] s']; [|discriminate].
  intros _. cbn [snd]. rewrite fold_next_flags in H. unfold icon_flags in H.
  injection H as -> ->. split; reflexivity.
Qed.

End Frame.


End LayoutFacts.

(** ** More on the collision debug drawing *)

Module DebugFacts.
Import CollisionDebug DebugVocabulary DebugReadings DebugProperties.

Section Quads.
Context {T : ExternalTypes} {E : Externals}.

Lemma rounds_nat (n : nat) : rounds (inject_Z (Z.of_nat n)) = n.
Proof. unfold rounds. rewrite Qceiling_Z. apply Nat2Z.id. Qed.

Lemma rounds_double (n : nat) :
  rounds (inject_Z (Z.of_nat n) * 2) = (n + n)%nat.
Proof.
  unfold rounds.
  assert (Heq : inject_Z (Z.of_nat n) * 2 == inject_Z (Z.of_nat (n + n))).
  { rewrite Nat2Z.inj_add, inject_Z_plus. ring. }
  rewrite (Qceiling_comp _ _ Heq), Qceiling_Z. apply Nat2Z.id.
Qed.

(** One round of the loop of [createQuadTriangles]. *)
Lemma quad_round (i : nat) :
  (let n := Z.of_nat i in
   let idx := (n * 6)%Z in
   [ ((idx + 0)%Z, (n * 4 + 0)%Z); ((idx + 1)%Z, (n * 4 + 1)%Z);
     ((idx + 2)%Z, (n * 4 + 2)%Z); ((idx + 3)%Z, (n * 4 + 2)%Z);
     ((idx + 4)%Z, (n * 4 + 3)%Z); ((idx + 5)%Z, (n * 4 + 0)%Z) ])
  = quad_indices i.
Proof.
  unfold quad_indices. cbn zeta.
  repeat (f_equal; try lia).
Qed.

Lemma quad_stores (q : Q) :
  uint32_stores (createQuadTriangles q)
  = flat_map quad_indices (seq 0 (rounds (q * 2))).
Proof.
  unfold createQuadTriangles. cbn [uint32_stores].
  induction (seq 0 (rounds (q * 2))) as [|i l IH]; [reflexivity|].
  cbn [flat_map]. rewrite IH, <- quad_round. reflexivity.
Qed.

Lemma quad_indices_fst (a k : nat) :
  map fst (flat_map quad_indices (seq a k))
  = map Z.of_nat (seq (6 * a) (6 * k)).
Proof.
  revert a. induction k as [|k IH]; intros a.
  - rewrite Nat.mul_0_r. reflexivity.
  - cbn [seq flat_map]. rewrite map_app, IH.
    replace (6 * S k)%nat with (6 + 6 * k)%nat by lia.
    rewrite seq_app, map_app. f_equal.
    + unfold quad_indices. cbn [map fst seq].
      repeat (f_equal; try lia).
    + f_equal. f_equal. lia.
Qed.

Lemma filter_flat_map_all {A B} (p : B -> bool) (g : A -> list B) l :
  Forall (fun x => Forall (fun y => p y = true) (g x)) l ->
  List.filter p (flat_map g l) = flat_map g l.
Proof.
  induction 1 as [|x l Hx _ IH]; [reflexivity|].
  cbn [flat_map]. rewrite List.filter_app, IH. f_equal.
  clear -Hx. induction Hx as [|y ys Hy _ IH]; [reflexivity|].
  cbn. rewrite Hy, IH. reflexivity.
Qed.

Lemma filter_flat_map_none {A B} (p : B -> bool) (g : A -> list B) l :
  Forall (fun x => Forall (fun y => p y = false) (g x)) l ->
  List.filter p (flat_map g l) = [].
Proof.
  induction 1 as [|x l Hx _ IH]; [reflexivity|].
  cbn [flat_map]. rewrite List.filter_app, IH, app_nil_r.
  clear -Hx. induction Hx as [|y ys Hy _ IH]; [reflexivity|].
  cbn. rewrite Hy, IH. reflexivity.
Qed.

(** X18. [createQuadTriangles] for [n] quads runs its loop [2n] times, once per
    triangle, and stores a whole quad, six indices, in every round: [12n]
    stores at the consecutive indices [0 .. 12n-1].  The stores below index
    [6n], three per triangle of the array, are those of the quads
    [0 .. n-1], and point at the vertices below [4n]. *)
Theorem createQuadTriangles_stores (n : nat) :
  let q := createQuadTriangles (inject_Z (Z.of_nat n)) in
  quad_length q == inject_Z (2 * Z.of_nat n)
  /\ map fst (uint32_stores q) = map Z.of_nat (seq 0 (12 * n))
  /\ List.filter (fun st => (fst st <? 6 * Z.of_nat n)%Z) (uint32_stores q)
     = flat_map quad_indices (seq 0 n)
  /\ Forall (fun st => (0 <= snd st < 4 * Z.of_nat n)%Z)
            (flat_map quad_indices (seq 0 n)).
Proof.
  cbn zeta. split; [|split; [|split]].
  - cbn [createQuadTriangles quad_length]. rewrite inject_Z_mult. ring.
  - rewrite quad_stores, rounds_double, quad_indices_fst.
    f_equal. f_equal. lia.
  - rewrite quad_stores, rounds_double, seq_app, flat_map_app,
      List.filter_app.
    rewrite filter_flat_map_all, filter_flat_map_none.
    + apply app_nil_r.
    + apply Forall_forall. intros i Hi%list_elem_of_In%in_seq.
      unfold quad_indices. repeat constructor; cbn [fst]; lia.
    + apply Forall_forall. intros i Hi%list_elem_of_In%in_seq.
      unfold quad_indices. repeat constructor; cbn [fst]; lia.
  - apply Forall_flat_map, Forall_forall.
    intros i Hi%list_elem_of_In%in_seq.
    unfold quad_indices. repeat constructor; cbn [snd]; lia.
Qed.

End Quads.

Section Visits.
Context {T : ExternalTypes} {E : Externals}.
Variables (painter : Painter) (sourceCache : SourceCache)
  (layer : StyleLayer) (translate : Q * Q)
  (translateAnchor : TranslateAnchor).

Local Abbreviation visit isText :=
  (visitTile painter sourceCache layer translate translateAnchor isText).

Lemma visitTile_log isText v coord :
  visit_log (visit isText v coord)
  = visit_log v ++ visit_log (visit isText no_visit coord).
Proof.
  unfold visitTile.
  destruct (getBucket _ _) as [bucket|]; [|symmetry; apply app_nil_r].
  destruct (if isText then textCollisionBox bucket else iconCollisionBox bucket);
    destruct (0 <? length (collisionCircleArray bucket))%nat;
    cbn [visit_log no_visit app]; rewrite ?app_nil_r; reflexivity.
Qed.

Lemma visitTiles_log_from isText coords v :
  visit_log (fold_left (visit isText) coords v)
  = visit_log v
    ++ visit_log (fold_left (visit isText) coords no_visit).
Proof.
  revert v. induction coords as [|c coords IH]; intros v.
  - symmetry. apply app_nil_r.
  - cbn [fold_left]. rewrite IH, visitTile_log.
    rewrite (IH (visit isText no_visit c)), app_assoc. reflexivity.
Qed.

Lemma visitTile_no_bucket isText v coord :
  bucket_at sourceCache layer coord = None -> visit isText v coord = v.
Proof.
  unfold bucket_at, visitTile. intros ->. reflexivity.
Qed.

End Visits.

Section BoxPass.
Context {T : ExternalTypes} {E : Externals}.

(** X19. The requests of the loop over the tiles compose: the log for the tiles
    [c1 ++ c2] is the log for [c1] followed by what the log for [c2] holds
    after its program request.  One tile asks for nothing when it has no
    bucket for the layer or the bucket has no collision boxes of the pass;
    otherwise for one line draw, after the elevation set-up when the
    painter has a terrain, with the tile matrix, which is translated only
    for a translation other than (0, 0). *)
Theorem box_pass_requests painter sourceCache layer translate translateAnchor
    isText :
  (forall c1 c2,
      visit_log (visitTiles painter sourceCache layer (c1 ++ c2) translate
                            translateAnchor isText)
      = visit_log (visitTiles painter sourceCache layer c1 translate
                              translateAnchor isText)
        ++ tail (visit_log (visitTiles painter sourceCache layer c2 translate
                                       translateAnchor isText)))
  /\ (forall coord,
         visit_log (visitTiles painter sourceCache layer [coord] translate
                               translateAnchor isText)
         = EvGetOrCreateProgram "collisionBox"
           :: match bucket_at sourceCache layer coord with
              | None => []
              | Some bucket =>
                  let tile := getTile sourceCache coord in
                  let tileMatrix :=
                    getCollisionDebugTileProjectionMatrix coord bucket
                      (transform painter) in
                  let posMatrix :=
                    if Qeq_bool (fst translate) 0 && Qeq_bool (snd translate) 0
                    then tileMatrix
                    else translatePosMatrix painter tileMatrix tile translate
                           translateAnchor in
                  match (if isText then textCollisionBox bucket
                         else iconCollisionBox bucket) with
                  | None => []
                  | Some buffers =>
                      (if terrain painter then [EvSetupElevationDraw tile]
                       else [])
                      ++ [EvDrawBoxes LINES posMatrix tile
                            (getProjection bucket) buffers]
                  end
              end).
Proof.
  split.
  - intros c1 c2. unfold visitTiles. rewrite fold_left_app.
    rewrite visitTiles_log_from.
    rewrite (visitTiles_log_from _ _ _ _ _ _ c2
               {| tileBatches := []; circleCount := 0;
                  visit_circleOffset := 0;
                  visit_log := [EvGetOrCreateProgram "collisionBox"] |}).
    reflexivity.
  - intros coord. unfold visitTiles, bucket_at. cbn [fold_left].
    unfold visitTile.
    destruct (getBucket _ _) as [bucket|]; [|reflexivity].
    cbn zeta.
    destruct (Qeq_bool (fst translate) 0), (Qeq_bool (snd translate) 0);
      cbn [negb orb andb];
      destruct (if isText then textCollisionBox bucket
                else iconCollisionBox bucket);
      destruct (0 <? length (collisionCircleArray bucket))%nat;
      reflexivity.
Qed.

(** X20. A tile that has no bucket for the layer is skipped: the call does and
    returns what it does and returns without the tile. *)
Theorem tile_without_bucket_skipped painter sourceCache layer c1 coord c2
    translate translateAnchor isText quadTriangles :
  bucket_at sourceCache layer coord = None ->
  drawCollisionDebug painter sourceCache layer (c1 ++ coord :: c2) translate
    translateAnchor isText quadTriangles
  = drawCollisionDebug painter sourceCache layer (c1 ++ c2) translate
      translateAnchor isText quadTriangles.
Proof.
  intros Hnone.
  assert (Hv : visitTiles painter sourceCache layer (c1 ++ coord :: c2)
                 translate translateAnchor isText
               = visitTiles painter sourceCache layer (c1 ++ c2) translate
                   translateAnchor isText).
  { unfold visitTiles. rewrite !fold_left_app. cbn [fold_left].
    rewrite visitTile_no_bucket by exact Hnone. reflexivity. }
  unfold drawCollisionDebug. rewrite Hv. reflexivity.
Qed.

End BoxPass.

Section Circles.
Context {T : ExternalTypes} {E : Externals}.

Lemma circles_before_snoc pre b :
  circles_before (pre ++ [b])
  == circles_before pre + js_length (circleArray b) / 4.
Proof.
  induction pre as [|x pre IH]; cbn [app circles_before fold_right].
  - ring.
  - fold (circles_before (pre ++ [b])). fold (circles_before pre).
    rewrite IH. ring.
Qed.

Lemma visitTile_offsets painter sourceCache layer translate translateAnchor
    isText v coord :
  offsets_run v ->
  offsets_run (visitTile painter sourceCache layer translate translateAnchor
                         isText v coord).
Proof.
  intros (Hcount & Hoff & Hstart). unfold visitTile.
  destruct (getBucket _ _) as [bucket|]; [|repeat split; assumption].
  cbn zeta.
  set (posMatrix := if negb _ || negb _ then _ else _).
  set (nb := {| circleArray := collisionCircleArray bucket;
                circleOffset := visit_circleOffset v;
                batch_transform := posMatrix;
                invTransform := _; projection := _ |}).
  assert (Hgrow : offsets_run
            (if (0 <? length (collisionCircleArray bucket))%nat
             then {| tileBatches := tileBatches v ++ [nb];
                     circleCount :=
                       circleCount v
                       + js_length (collisionCircleArray bucket) / 4;
                     visit_circleOffset :=
                       circleCount v
                       + js_length (collisionCircleArray bucket) / 4;
                     visit_log := visit_log v |}
             else v)).
  { destruct (0 <? length (collisionCircleArray bucket))%nat;
      [|repeat split; assumption].
    unfold offsets_run. cbn [tileBatches circleCount visit_circleOffset].
    split; [|split; [reflexivity|]].
    - rewrite circles_before_snoc, Hcount. reflexivity.
    - intros k b Hk. apply lookup_app_Some in Hk as [Hk | [Hlen Hk]].
      + rewrite take_app_le
          by (apply Nat.lt_le_incl; eapply lookup_lt_Some; exact Hk).
        apply Hstart. exact Hk.
      + destruct (k - length (tileBatches v))%nat eqn:Hd;
          [|destruct n; discriminate].
        injection Hk as <-.
        assert (k = length (tileBatches v)) as -> by lia.
        rewrite take_app_length. cbn [circleOffset nb].
        rewrite Hoff. exact Hcount. }
  destruct (if isText then textCollisionBox bucket else iconCollisionBox bucket);
    [|exact Hgrow].
  destruct Hgrow as (H1 & H2 & H3). repeat split; assumption.
Qed.

Lemma visitTile_of_layer painter sourceCache layer translate translateAnchor
    isText v coord :
  Forall (fun b => (0 < length (circleArray b))%nat
                   /\ batch_of_layer sourceCache layer b) (tileBatches v) ->
  Forall (fun b => (0 < length (circleArray b))%nat
                   /\ batch_of_layer sourceCache layer b)
    (tileBatches (visitTile painter sourceCache layer translate
                            translateAnchor isText v coord)).
Proof.
  intros Hv. unfold visitTile.
  destruct (getBucket _ _) as [bucket|] eqn:Hb; [|exact Hv].
  cbn zeta.
  destruct (if isText then textCollisionBox bucket else iconCollisionBox bucket);
    destruct (0 <? length (collisionCircleArray bucket))%nat eqn:Hlen;
    cbn [tileBatches]; try exact Hv.
  all: apply Forall_app; split; [exact Hv|].
  all: apply Nat.ltb_lt in Hlen.
  all: repeat constructor; [exact Hlen|].
  all: exists coord, bucket; split; [exact Hb | reflexivity].
Qed.

Lemma visitTiles_invariant (P : Visit -> Prop) painter sourceCache layer
    coords translate translateAnchor isText :
  (forall v coord,
      P v ->
      P (visitTile painter sourceCache layer translate translateAnchor isText
                   v coord)) ->
  (forall l, P {| tileBatches := []; circleCount := 0;
                  visit_circleOffset := 0; visit_log := l |}) ->
  P (visitTiles painter sourceCache layer coords translate translateAnchor
                isText).
Proof.
  intros Hstep H0. unfold visitTiles.
  generalize (H0 [EvGetOrCreateProgram "collisionBox"]).
  generalize {| tileBatches := []; circleCount := 0; visit_circleOffset := 0;
                visit_log := [EvGetOrCreateProgram "collisionBox"] |}.
  induction coords as [|c coords IH]; intros v Hv; [exact Hv|].
  cbn [fold_left]. apply IH, Hstep, Hv.
Qed.

(** X21. The batches of a call divide the circles among them without gap or
    overlap: every batch starts at the number of circles of the batches
    before it, and the circle count of the call is the number of circles
    of all batches.  (The draw call of a batch takes its triangles from
    twice its offset on, two per circle.) *)
Theorem batch_offsets_consecutive painter sourceCache layer coords translate
    translateAnchor isText :
  let v := visitTiles painter sourceCache layer coords translate
                      translateAnchor isText in
  circleCount v == circles_before (tileBatches v)
  /\ (forall k b,
         tileBatches v !! k = Some b ->
         circleOffset b == circles_before (take k (tileBatches v)))
  /\ (forall b,
         In b (tileBatches v) ->
         (0 < length (circleArray b))%nat
         /\ batch_of_layer sourceCache layer b).
Proof.
  cbn zeta. split; [|split].
  - apply (visitTiles_invariant offsets_run).
    + intros v coord. apply visitTile_offsets.
    + intros l. split; [reflexivity|]. split; [reflexivity|].
      intros k b Hk. discriminate.
  - apply (visitTiles_invariant offsets_run).
    + intros v coord. apply visitTile_offsets.
    + intros l. split; [reflexivity|]. split; [reflexivity|].
      intros k b Hk. discriminate.
  - intros b Hb%list_elem_of_In. revert b Hb. apply Forall_forall.
    apply (visitTiles_invariant
             (fun v => Forall (fun b => (0 < length (circleArray b))%nat
                                        /\ batch_of_layer sourceCache layer b)
                              (tileBatches v))).
    + intros v coord. apply visitTile_of_layer.
    + intros l. constructor.
Qed.

Lemma emplaced_circles tileBatches circleCount :
  emplaced (circleVertexData tileBatches circleCount)
  = concat (imap quad_of_circle (circles_of tileBatches)).
Proof.
  unfold circleVertexData. cbn [emplaced].
  change (0%Z, @nil (Z * Vertex)) with (emplaced_after []).
  rewrite emplaceBatches_after. reflexivity.
Qed.

Lemma quads_fst (a : nat) (cs : list (list Q * nat)) :
  map fst (concat (imap (fun j => quad_of_circle (a + j)) cs))
  = map Z.of_nat (seq (4 * a) (4 * length cs)).
Proof.
  revert a. induction cs as [|c cs IH]; intros a.
  - rewrite Nat.mul_0_r. reflexivity.
  - cbn [imap concat length]. rewrite map_app.
    replace (4 * S (length cs))%nat with (4 + 4 * length cs)%nat by lia.
    rewrite seq_app, map_app. f_equal.
    + unfold quad_of_circle. cbn [map fst seq].
      repeat (f_equal; try lia).
    + rewrite (imap_ext _ (fun j => quad_of_circle (S a + j))).
      * rewrite IH. f_equal. f_equal. lia.
      * intros j x _. cbn. f_equal. lia.
Qed.

Lemma quads_length (f : nat -> list Q * nat -> list (Z * Vertex)) cs :
  (forall j c, length (f j c) = 4%nat) ->
  length (concat (imap f cs)) = (4 * length cs)%nat.
Proof.
  revert f. induction cs as [|c cs IH]; intros f Hf; [reflexivity|].
  cbn [imap concat length]. rewrite length_app, Hf, IH; [lia|].
  intros j x. apply Hf.
Qed.

Lemma quads_Forall (P : Z * Vertex -> Prop)
    (f : nat -> list Q * nat -> list (Z * Vertex)) cs :
  (forall j c, In c cs -> Forall P (f j c)) ->
  Forall P (concat (imap f cs)).
Proof.
  revert f. induction cs as [|c cs IH]; intros f Hf; [constructor|].
  cbn [imap concat]. apply Forall_app. split.
  - apply Hf. left. reflexivity.
  - apply IH. intros j x Hx. apply Hf. right. exact Hx.
Qed.

Lemma whole_circles_count (batches : list TileBatch) :
  Forall (fun b => exists n, length (circleArray b) = (4 * n)%nat) batches ->
  circles_before batches * 4
  == inject_Z (Z.of_nat (4 * length (circles_of batches))).
Proof.
  induction 1 as [|b batches [n Hn] _ IH].
  - reflexivity.
  - cbn [circles_before fold_right circles_of flat_map].
    fold (circles_before batches). fold (circles_of batches).
    rewrite length_app, length_map, length_seq.
    rewrite (rounds_whole_circles _ n Hn).
    unfold js_length. rewrite Hn.
    replace (4 * (n + length (circles_of batches)))%nat
      with (4 * n + 4 * length (circles_of batches))%nat by lia.
    rewrite (Nat2Z.inj_add (4 * n)), inject_Z_plus, <- IH. field.
Qed.

Lemma whole_circles_in_range (batches : list TileBatch) c :
  Forall (fun b => exists n, length (circleArray b) = (4 * n)%nat) batches ->
  In c (circles_of batches) ->
  (snd c * 4 + 3 < length (fst c))%nat.
Proof.
  intros Hw Hc. unfold circles_of in Hc.
  apply in_flat_map in Hc as (b & Hb & Hc).
  apply in_map_iff in Hc as (i & <- & Hi%in_seq).
  rewrite Forall_forall in Hw.
  destruct (Hw b (proj2 (list_elem_of_In _ _) Hb)) as [n Hn].
  rewrite (rounds_whole_circles _ n Hn) in Hi. cbn [fst snd]. lia.
Qed.

(** X22. When every circle array of the layer holds whole circles, the vertex
    data of a call are filled exactly: as many vertices are emplaced as
    the array was resized to, at the indices 0, 1, 2, ... in order, and no
    vertex reads a number past the end of its circle array. *)
Theorem circle_vertex_data_filled painter sourceCache layer coords translate
    translateAnchor isText :
  whole_circles sourceCache layer ->
  let v := visitTiles painter sourceCache layer coords translate
                      translateAnchor isText in
  let vertexData := circleVertexData (tileBatches v) (circleCount v) in
  vertexData_length vertexData
  == inject_Z (Z.of_nat (length (emplaced vertexData)))
  /\ map fst (emplaced vertexData)
     = map Z.of_nat (seq 0 (length (emplaced vertexData)))
  /\ Forall (fun e => vertex_defined (snd e)) (emplaced vertexData).
Proof.
  intros Hwhole v vertexData.
  assert (Hw : Forall (fun b => exists n, length (circleArray b) = (4 * n)%nat)
                      (tileBatches v)).
  { assert (Hl : Forall (fun b => (0 < length (circleArray b))%nat
                                  /\ batch_of_layer sourceCache layer b)
                        (tileBatches v)).
    { apply (visitTiles_invariant
               (fun v => Forall (fun b => (0 < length (circleArray b))%nat
                                          /\ batch_of_layer sourceCache layer b)
                                (tileBatches v))).
      - intros v0 coord. apply visitTile_of_layer.
      - intros l. constructor. }
    eapply Forall_impl; [exact Hl|].
    intros b (_ & coord & bucket & Hb & ->). exact (Hwhole coord bucket Hb). }
  assert (Hcount : circleCount v == circles_before (tileBatches v)).
  { apply (visitTiles_invariant offsets_run).
    - intros v0 coord. apply visitTile_offsets.
    - intros l. split; [reflexivity|]. split; [reflexivity|].
      intros k b Hk. discriminate. }
  subst vertexData. rewrite emplaced_circles.
  rewrite (quads_length quad_of_circle) by reflexivity.
  split; [|split].
  - cbn [circleVertexData vertexData_length].
    rewrite Hcount. apply whole_circles_count. exact Hw.
  - rewrite <- (quads_fst 0). reflexivity.
  - apply quads_Forall. intros j c Hc.
    pose proof (whole_circles_in_range _ c Hw Hc) as Hlt.
    unfold quad_of_circle, circle_vertex.
    repeat constructor; cbn [snd vertex_x vertex_y vertex_radius
                                 vertex_collision];
      intros Hnone; apply lookup_ge_None in Hnone; lia.
Qed.

Lemma Qltb_irrefl (x : Q) : Qltb x x = false.
Proof.
  unfold Qltb. apply negb_false_iff, Qle_bool_iff, Qle_refl.
Qed.

(** X23. Drawing the same frame again, with the quad index buffer the first
    call left, asks for the same things and leaves the same buffer: the
    second call never rebuilds it. *)
Theorem redraw_reuses_buffer painter sourceCache layer coords translate
    translateAnchor isText quadTriangles :
  let r := drawCollisionDebug painter sourceCache layer coords translate
             translateAnchor isText quadTriangles in
  drawCollisionDebug painter sourceCache layer coords translate
    translateAnchor isText (fst r)
  = r.
Proof.
  cbn zeta. unfold drawCollisionDebug.
  destruct (negb isText || _); [reflexivity|]. cbn [fst].
  destruct quadTriangles as [q|].
  - destruct (Qltb (quad_length q) _) eqn:Hlt.
    + cbn [createQuadTriangles quad_length]. rewrite Qltb_irrefl.
      reflexivity.
    + rewrite Hlt. reflexivity.
  - cbn [createQuadTriangles quad_length]. rewrite Qltb_irrefl. reflexivity.
Qed.

End Circles.

End DebugFacts.

(** * The properties at the inputs of [Demo] and [DemoInputs] *)

Module LayoutFactsAtDemo.
Import SymbolLayout LayoutVocabulary LayoutReadings LayoutProperties.
Import LayoutFacts Demo DemoInputs.

Lemma anchorIsTooClose_remembers_witness :
  let s1 := final (anchorIsTooClose "LAKE" 2000 (newAnchor 100 100 0))
                  (demo_state line) in
  anchorIsTooClose "LAKE" 2000 (newAnchor 105 100 0) s1 = (Normal true, s1).
Proof.
  cbn zeta.
  refine (proj1 (anchorIsTooClose_remembers (E := demo) "LAKE" 2000
                   (newAnchor 100 100 0) (demo_state line) _ _)
                (newAnchor 105 100 0) _).
  - vm_compute. reflexivity.
  - vm_compute. reflexivity.
Defined.

Lemma composite_text_size_warning_witness :
  head (log (final (addTextVertices demo_anchor "AB"%string
                      (demo_layer point (Some 300)) false demo_lake (0, 0)
                      {| lineStartIndex := 0; lineLength := 1 |} horizontal
                      [] tt (computeSizes (bucket demo_composite_state)))
                   demo_composite_state))
  = Some (EvWarnOnce (SizeTooLarge (Some "labels"%string) prop_text_size)).
Proof.
  pose proof (composite_text_size_warning (E := demo) demo_anchor
                "AB"%string (demo_layer point (Some 300)) false demo_lake
                (0, 0) {| lineStartIndex := 0; lineLength := 1 |} horizontal
                [] tt (computeSizes (bucket demo_composite_state))
                demo_composite_state 5 10 (constant (Some 300))
                (constant (Some 300)) 300 300
                eq_refl eq_refl eq_refl eq_refl) as (_ & Hwarn & _).
  rewrite Hwarn; [reflexivity|]. left. unfold Qle. cbn. lia.
Defined.

Lemma symbol_instance_box_ranges_witness :
  exists inst s',
    demo_addSymbol (demo_shaped (Some "AB"%string) None) (Some tt)
                   (demo_state point)
    = (Normal inst, s')
    /\ iconBoxStartIndex inst = textBoxEndIndex inst
    /\ iconBoxEndIndex inst
       = Z.of_nat (length (collisionBoxArray (bucket s'))).
Proof.
  destruct (symbol_instance_box_ranges (E := demo) demo_anchor
              [mkPoint 10 10] (demo_shaped (Some "AB"%string) None) (Some tt)
              (layers_0 (bucket (demo_state point)))
              7 0 0 (Some 1) 2 false (0, 0) (Some 1) 2 false (0, 0)
              demo_star tt (computeSizes (bucket (demo_state point)))
              (demo_state point) eq_refl)
    as (inst & s' & evs & Hrun & _ & _ & _ & _ & _ & His & _ & Hie).
  exists inst, s'. auto.
Defined.

Lemma symbol_instance_vertex_calls_witness :
  exists inst s' evs,
    demo_addSymbol (demo_shaped (Some "AB"%string) None) (Some tt)
                   (demo_state point)
    = (Normal inst, s')
    /\ log s' = evs
    /\ map vertex_call (addSymbols_calls evs)
       = [(buffers_text, Some horizontalOnly); (buffers_icon, None)].
Proof.
  destruct (symbol_instance_vertex_calls (E := demo) demo_anchor
              [mkPoint 10 10] (demo_shaped (Some "AB"%string) None) (Some tt)
              (layers_0 (bucket (demo_state point)))
              7 0 0 (Some 1) 2 false (0, 0) (Some 1) 2 false (0, 0)
              demo_star tt (computeSizes (bucket (demo_state point)))
              (demo_state point) eq_refl)
    as (inst & s' & evs & Hrun & Hlog & Hcalls & _).
  exists inst, s', evs. auto.
Defined.

Lemma icon_size_overflow_warning_witness :
  exists inst s' evs,
    demo_addSymbol (demo_shaped None None) (Some tt) demo_icon_source_state
    = (Normal inst, s')
    /\ log s' = evs
    /\ map as_sizeData (icon_calls evs) = [Some [Some (SIZE_PACK_FACTOR * 1)]]
    /\ icon_size_warnings evs = [].
Proof.
  destruct (icon_size_overflow_warning (E := demo) demo_anchor
              [mkPoint 10 10] (demo_shaped None None) tt
              (layers_0 (bucket demo_icon_source_state))
              7 0 0 (Some 1) 2 false (0, 0) (Some 1) 2 false (0, 0)
              demo_star tt (computeSizes (bucket demo_icon_source_state))
              demo_icon_source_state 1 eq_refl eq_refl eq_refl)
    as (inst & s' & evs & Hrun & Hlog & Hdata & _ & Hnone).
  exists inst, s', evs. split; [exact Hrun|]. split; [exact Hlog|].
  split; [exact Hdata|]. apply Hnone.
  unfold SIZE_PACK_FACTOR, MAX_PACKED_SIZE, Qle. cbn. lia.
Defined.

Lemma too_many_glyphs_warning_witness :
  exists inst s' evs,
    demo_addSymbol (demo_shaped (Some "AB"%string) None) None
                   (demo_state point)
    = (Normal inst, s')
    /\ log s' = evs
    /\ glyph_warnings evs = 0%nat.
Proof.
  destruct (too_many_glyphs_warning (E := demo) demo_anchor
              [mkPoint 10 10] (demo_shaped (Some "AB"%string) None) None
              (layers_0 (bucket (demo_state point)))
              7 0 0 (Some 1) 2 false (0, 0) (Some 1) 2 false (0, 0)
              demo_star tt (computeSizes (bucket (demo_state point)))
              (demo_state point) eq_refl)
    as (inst & s' & evs & Hrun & Hlog & Hglyph).
  exists inst, s', evs. split; [exact Hrun|]. split; [exact Hlog|].
  rewrite Hglyph.
  assert (Hs' : s' = snd (demo_addSymbol (demo_shaped (Some "AB"%string) None)
                            None (demo_state point))).
  { symmetry. exact (f_equal snd Hrun). }
  rewrite Hs'. vm_compute. reflexivity.
Defined.

Lemma polygon_point_placement_witness :
  exists s',
    demo_addFeature demo_polygon (demo_shaped None None) (Some tt)
                    (demo_state point)
    = (Normal tt, s')
    /\ candidates (log s') = [(demo_triangle, newAnchor 10 10 0)].
Proof.
  exact (polygon_point_placement (E := demo) demo_polygon
           (demo_shaped None None) (Some tt) tt
           (computeSizes (bucket (demo_state point))) (demo_state point)
           eq_refl eq_refl eq_refl).
Defined.

Lemma linestring_point_placement_witness :
  exists e s',
    demo_addFeature
      (demo_feature None (Some "star"%string) LineString [demo_triangle; []])
      (demo_shaped None None) (Some tt) (demo_state point)
    = (Throw e, s').
Proof.
  refine (proj2 (linestring_point_placement (E := demo)
                   (demo_feature None (Some "star"%string) LineString
                      [demo_triangle; []])
                   (demo_shaped None None) (Some tt) tt
                   (computeSizes (bucket (demo_state point)))
                   (demo_state point) eq_refl eq_refl eq_refl) _).
  right. left. reflexivity.
Defined.

Lemma line_center_placement_witness :
  exists s' evs,
    demo_addFeature demo_road (demo_shaped None None) (Some tt)
                    (demo_state line_center)
    = (Normal tt, s')
    /\ log s' = evs
    /\ map gc_line (getCenterAnchor_calls evs) = [demo_triangle].
Proof.
  destruct (line_center_placement (E := demo) demo_road
              (demo_shaped None None) (Some tt) tt
              (computeSizes (bucket (demo_state line_center)))
              (demo_state line_center) eq_refl eq_refl)
    as (s' & evs & Hrun & Hlog & Hlines & _).
  exists s', evs. auto.
Defined.

Lemma line_placement_without_text_witness :
  exists s' evs,
    demo_addFeature demo_road (demo_shaped None None) (Some tt)
                    (demo_state line)
    = (Normal tt, s')
    /\ log s' = evs
    /\ map ga_line (getAnchors_calls evs) = [demo_triangle; [mkPoint 7 7]]
    /\ compareText (bucket s') = ∅.
Proof.
  destruct (line_placement_without_text (E := demo) demo_road
              (demo_shaped None None) (Some tt) tt
              (computeSizes (bucket (demo_state line)))
              (demo_state line) eq_refl eq_refl eq_refl)
    as (s' & evs & Hrun & Hlog & Hlines & _ & _ & Hct).
  exists s', evs. auto.
Defined.

Lemma pass_without_labels_witness :
  fst (demo_run (demo_bucket point (Some 16) size_constant
                   [demo_bare; demo_bare]))
  = Normal tt.
Proof.
  refine (f_equal fst
            (pass_without_labels (E := demo) tt tt demo_images
               (fun _ => Some tt) false
               (demo_bucket point (Some 16) size_constant
                  [demo_bare; demo_bare]) _)).
  repeat constructor.
Defined.

Lemma pass_icon_flags_witness :
  sdfIcons (bucket (snd (demo_run demo_point_bucket))) = Some false
  /\ iconsNeedLinear (bucket (snd (demo_run demo_point_bucket))) = false.
Proof.
  refine (pass_icon_flags (E := demo) tt tt demo_images (fun _ => Some tt)
            false demo_point_bucket _).
  vm_compute. reflexivity.
Defined.

End LayoutFactsAtDemo.

Module DebugFactsAtDemo.
Import CollisionDebug DebugVocabulary DebugReadings DebugFacts DebugDemo.

Lemma tile_without_bucket_skipped_witness :
  demo_draw [0; 1; 2]%nat true None = demo_draw [0; 2]%nat true None.
Proof.
  exact (tile_without_bucket_skipped (E := demo) demo_painter tt tt [0%nat]
           1%nat [2%nat] (0, 0) anchor_map true None eq_refl).
Defined.

Lemma circle_vertex_data_filled_witness :
  let v := visitTiles demo_painter tt tt [0; 1; 2]%nat (0, 0) anchor_map
                      true in
  Forall (fun e => vertex_defined (snd e))
         (emplaced (circleVertexData (tileBatches v) (circleCount v))).
Proof.
  cbn zeta.
  refine (proj2 (proj2 (circle_vertex_data_filled (E := demo) demo_painter
                          tt tt [0; 1; 2]%nat (0, 0) anchor_map true _))).
  intros coord bucket Hb. unfold bucket_at in Hb. cbn in Hb.
  destruct coord as [|[|[|coord]]]; cbn in Hb; try discriminate.
  - injection Hb as <-. exists 2%nat. reflexivity.
  - injection Hb as <-. exists 1%nat. reflexivity.
Defined.

End DebugFactsAtDemo.
